(** * Azure DevOps MCP wrapper: the stdio relay, the client pool and the
      server

    A shallow embedding of the repository's code:

    - the stdio-to-HTTP proxy script ([sendToServer], [processMessage] and the
      stdin line framing), in modules [Relay] and [Stdin];
    - [auth-middleware.ts]: [generateAuthCacheKey] (module [Auth]) and the
      two middlewares (module [Middleware]);
    - the class [MCPClientManager] (module [Pool]);
    - the routes of the class [Server] that use the manager (module
      [Server]).

    JavaScript values are modelled in module [Js]: JSON documents as a tree,
    numbers as binary64 floats, strings as sequences of 8-bit characters read
    as the code points U+0000 to U+00FF, objects as property lists in
    enumeration order.  What [JSON.stringify] makes of such a tree is
    [Js.serialised]. *)

From Stdlib Require Import String Ascii List ZArith Floats Bool Lia.
Import ListNotations.
Local Open Scope string_scope.
Set Warnings "-register-all".

(* ===================================================================== *)
(** ** JavaScript values *)
(* ===================================================================== *)

Module Js.

(** A value produced by [JSON.parse]: a JSON document. *)
Inductive json : Type :=
| JNull
| JBool (b : bool)
| JNum (n : float)
| JStr (s : string)
| JArr (items : list json)
| JObj (props : list (string * json)).

(** Own-property lookup in a property list ([o[k]] on a plain object). *)
Fixpoint assoc {A : Type} (k : string) (props : list (string * A)) : option A :=
  match props with
  | [] => None
  | (k', v) :: rest => if String.eqb k' k then Some v else assoc k rest
  end.

(** [o[k] = x] on a plain object: an existing property keeps its place, a
    new one goes last. *)
Fixpoint assign {A : Type} (k : string) (x : A) (props : list (string * A))
  : list (string * A) :=
  match props with
  | [] => [(k, x)]
  | (k', v) :: rest =>
      if String.eqb k' k then (k, x) :: rest else (k', v) :: assign k x rest
  end.

(** [Map.prototype.delete] and [delete o[k]]. *)
Fixpoint remove {A : Type} (k : string) (props : list (string * A))
  : list (string * A) :=
  match props with
  | [] => []
  | (k', v) :: rest =>
      if String.eqb k' k then remove k rest else (k', v) :: remove k rest
  end.

(** [ToBoolean] on a JSON document: [null], [false], [0], [-0], [NaN] and the
    empty string are falsy. *)
Definition truthy (v : json) : bool :=
  match v with
  | JNull => false
  | JBool b => b
  | JNum n => negb (PrimFloat.eqb n 0%float || PrimFloat.is_nan n)
  | JStr EmptyString => false
  | JStr (String _ _) => true
  | JArr _ => true
  | JObj _ => true
  end.

(** [ToBoolean] on a possibly [undefined] value. *)
Definition truthy_opt (v : option json) : bool :=
  match v with
  | None => false
  | Some x => truthy x
  end.

(** [ToBoolean] on a possibly [undefined] string. *)
Definition truthy_str (s : option string) : bool :=
  match s with
  | Some (String _ _) => true
  | _ => false
  end.

(** [s || d] for a possibly [undefined] string [s]. *)
Definition str_or (s : option string) (d : string) : string :=
  match s with
  | Some (String c r) => String c r
  | _ => d
  end.

(** The message of V8's [TypeError] for a property access on [null]. *)
Definition null_read (k : string) : string :=
  "Cannot read properties of null (reading '" ++ k ++ "')".

Definition null_write (k : string) : string :=
  "Cannot set properties of null (setting '" ++ k ++ "')".

(** [v.k] for a property name [k] that no built-in prototype defines (the
    script reads only [id] and [jsonrpc]): [inl] is the thrown [TypeError],
    [inr None] is [undefined].  Numbers, strings, booleans and arrays coming
    out of [JSON.parse] have no such property. *)
Definition getProp (v : json) (k : string) : string + option json :=
  match v with
  | JNull => inl (null_read k)
  | JObj props => inr (assoc k props)
  | _ => inr None
  end.

(** [v.k = x] in sloppy mode (the script has no strict-mode directive), as
    far as [JSON.stringify] can see afterwards: a store on a primitive is
    dropped, a store on an array adds a non-index property that is not
    serialised, a store on [null] throws. *)
Definition setProp (v : json) (k : string) (x : json) : string + json :=
  match v with
  | JNull => inl (null_write k)
  | JObj props => inr (JObj (assign k x props))
  | _ => inr v
  end.

(** What [JSON.stringify] writes for a document, given as the document its
    text denotes (what [JSON.parse] makes of it): a number that is not
    finite is written [null], negative zero is written [0], and every other
    value is written as it is, the properties of an object in their
    enumeration order.  No value out of [JSON.parse] is [undefined] or has a
    callable [toJSON]. *)
Fixpoint serialised (v : json) : json :=
  match v with
  | JNum n =>
      if PrimFloat.is_finite n then
        if PrimFloat.eqb n 0 then JNum 0 else JNum n
      else JNull
  | JArr items => JArr (map serialised items)
  | JObj props => JObj (map (fun p => (fst p, serialised (snd p))) props)
  | _ => v
  end.

(** ECMAScript white space and line terminators below U+0100. *)
Definition is_space (c : ascii) : bool :=
  let n := nat_of_ascii c in
  (Nat.eqb n 9 || Nat.eqb n 10 || Nat.eqb n 11 || Nat.eqb n 12
   || Nat.eqb n 13 || Nat.eqb n 32 || Nat.eqb n 160)%bool.

(** [String.prototype.trimStart]. *)
Fixpoint trimStart (s : string) : string :=
  match s with
  | EmptyString => EmptyString
  | String c r => if is_space c then trimStart r else s
  end.

(** [String.prototype.trimEnd]. *)
Fixpoint trimEnd (s : string) : string :=
  match s with
  | EmptyString => EmptyString
  | String c r =>
      match trimEnd r with
      | EmptyString => if is_space c then EmptyString else String c EmptyString
      | r' => String c r'
      end
  end.

(** [String.prototype.trim]. *)
Definition trim (s : string) : string := trimEnd (trimStart s).

(** Every character is white space (the empty string included). *)
Fixpoint whitespace_only (s : string) : bool :=
  match s with
  | EmptyString => true
  | String c r => is_space c && whitespace_only r
  end.

(** [!s] for a string. *)
Definition is_empty (s : string) : bool :=
  match s with
  | EmptyString => true
  | String _ _ => false
  end.

(** [s.split(sep)] for a one-character separator. *)
Fixpoint split (sep : ascii) (s : string) : list string :=
  match s with
  | EmptyString => [EmptyString]
  | String c r =>
      if Ascii.eqb c sep then EmptyString :: split sep r
      else match split sep r with
           | [] => [String c EmptyString]
           | w :: ws => String c w :: ws
           end
  end.

End Js.

(* ===================================================================== *)
(** ** The stdio relay (the proxy script) *)
(* ===================================================================== *)

Module Relay.
Import Js.

(** One [process.stdout.write(JSON.stringify(doc) + '\n')]; [doc] is the
    value handed to [JSON.stringify]. *)
Inductive output : Type :=
| Line (doc : json).

(** The document on an output line: what [JSON.stringify] wrote. *)
Definition written (o : output) : json :=
  match o with
  | Line doc => serialised doc
  end.

(** The events of Node's http client that [sendToServer] listens to: the
    response ended after its chunks were concatenated into [responseData],
    the socket of the request has been idle for the time of the [timeout]
    option, or the request failed. *)
Inductive http_event : Type :=
| ResponseEnd (responseData : string)
| RequestTimeout
| RequestError (message : string).

(** The two ways [sendToServer] invokes its callback: [callback(error)] and
    [callback(null, responseData)]. *)
Inductive callback_args : Type :=
| Failed (message : string)
| Answered (responseData : string).

(** What a handler registered by [sendToServer] does with its event:
    whether it destroys the request ([req.destroy()]), and what it then
    passes to the callback. *)
Record handling : Type := mkHandling {
  destroys : bool;
  invokes : callback_args
}.

(** The POST issued by [sendToServer]; [body] is the value handed to
    [JSON.stringify] for the request. *)
Record post : Type := mkPost {
  hostname : string;
  port : Z;
  path : string;
  method : string;
  timeout : Z;
  body : json
}.

(** [sendToServer(message, callback)]: the request issued, and the three
    handlers registered on it. *)
Definition sendToServer (message : json) : post * (http_event -> handling) :=
  (mkPost "localhost" 3000 "/api/mcp" "POST" 10000 message,
   fun ev =>
     match ev with
     | ResponseEnd responseData => mkHandling false (Answered responseData)
     | RequestTimeout => mkHandling true (Failed "Timeout")
     | RequestError message => mkHandling false (Failed message)
     end).

(** How the exchange with the backend goes for one request. *)
Inductive exchange : Type :=
| Responds (responseData : string)
    (* the response arrives and ends *)
| Fails (message : string)
    (* the request fails: connection refused, reset, ... *)
| Idles
    (* the backend sends nothing for [timeout] milliseconds *)
| Breaks
    (* the response begins and the connection closes before it ends: the
       client tells the response object, on which the script listens for
       [data] and [end] only *)
| Abandoned.
    (* the script exits before the client emits anything: stdin has ended
       or a signal has arrived, and the handlers of [end], [SIGINT] and
       [SIGTERM] call [process.exit(0)] *)

(** The message of the error Node's http client emits for a request that
    is destroyed before its response has arrived. *)
Definition socketHangUp : string := "socket hang up".

(** The events the handlers get for one request, in order.  [timeout] only
    tells that the socket has been idle; a handler that destroys the
    request then makes the client emit [error]. *)
Definition reports (handlers : http_event -> handling) (x : exchange)
  : list http_event :=
  match x with
  | Responds responseData => [ResponseEnd responseData]
  | Fails message => [RequestError message]
  | Idles =>
      RequestTimeout
      :: (if destroys (handlers RequestTimeout)
          then [RequestError socketHangUp] else [])
  | Breaks | Abandoned => []
  end.

(** The object literal [{jsonrpc: '2.0', id, error: {code, message}}]. *)
Definition errorResponse (id : json) (code : float) (message : string) : json :=
  JObj [("jsonrpc", JStr "2.0");
        ("id", id);
        ("error", JObj [("code", JNum code); ("message", JStr message)])].

(** What [processMessage] does with one message text: it either writes at
    once and sends nothing, or issues a POST with its handlers and writes
    when a handler invokes the callback. *)
Inductive action : Type :=
| Reply (out : list output)
| Forward (request : post) (handlers : http_event -> handling)
          (callback : callback_args -> list output).

Section WithParser.

(** [JSON.parse]: [inl] carries the message of the [SyntaxError]. *)
Variable JSON_parse : string -> string + json.

(** The body of the inner [try] after a successful parse of the response,
    for a request: default [jsonrpc], overwrite [id]. [inl] is a thrown
    [TypeError]. *)
Definition stamp (response requestId : json) : string + json :=
  match getProp response "jsonrpc" with
  | inl e => inl e
  | inr version =>
      match (if truthy_opt version then inr response
             else setProp response "jsonrpc" (JStr "2.0")) with
      | inl e => inl e
      | inr response' => setProp response' "id" requestId
      end
  end.

(** The callback passed to [sendToServer]; [requestId] is [None] when
    [message.id] is [undefined] (a notification). *)
Definition onResponse (requestId : option json) (args : callback_args)
  : list output :=
  match args with
  | Failed message =>
      match requestId with
      | None => []
      | Some id => [Line (errorResponse id (-32603) message)]
      end
  | Answered responseData =>
      if (is_empty responseData || is_empty (trim responseData))%bool then
        match requestId with
        | None => []
        | Some id =>
            [Line (errorResponse id (-32603) "Empty response from server")]
        end
      else
        let catch (parseError : string) :=
          match requestId with
          | None => []
          | Some id =>
              [Line (errorResponse id (-32700)
                       ("Invalid JSON response: " ++ parseError))]
          end in
        match JSON_parse responseData with
        | inl parseError => catch parseError
        | inr response =>
            match requestId with
            | None => []
            | Some id =>
                match stamp response id with
                | inl typeError => catch typeError
                | inr response' => [Line response']
                end
            end
        end
  end.

(** [processMessage(messageText)]. *)
Definition processMessage (messageText : string) : action :=
  let catch (error : string) :=
    Reply [Line (errorResponse JNull (-32700)
                   ("Invalid JSON request: " ++ error))] in
  match JSON_parse messageText with
  | inl error => catch error
  | inr message =>
      match getProp message "id" with
      | inl error => catch error
      | inr requestId =>
          let (request, handlers) := sendToServer message in
          Forward request handlers (onResponse requestId)
      end
  end.

(** The lines written for one message text by one report of the http
    client: the handler of [ev] invokes the callback once.  (A request may
    get several reports, or none: see [relayed].) *)
Definition relay (messageText : string) (ev : http_event) : list output :=
  match processMessage messageText with
  | Reply out => out
  | Forward _ handlers callback => callback (invokes (handlers ev))
  end.

(** The lines written for one message text when the http client reports
    [events], in this order, for the request it caused: the callback runs
    once for each report. *)
Definition relayAll (messageText : string) (events : list http_event)
  : list output :=
  match processMessage messageText with
  | Reply out => out
  | Forward _ handlers callback =>
      flat_map (fun ev => callback (invokes (handlers ev))) events
  end.

(** The lines written for one message text over the whole exchange with
    the backend. *)
Definition relayed (messageText : string) (x : exchange) : list output :=
  match processMessage messageText with
  | Reply out => out
  | Forward _ handlers callback =>
      flat_map (fun ev => callback (invokes (handlers ev)))
        (reports handlers x)
  end.

(** The value handed to [JSON.stringify] for the POST a message text
    causes, if it causes one. *)
Definition forwarded (messageText : string) : option json :=
  match processMessage messageText with
  | Reply _ => None
  | Forward request _ _ => Some (body request)
  end.

End WithParser.

Definition newline : ascii := ascii_of_nat 10.

(** The [data] handler of stdin: the non-empty trimmed texts before each
    newline of [messageBuffer + data], in order, each handed to
    [processMessage], and the text after the last newline, which stays
    buffered. *)
Definition onData (messageBuffer data : string) : list string * string :=
  let pieces := split newline (messageBuffer ++ data) in
  (filter (fun t => negb (is_empty t)) (map trim (removelast pieces)),
   last pieces EmptyString).

(** *** The words of the specification, for comparison *)

(** The response the specification describes for a backend object:
    [jsonrpc] set to 2.0 if the property is missing, [id] overwritten. *)
Definition spec_response (backend : list (string * json)) (requestId : json)
  : json :=
  let with_version :=
    match assoc "jsonrpc" backend with
    | None => assign "jsonrpc" (JStr "2.0") backend
    | Some _ => backend
    end in
  JObj (assign "id" requestId with_version).

(** The code of a JSON-RPC error response, its [id] and its message. *)
Definition error_code (doc : json) : option json :=
  match getProp doc "error" with
  | inr (Some e) => match getProp e "code" with inr c => c | inl _ => None end
  | _ => None
  end.

Definition error_message (doc : json) : option json :=
  match getProp doc "error" with
  | inr (Some e) => match getProp e "message" with inr c => c | inl _ => None end
  | _ => None
  end.

Definition response_id (doc : json) : option json :=
  match getProp doc "id" with
  | inr i => i
  | inl _ => None
  end.

(** The document is an error response with the given code. *)
Definition code_is (code : float) (doc : json) : bool :=
  match error_code doc with
  | Some (JNum n) => PrimFloat.eqb n code
  | _ => false
  end.

End Relay.

(* ===================================================================== *)
(** ** The authentication context and its cache key (auth-middleware.ts) *)
(* ===================================================================== *)

Module Auth.
Import Js.

(** ['stdio' | 'http']. *)
Inductive TransportType : Type :=
| stdio
| http.

(** [interface AuthenticationContext]; an optional field is [None] when it
    is [undefined]. *)
Record AuthenticationContext : Type := mkContext {
  azureDevOpsOrg : option string;
  mcpServerUrl : option string;
  mcpTransportType : option TransportType
}.

Definition transport_name (t : TransportType) : string :=
  match t with
  | stdio => "stdio"
  | http => "http"
  end.

(** [generateAuthCacheKey(authContext)]. *)
Definition generateAuthCacheKey (authContext : AuthenticationContext) : string :=
  let parts :=
    [ str_or (azureDevOpsOrg authContext) EmptyString;
      match mcpTransportType authContext with
      | Some t => transport_name t
      | None => "stdio"
      end;
      str_or (mcpServerUrl authContext) EmptyString ] in
  String.concat "|" parts.

End Auth.

(* ===================================================================== *)
(** ** The client pool (class MCPClientManager) *)
(* ===================================================================== *)

Module Pool.
Import Js Auth.

(** The identity of a [Client] object: the number of clients constructed
    before it. *)
Definition client_id : Type := nat.

(** A reference to an [MCPClientInstance] object: its index in the heap. *)
Definition ref : Type := nat.

(** [interface MCPTool]. *)
Record MCPTool : Type := mkTool {
  name : string;
  description : option string;
  inputSchema : json
}.

(** The two transports, with what their constructors are given. *)
Inductive Transport : Type :=
| StdioClientTransport (command : string) (args : list string)
                       (env : list (string * string))
| StreamableHTTPClientTransport (url : string)
                                (headers : list (string * string)).

(** [interface MCPClientInstance]; [lastUsed] is the time value of the
    [Date], in milliseconds. *)
Record MCPClientInstance : Type := mkInstance {
  client : client_id;
  transport : Transport;
  tools : list MCPTool;
  isInitialized : bool;
  lastUsed : Z
}.

(** A thrown [Error], by its message. *)
Inductive Error : Type :=
| Err (message : string).

(** What the manager does to the SDK objects, and what its catch handlers
    print.  Informational console output is not recorded. *)
Inductive Event : Type :=
| NewTransport (t : Transport)
| Connect (c : client_id) (t : Transport)
| ListTools (c : client_id)
| CallTool (c : client_id) (tool : string) (arguments : json)
| Close (c : client_id)
| Log (text : string) (error : Error).

(** The surroundings of the manager: the process environment, whether
    [new URL(s)] accepts [s], and how each client's backend answers. *)
Record Env : Type := mkEnv {
  process_env : list (string * string);
  URL_valid : string -> bool;
  connect : client_id -> option Error;
  listTools : client_id -> Error + option (list MCPTool);
  callTool_result : client_id -> string -> json -> Error + json;
  close : client_id -> option Error
}.

(** The manager and the objects it has made: the map [this.clients] in
    insertion order, the instance objects by reference, the number of
    [Client] objects constructed, the wall clock in milliseconds, and the
    trace of events, oldest first. *)
Record State : Type := mkState {
  clients : list (string * ref);
  heap : list MCPClientInstance;
  created : nat;
  clock : Z;
  trace : list Event
}.

(** [new MCPClientManager()] at time [now]. *)
Definition initial (now : Z) : State := mkState [] [] 0 now [].

Definition emit (ev : Event) (s : State) : State :=
  mkState (clients s) (heap s) (created s) (clock s) (trace s ++ [ev]).

(** Time passes. *)
Definition sleep (ms : Z) (s : State) : State :=
  mkState (clients s) (heap s) (created s) (clock s + ms) (trace s).

(** [new Client(...)]. *)
Definition newClient (s : State) : client_id * State :=
  (created s,
   mkState (clients s) (heap s) (S (created s)) (clock s) (trace s)).

(** A new instance object. *)
Definition alloc (i : MCPClientInstance) (s : State) : ref * State :=
  (length (heap s),
   mkState (clients s) (heap s ++ [i]) (created s) (clock s) (trace s)).

(** [this.clients.set(key, r)]. *)
Definition set (key : string) (r : ref) (s : State) : State :=
  mkState (assign key r (clients s)) (heap s) (created s) (clock s) (trace s).

(** [this.clients.delete(key)]. *)
Definition delete (key : string) (s : State) : State :=
  mkState (remove key (clients s)) (heap s) (created s) (clock s) (trace s).

(** [this.clients.clear()]. *)
Definition clear (s : State) : State :=
  mkState [] (heap s) (created s) (clock s) (trace s).

(** [this.clients.get(key)] together with the object it refers to; [None]
    is [undefined]. *)
Definition get (s : State) (key : string) : option (ref * MCPClientInstance) :=
  match assoc key (clients s) with
  | None => None
  | Some r =>
      match nth_error (heap s) r with
      | None => None
      | Some i => Some (r, i)
      end
  end.

(** Replace the element at index [r]. *)
Fixpoint update {A : Type} (r : nat) (x : A) (l : list A) : list A :=
  match l, r with
  | [], _ => []
  | _ :: rest, O => x :: rest
  | y :: rest, S r' => y :: update r' x rest
  end.

(** [clientInstance.lastUsed = new Date()] on the object at [r]. *)
Definition touch (r : ref) (s : State) : State :=
  match nth_error (heap s) r with
  | None => s
  | Some i =>
      mkState (clients s)
        (update r (mkInstance (client i) (transport i) (tools i)
                     (isInitialized i) (clock s)) (heap s))
        (created s) (clock s) (trace s)
  end.

(** A computation of the manager: it ends with a thrown error or a value,
    in a new state. *)
Definition M (A : Type) : Type := State -> (Error + A) * State.

Definition ret {A : Type} (x : A) : M A := fun s => (inr x, s).
Definition throw {A : Type} (e : Error) : M A := fun s => (inl e, s).
Definition bind {A B : Type} (m : M A) (f : A -> M B) : M B :=
  fun s =>
    match m s with
    | (inl e, s') => (inl e, s')
    | (inr x, s') => f x s'
    end.
Definition tell (ev : Event) : M unit := fun s => (inr tt, emit ev s).

Notation "x <- m ;; k" := (bind m (fun x => k))
  (at level 100, m at next level, right associativity).
Notation "m ;;; k" := (bind m (fun _ => k))
  (at level 100, right associativity).

(** What the two [create...Client] methods hand to their common
    connect-and-load block: the label printed in diagnostics, the
    stabilisation delay, the organisation, the client, its transport and
    the cache key. *)
Record Creation : Type := mkCreation {
  label : string;
  stabilize : Z;
  org : string;
  cl : client_id;
  tr : Transport;
  cacheKey : string
}.

(** [toolsResponse.tools || []]. *)
Definition tools_of (toolsResponse : option (list MCPTool)) : list MCPTool :=
  match toolsResponse with
  | Some ts => ts
  | None => []
  end.

Section WithEnv.

Variable E : Env.

(** [loadToolsForClient(client)]. *)
Definition loadToolsForClient (c : client_id) : M (list MCPTool) :=
  tell (ListTools c) ;;;
  match listTools E c with
  | inl error => tell (Log "Failed to load tools:" error) ;;; throw error
  | inr toolsResponse => ret (tools_of toolsResponse)
  end.

(** The [catch] block of the two [create...Client] methods: print, close
    the client ignoring any failure of that, rethrow. *)
Definition cleanUpOnFailure {A : Type} (k : Creation) (error : Error) : M A :=
  tell (Log ("Failed to initialize " ++ label k ++ " MCP client for "
             ++ org k ++ ":") error) ;;;
  tell (Close (cl k)) ;;;
  throw error.

(** The [try] block of the two [create...Client] methods with its [catch]:
    connect, wait, load the tools, build the instance and cache it. *)
Definition connectAndLoad (k : Creation) : M ref :=
  fun s =>
    let s1 := emit (Connect (cl k) (tr k)) s in
    match connect E (cl k) with
    | Some error => cleanUpOnFailure k error s1
    | None =>
        let s2 := sleep (stabilize k) s1 in
        match loadToolsForClient (cl k) s2 with
        | (inl error, s3) => cleanUpOnFailure k error s3
        | (inr ts, s3) =>
            let clientInstance := mkInstance (cl k) (tr k) ts true (clock s3) in
            let (r, s4) := alloc clientInstance s3 in
            (inr r, set (cacheKey k) r s4)
        end
    end.

(** [authContext.azureDevOpsOrg!] where the caller has checked it. *)
Definition org_of (authContext : AuthenticationContext) : string :=
  str_or (azureDevOpsOrg authContext) EmptyString.

(** What [createHttpClient] builds before its [try], or the error it throws
    there. *)
Definition prepareHttp (authContext : AuthenticationContext) (key : string)
  : M Creation :=
  fun s =>
    match mcpServerUrl authContext with
    | Some (String a u) =>
        let url := String a u in
        if URL_valid E url then
          let t := StreamableHTTPClientTransport url
                     [("X-Azure-DevOps-Org", org_of authContext)] in
          let s1 := emit (NewTransport t) s in
          let (c, s2) := newClient s1 in
          (inr (mkCreation "HTTP" 1000 (org_of authContext) c t key), s2)
        else (inl (Err "Invalid URL"), s)
    | _ => (inl (Err "MCP server URL is required for HTTP transport"), s)
    end.

(** [createHttpClient(authContext, cacheKey)]. *)
Definition createHttpClient (authContext : AuthenticationContext)
  (key : string) : M ref :=
  k <- prepareHttp authContext key ;; connectAndLoad k.

(** The argument vector of the spawned server. *)
Definition stdioArgs (authContext : AuthenticationContext) : list string :=
  let args := ["-y"; "-p"; "@azure-devops/mcp"; "mcp-server-azuredevops";
               org_of authContext] in
  let domains :=
    match assoc "MCP_DOMAINS" (process_env E) with
    | None => None
    | Some d =>
        Some (filter (fun x => negb (is_empty x))
                (map trim (split (ascii_of_nat 44) d)))
    end in
  match domains with
  | Some (d :: ds) => args ++ "-d" :: d :: ds
  | _ => args
  end.

(** The environment of the spawned server. *)
Definition stdioEnvironment (authContext : AuthenticationContext)
  : list (string * string) :=
  let environment :=
    assign "NPM_CONFIG_AUDIT" "false"
      (assign "NPM_CONFIG_FUND" "false"
         (assign "NPM_CONFIG_UPDATE_NOTIFIER" "false" (process_env E))) in
  match assoc "AZURE_DEVOPS_TOKEN" (process_env E) with
  | Some (String a t) =>
      if truthy_str (azureDevOpsOrg authContext) then
        assign "AZURE_DEVOPS_ORG" (org_of authContext)
          (assign "AZURE_DEVOPS_TOKEN" (String a t) environment)
      else environment
  | _ => environment
  end.

(** What [createStdioClient] builds before its [try]. *)
Definition prepareStdio (authContext : AuthenticationContext) (key : string)
  : M Creation :=
  fun s =>
    let t := StdioClientTransport "npx" (stdioArgs authContext)
               (stdioEnvironment authContext) in
    let s1 := emit (NewTransport t) s in
    let (c, s2) := newClient s1 in
    (inr (mkCreation "STDIO" 2000 (org_of authContext) c t key), s2).

(** [createStdioClient(authContext, cacheKey)]. *)
Definition createStdioClient (authContext : AuthenticationContext)
  (key : string) : M ref :=
  k <- prepareStdio authContext key ;; connectAndLoad k.

(** What the [create...Client] method chosen by [getOrCreateClient] does
    before its [try]. *)
Definition prepare (authContext : AuthenticationContext) (key : string)
  : M Creation :=
  match mcpTransportType authContext with
  | Some http => prepareHttp authContext key
  | _ => prepareStdio authContext key
  end.

(** The instance [getOrCreateClient] answers with from the cache: the one
    under [key], if it is initialised. *)
Definition cached (s : State) (key : string) : option ref :=
  match get s key with
  | Some (r, clientInstance) =>
      if isInitialized clientInstance then Some r else None
  | None => None
  end.

(** [getOrCreateClient(authContext)], run without interleaving. *)
Definition getOrCreateClient (authContext : AuthenticationContext) : M ref :=
  fun s =>
    if negb (truthy_str (azureDevOpsOrg authContext)) then
      (inl (Err "Missing required Azure DevOps organization"), s)
    else
      let key := generateAuthCacheKey authContext in
      match cached s key with
      | Some r => (inr r, touch r s)
      | None =>
          match mcpTransportType authContext with
          | Some http => createHttpClient authContext key s
          | _ => createStdioClient authContext key s
          end
      end.

(** The message [callTool] throws when it is given no context. *)
Definition contextRequired : string :=
  "Authentication context is required - ensure AZURE_DEVOPS_ORG environment variable is set and Azure CLI is authenticated".

(** [arguments_ || {}]. *)
Definition argumentsOrEmpty (arguments_ : option json) : json :=
  match arguments_ with
  | Some a => if truthy a then a else JObj []
  | None => JObj []
  end.

(** [callTool(name, arguments_, authContext)].  The reference returned by
    [getOrCreateClient] always points to an object; the branch for a
    dangling one is never taken. *)
Definition callTool (tool : string) (arguments_ : option json)
  (authContext : option AuthenticationContext) : M json :=
  match authContext with
  | None => throw (Err contextRequired)
  | Some ctx =>
      r <- getOrCreateClient ctx ;;
      fun s =>
        match nth_error (heap s) r with
        | None => (inl (Err "no such instance"), s)
        | Some clientInstance =>
            let arguments := argumentsOrEmpty arguments_ in
            let c := client clientInstance in
            (callTool_result E c tool arguments,
             emit (CallTool c tool arguments) s)
        end
  end.

(** [getTools(authContext)]. *)
Definition getTools (authContext : option AuthenticationContext) (s : State)
  : list MCPTool :=
  match authContext with
  | Some ctx =>
      match get s (generateAuthCacheKey ctx) with
      | Some (_, clientInstance) => tools clientInstance
      | None => []
      end
  | None => []
  end.

(** [getTool(name, authContext)]. *)
Definition getTool (tool : string) (authContext : option AuthenticationContext)
  (s : State) : option MCPTool :=
  find (fun t => String.eqb (name t) tool) (getTools authContext s).

(** [isReady(authContext)]. *)
Definition isReady (authContext : option AuthenticationContext) (s : State)
  : bool :=
  match authContext with
  | Some ctx =>
      match get s (generateAuthCacheKey ctx) with
      | Some (_, clientInstance) => isInitialized clientInstance
      | None => false
      end
  | None => false
  end.

(** [await clientInstance.client.close()] inside a [try] whose handler
    prints [text] and the error. *)
Definition closeLogging (text : string) (c : client_id) (s : State) : State :=
  let s1 := emit (Close c) s in
  match close E c with
  | Some error => emit (Log text error) s1
  | None => s1
  end.

(** The loop of [cleanup()] over the entries of the map. *)
Fixpoint closeEach (entries : list (string * ref)) (s : State) : State :=
  match entries with
  | [] => s
  | (key, r) :: rest =>
      match nth_error (heap s) r with
      | Some clientInstance =>
          closeEach rest
            (closeLogging ("Cleanup error for client " ++ key ++ ":")
               (client clientInstance) s)
      | None => closeEach rest s
      end
  end.

(** [cleanup()]. *)
Definition cleanup (s : State) : State :=
  clear (closeEach (clients s) s).

(** The largest time value of a valid [Date]. *)
Definition maxTime : Z := 8640000000000000.

(** [new Date(t)] for an integral [t]: [None] is an invalid date. *)
Definition mkDate (t : Z) : option Z :=
  if (Z.abs t <=? maxTime)%Z then Some t else None.

(** [a < b] between the date with time value [a] and the date [b]; a
    comparison with an invalid date is false. *)
Definition date_lt (a : Z) (b : option Z) : bool :=
  match b with
  | Some t => (a <? t)%Z
  | None => false
  end.

(** The first loop of [cleanupUnusedClients]: collect the keys of the
    instances last used before [cutoffTime], closing each one. *)
Fixpoint sweep (cutoffTime : option Z) (entries : list (string * ref))
  (keysToRemove : list string) (s : State) : list string * State :=
  match entries with
  | [] => (keysToRemove, s)
  | (key, r) :: rest =>
      match nth_error (heap s) r with
      | Some clientInstance =>
          if date_lt (lastUsed clientInstance) cutoffTime then
            sweep cutoffTime rest (keysToRemove ++ [key])
              (closeLogging ("Error closing unused client " ++ key ++ ":")
                 (client clientInstance) s)
          else sweep cutoffTime rest keysToRemove s
      | None => sweep cutoffTime rest keysToRemove s
      end
  end.

(** [cleanupUnusedClients(maxAgeMinutes = 30)] for a whole number of
    minutes. *)
Definition cleanupUnusedClients (maxAgeMinutes : option Z) (s : State) : State :=
  let minutes := match maxAgeMinutes with Some m => m | None => 30%Z end in
  let cutoffTime := mkDate (clock s - minutes * 60 * 1000) in
  let (keysToRemove, s1) := sweep cutoffTime (clients s) [] s in
  fold_left (fun st key => delete key st) keysToRemove s1.

(** *** Calls in flight

    [getOrCreateClient] is an [async] method: it runs without interruption
    up to each [await] and may be overtaken there by other calls.  A task is
    a call between two of its suspension points. *)
Inductive Task : Type :=
| Called (authContext : AuthenticationContext)
| Connecting (k : Creation)
| Stabilizing (k : Creation)
| LoadingTools (k : Creation)
| Closing (error : Error)
| Settled (result : Error + ref).

(** One task runs from where it is suspended up to its next [await].  The
    timer of [Stabilizing] fires once the clock has advanced by the delay. *)
Definition step (t : Task) (s : State) : Task * State :=
  match t with
  | Called authContext =>
      if negb (truthy_str (azureDevOpsOrg authContext)) then
        (Settled (inl (Err "Missing required Azure DevOps organization")), s)
      else
        let key := generateAuthCacheKey authContext in
        match cached s key with
        | Some r => (Settled (inr r), touch r s)
        | None =>
            match prepare authContext key s with
            | (inl error, s1) => (Settled (inl error), s1)
            | (inr k, s1) => (Connecting k, emit (Connect (cl k) (tr k)) s1)
            end
        end
  | Connecting k =>
      match connect E (cl k) with
      | Some error => (Closing error, snd (@cleanUpOnFailure ref k error s))
      | None => (Stabilizing k, s)
      end
  | Stabilizing k =>
      (LoadingTools k, emit (ListTools (cl k)) (sleep (stabilize k) s))
  | LoadingTools k =>
      match listTools E (cl k) with
      | inl error =>
          (Closing error,
           snd (@cleanUpOnFailure ref k error
                  (emit (Log "Failed to load tools:" error) s)))
      | inr toolsResponse =>
          let clientInstance :=
            mkInstance (cl k) (tr k) (tools_of toolsResponse) true (clock s) in
          let (r, s1) := alloc clientInstance s in
          (Settled (inr r), set (cacheKey k) r s1)
      end
  | Closing error => (Settled (inl error), s)
  | Settled result => (Settled result, s)
  end.

(** A task run alone for at most [n] steps. *)
Fixpoint complete (n : nat) (t : Task) (s : State) : Task * State :=
  match n with
  | O => (t, s)
  | S n' => let (t', s') := step t s in complete n' t' s'
  end.

(** Several calls in flight: [schedule] names, step by step, the task that
    runs next. *)
Fixpoint run (schedule : list nat) (tasks : list Task) (s : State)
  : list Task * State :=
  match schedule with
  | [] => (tasks, s)
  | i :: rest =>
      match nth_error tasks i with
      | None => run rest tasks s
      | Some t => let (t', s') := step t s in run rest (update i t' tasks) s'
      end
  end.

(** The context passes the checks [getOrCreateClient] and
    [createHttpClient] make before a client is constructed. *)
Definition validated (authContext : AuthenticationContext) : bool :=
  truthy_str (azureDevOpsOrg authContext)
  && match mcpTransportType authContext with
     | Some http =>
         match mcpServerUrl authContext with
         | Some (String a u) => URL_valid E (String a u)
         | _ => false
         end
     | _ => true
     end.

(** The creation was prepared by a call whose context passed the checks. *)
Definition made_for (k : Creation) : Prop :=
  exists authContext,
    validated authContext = true
    /\ cacheKey k = generateAuthCacheKey authContext.

(** A task as calls produce them: it has just been called, or it carries a
    creation prepared by a call. *)
Definition in_flight (t : Task) : Prop :=
  match t with
  | Connecting k | Stabilizing k | LoadingTools k => made_for k
  | _ => True
  end.

(** The states the manager can be in: it starts empty, time passes, calls
    in flight advance in any order, and the other methods run. *)
Inductive reachable : State -> Prop :=
| reach_initial now : reachable (initial now)
| reach_sleep ms s : reachable s -> reachable (sleep ms s)
| reach_step t s :
    in_flight t -> reachable s -> reachable (snd (step t s))
| reach_getOrCreateClient authContext s :
    reachable s -> reachable (snd (getOrCreateClient authContext s))
| reach_callTool tool arguments_ authContext s :
    reachable s -> reachable (snd (callTool tool arguments_ authContext s))
| reach_cleanupUnusedClients maxAgeMinutes s :
    reachable s -> reachable (cleanupUnusedClients maxAgeMinutes s)
| reach_cleanup s : reachable s -> reachable (cleanup s).

End WithEnv.

(** The [connect] calls in a trace. *)
Definition connects (tr : list Event) : list client_id :=
  flat_map (fun ev => match ev with Connect c _ => [c] | _ => [] end) tr.

(** The [listTools] calls in a trace. *)
Definition catalogFetches (tr : list Event) : list client_id :=
  flat_map (fun ev => match ev with ListTools c => [c] | _ => [] end) tr.

(** The clients a trace closes. *)
Definition closes (tr : list Event) : list client_id :=
  flat_map (fun ev => match ev with Close c => [c] | _ => [] end) tr.

(** The keys of the map. *)
Definition keys (s : State) : list string := map fst (clients s).

(** *** Vocabulary of the statements *)

(** Every entry of the map refers to an initialised instance object.  The
    manager only ever stores such entries. *)
Definition entries_ready (s : State) : Prop :=
  forall key r, assoc key (clients s) = Some r ->
    exists i, nth_error (heap s) r = Some i /\ isInitialized i = true.

(** No key occurs twice in the map. *)
Definition keys_unique (s : State) : Prop := NoDup (keys s).

(** Every key of the map is the cache key of a context that passes the
    checks. *)
Definition keys_validated (E : Env) (s : State) : Prop :=
  forall key, In key (keys s) ->
    exists authContext,
      validated E authContext = true
      /\ key = generateAuthCacheKey authContext.

(** The string contains no separator [|]. *)
Fixpoint no_bar (s : string) : bool :=
  match s with
  | EmptyString => true
  | String c r => negb (Ascii.eqb c "|"%char) && no_bar r
  end.

(** What holds of the map in every state the manager can reach. *)
Definition invariant (s : State) : Prop := entries_ready s /\ keys_unique s.

(** A call with [authContext] in state [s] gets past the checks and the
    cache, and builds a transport and a client. *)
Definition enters_creation (E : Env) (authContext : AuthenticationContext)
  (s : State) : bool :=
  truthy_str (azureDevOpsOrg authContext)
  && match cached s (generateAuthCacheKey authContext) with
     | Some _ => false
     | None => true
     end
  && match mcpTransportType authContext with
     | Some http =>
         match mcpServerUrl authContext with
         | Some (String a u) => URL_valid E (String a u)
         | _ => false
         end
     | _ => true
     end.

(** The first step of the creation of client [c] that fails, with its
    error: the connection (which includes the handshake), or else the
    fetch of the tool catalogue.  The stabilisation delay cannot fail. *)
Definition creation_failure (E : Env) (c : client_id) : option Error :=
  match connect E c with
  | Some error => Some error
  | None =>
      match listTools E c with
      | inl error => Some error
      | inr _ => None
      end
  end.

(** A time value within the range of [Date]. *)
Definition valid_time (t : Z) : Prop := (Z.abs t <= maxTime)%Z.

(** The clock and the timestamps of the instance objects are valid
    dates. *)
Definition times_valid (s : State) : Prop :=
  valid_time (clock s) /\ Forall (fun i => valid_time (lastUsed i)) (heap s).

(** The instance an entry of the map refers to was last used before
    [cutoff]. *)
Definition idle_since (h : list MCPClientInstance) (cutoff : Z)
  (entry : string * ref) : bool :=
  match nth_error h (snd entry) with
  | Some i => (lastUsed i <? cutoff)%Z
  | None => false
  end.

(** The client of the instance an entry of the map refers to. *)
Definition client_of (h : list MCPClientInstance) (entry : string * ref)
  : list client_id :=
  match nth_error h (snd entry) with
  | Some i => [client i]
  | None => []
  end.

End Pool.

(* ===================================================================== *)
(** ** The stdin handler of the proxy script, loop by loop *)
(* ===================================================================== *)

Module Stdin.
Import Js Relay.

(** [s.indexOf(c)] for a one-character [c]; [None] is [-1]. *)
Fixpoint indexOf (c : ascii) (s : string) : option nat :=
  match s with
  | EmptyString => None
  | String a r =>
      if Ascii.eqb a c then Some 0
      else match indexOf c r with
           | Some i => Some (S i)
           | None => None
           end
  end.

(** [s.slice(0, n)]. *)
Fixpoint sliceTo (n : nat) (s : string) : string :=
  match n, s with
  | S n', String a r => String a (sliceTo n' r)
  | _, _ => EmptyString
  end.

(** [s.slice(n)]. *)
Fixpoint sliceFrom (n : nat) (s : string) : string :=
  match n, s with
  | S n', String _ r => sliceFrom n' r
  | _, _ => s
  end.

(** The [while] loop of the [data] handler, for at most [fuel] rounds: the
    texts handed to [processMessage], in order, and the buffer left. *)
Fixpoint drain (fuel : nat) (messageBuffer : string) : list string * string :=
  match fuel with
  | O => ([], messageBuffer)
  | S fuel' =>
      match indexOf newline messageBuffer with
      | None => ([], messageBuffer)
      | Some newlineIndex =>
          let messageText := trim (sliceTo newlineIndex messageBuffer) in
          let (texts, rest) :=
            drain fuel' (sliceFrom (newlineIndex + 1) messageBuffer) in
          (if is_empty messageText then texts else messageText :: texts, rest)
      end
  end.

(** The [data] handler: append the chunk, then loop.  Every round removes
    at least the newline it found, so the length of the buffer bounds the
    number of rounds. *)
Definition handleData (messageBuffer data : string) : list string * string :=
  let buffer := messageBuffer ++ data in
  drain (String.length buffer) buffer.

(** The handler fed a sequence of chunks, starting from [messageBuffer]. *)
Fixpoint handleChunks (messageBuffer : string) (chunks : list string)
  : list string * string :=
  match chunks with
  | [] => ([], messageBuffer)
  | data :: rest =>
      let (texts, buffer) := handleData messageBuffer data in
      let (texts', buffer') := handleChunks buffer rest in
      ((texts ++ texts')%list, buffer')
  end.

(** No character of the string is [c]. *)
Fixpoint free_of (c : ascii) (s : string) : bool :=
  match s with
  | EmptyString => true
  | String a r => negb (Ascii.eqb a c) && free_of c r
  end.

(** The first and the last character of a string. *)
Definition first_char (s : string) : option ascii :=
  match s with
  | EmptyString => None
  | String a _ => Some a
  end.

Fixpoint last_char (s : string) : option ascii :=
  match s with
  | EmptyString => None
  | String a EmptyString => Some a
  | String _ r => last_char r
  end.

(** What every text handed to [processMessage] looks like: it is not
    empty, it neither starts nor ends with white space, and it holds no
    newline. *)
Definition framed (t : string) : Prop :=
  is_empty t = false
  /\ (forall a, first_char t = Some a -> is_space a = false)
  /\ (forall a, last_char t = Some a -> is_space a = false)
  /\ free_of newline t = true.

End Stdin.

(* ===================================================================== *)
(** ** The two middlewares of auth-middleware.ts *)
(* ===================================================================== *)

Module Middleware.
Import Js Auth.

(** [req.headers]: the header names in lower case, each with its value. *)
Definition Headers : Type := list (string * string).

(** [a || b] for two possibly [undefined] strings. *)
Definition or_else (a b : option string) : option string :=
  if truthy_str a then a else b.

(** The object the first middleware attaches to the request.  The headers
    are cast, not checked, so the transport type is whatever text the
    header carried. *)
Record RequestContext : Type := mkRequestContext {
  organization : option string;
  serverUrl : option string;
  transportType : string
}.

(** [extractAuthenticationMiddleware(req, res, next)]: the context it
    attaches before it calls [next()]. *)
Definition extractAuthenticationMiddleware
  (process_env : list (string * string)) (headers : Headers)
  : RequestContext :=
  mkRequestContext
    (assoc "AZURE_DEVOPS_ORG" process_env)
    (or_else (assoc "x-mcp-server-url" headers)
       (assoc "mcp-server-url" headers))
    (str_or (or_else (assoc "x-mcp-transport-type" headers)
               (assoc "mcp-transport-type" headers))
       "stdio").

(** What the second middleware does: it calls [next()], or it answers with
    a status and an error object whose [message] and [statusCode] are
    given here (the object also carries a timestamp). *)
Inductive Verdict : Type :=
| Next
| Reject (statusCode : Z) (message : string).

(** [validateAuthenticationMiddleware(req, res, next)]. *)
Definition validateAuthenticationMiddleware
  (authContext : option RequestContext) : Verdict :=
  let missing :=
    Reject 401
      "Missing Azure DevOps organization. Set AZURE_DEVOPS_ORG environment variable and ensure Azure CLI is authenticated (az login)" in
  match authContext with
  | None => missing
  | Some ctx =>
      if negb (truthy_str (organization ctx)) then missing
      else if (String.eqb (transportType ctx) "http"
               && negb (truthy_str (serverUrl ctx)))%bool then
        Reject 400
          "MCP server URL is required when using HTTP transport. Provide header: X-MCP-Server-Url"
      else Next
  end.

(** The context as [interface AuthenticationContext] declares it, when the
    transport type is one of the two declared values. *)
Definition declared (ctx : RequestContext) : option AuthenticationContext :=
  if String.eqb (transportType ctx) "stdio" then
    Some (mkContext (organization ctx) (serverUrl ctx) (Some stdio))
  else if String.eqb (transportType ctx) "http" then
    Some (mkContext (organization ctx) (serverUrl ctx) (Some http))
  else None.

End Middleware.

(* ===================================================================== *)
(** ** The routes of the server (class Server) *)
(* ===================================================================== *)

Module Server.
Import Js Auth Pool.

(** The routes that use the manager, each as a function of the context the
    first middleware attached, of the parameters and the body of the
    request, and of the state of the manager.  A route is run to its end
    without another request in between, as [getOrCreateClient] is in
    module [Pool]. *)

(** What a route answers: the status and the document given to
    [res.json]. *)
Record Response : Type := mkResponse {
  statusCode : Z;
  payload : json
}.

(** [res.json(body)] without [res.status]. *)
Definition ok (body : json) : Response := mkResponse 200 body.

(** An object literal as [res.json] serialises it: a property whose value
    is [undefined] is left out. *)
Definition object (props : list (string * option json)) : json :=
  JObj (flat_map (fun p => match snd p with
                           | Some v => [(fst p, v)]
                           | None => []
                           end) props).

(** [{ error: message }]. *)
Definition errorBody (message : string) : json := JObj [("error", JStr message)].

(** The length of an array, as a number. *)
Definition number (n : nat) : json :=
  JNum (PrimFloat.of_uint63 (Uint63.of_Z (Z.of_nat n))).

(** An [MCPTool] as it is serialised. *)
Definition toolDocument (t : MCPTool) : json :=
  object [("name", Some (JStr (name t)));
          ("description", option_map JStr (description t));
          ("inputSchema", Some (inputSchema t))].

(** A destructured property of a value that is neither [undefined] nor
    [null]; none of the names the routes destructure is defined by a
    built-in prototype. *)
Definition field (v : json) (k : string) : option json :=
  match v with
  | JObj props => assoc k props
  | _ => None
  end.

(** [v || d]. *)
Definition orDefault (v : option json) (d : json) : json :=
  match v with
  | Some x => if truthy x then x else d
  | None => d
  end.

(** [v === text]. *)
Definition is_text (text : string) (v : option json) : bool :=
  match v with
  | Some (JStr s) => String.eqb s text
  | _ => false
  end.

(** The message of V8's [TypeError] for a property access on
    [undefined]. *)
Definition undefined_read (k : string) : string :=
  "Cannot read properties of undefined (reading '" ++ k ++ "')".

(** The double-quote character. *)
Definition doubleQuote : string := String (ascii_of_nat 34) EmptyString.

Definition missingOrganization : string :=
  "Missing Azure DevOps organization. Set AZURE_DEVOPS_ORG environment variable and ensure Azure CLI is authenticated (az login)".

(** [authContext?.azureDevOpsOrg], when it is truthy, with the context. *)
Definition hasOrganization (authContext : option AuthenticationContext)
  : option (AuthenticationContext * string) :=
  match authContext with
  | Some ctx =>
      match azureDevOpsOrg ctx with
      | Some (String a o) => Some (ctx, String a o)
      | _ => None
      end
  | None => None
  end.

(** [{ jsonrpc: '2.0', id, error: { code, message } }]. *)
Definition rpcError (id : option json) (code : float) (message : string)
  : json :=
  object [("jsonrpc", Some (JStr "2.0"));
          ("id", id);
          ("error", Some (JObj [("code", JNum code);
                                ("message", JStr message)]))].

(** [{ jsonrpc: '2.0', id, result }]. *)
Definition rpcResult (id : option json) (result : json) : json :=
  object [("jsonrpc", Some (JStr "2.0")); ("id", id); ("result", Some result)].

(** The result of [initialize]. *)
Definition initializeResult : json :=
  JObj [("protocolVersion", JStr "2024-11-05");
        ("capabilities", JObj [("tools", JObj [])]);
        ("serverInfo", JObj [("name", JStr "azure-devops-mcp-rest-wrapper");
                             ("version", JStr "1.0.0")])].

Section WithServer.

Variable E : Env.

(** [Number.prototype.toString]. *)
Variable number_text : float -> string.

(** The message of the [TypeError] thrown when the expression [source],
    whose value is [undefined] or [null], is destructured for
    [property]. *)
Variable cannotDestructure : string -> string -> option json -> string.

(** [String(v)], as a template literal applies it; [inl] is the message of
    a thrown [TypeError].  An object is converted by
    [Object.prototype.toString] unless it has a property [toString] of its
    own: no value out of [JSON.parse] is callable, and the inherited
    [valueOf] returns the object itself, so the conversion then throws.
    An array joins the conversions of its elements, [null] counting as
    the empty string. *)
Fixpoint toString (v : json) : string + string :=
  match v with
  | JNull => inr "null"
  | JBool true => inr "true"
  | JBool false => inr "false"
  | JNum n => inr (number_text n)
  | JStr s => inr s
  | JArr items =>
      let join :=
        fix join (l : list json) : string + list string :=
          match l with
          | [] => inr []
          | x :: rest =>
              match match x with
                    | JNull => inr EmptyString
                    | _ => toString x
                    end with
              | inl typeError => inl typeError
              | inr text =>
                  match join rest with
                  | inl typeError => inl typeError
                  | inr texts => inr (text :: texts)
                  end
              end
          end in
      match join items with
      | inl typeError => inl typeError
      | inr texts => inr (String.concat "," texts)
      end
  | JObj props =>
      match assoc "toString" props with
      | Some _ => inl "Cannot convert object to primitive value"
      | None => inr "[object Object]"
      end
  end.

(** [`${v}`] for a possibly [undefined] value. *)
Definition template (v : option json) : string + string :=
  match v with
  | None => inr "undefined"
  | Some x => toString x
  end.

(** What the four REST routes share: the check of the organisation, the
    call of [getOrCreateClient], the check of [isReady], and the outer
    [catch]; [rest] is the remainder of the [try] block. *)
Definition withClient (authContext : option AuthenticationContext)
  (rest : AuthenticationContext -> string -> M Response)
  : State -> Response * State :=
  fun s =>
    match hasOrganization authContext with
    | None => (mkResponse 401 (errorBody missingOrganization), s)
    | Some (ctx, organization) =>
        let attempt :=
          match getOrCreateClient E ctx s with
          | (inl error, s1) => (inl error, s1)
          | (inr _, s1) =>
              if negb (isReady (Some ctx) s1) then
                (inr (mkResponse 503 (errorBody "MCP client not ready")), s1)
              else rest ctx organization s1
          end in
        match attempt with
        | (inl (Err message), s') => (mkResponse 500 (errorBody message), s')
        | (inr response, s') => (response, s')
        end
    end.

(** [GET /api/tools]. *)
Definition toolsCountRoute (authContext : option AuthenticationContext)
  : State -> Response * State :=
  withClient authContext (fun ctx organization s =>
    let tools := getTools (Some ctx) s in
    (inr (ok (JObj [("toolsCount", number (length tools));
                    ("organization", JStr organization);
                    ("message",
                     JStr "Use /api/tools/list to get full tools list")])),
     s)).

(** [GET /api/tools/list]. *)
Definition toolsListRoute (authContext : option AuthenticationContext)
  : State -> Response * State :=
  withClient authContext (fun ctx organization s =>
    let tools := getTools (Some ctx) s in
    (inr (ok (JObj [("tools", JArr (map toolDocument tools));
                    ("organization", JStr organization)])),
     s)).

(** [POST /api/tools/:toolName/call]; [body] is [req.body], [None] when it
    is [undefined]. *)
Definition callRoute (authContext : option AuthenticationContext)
  (toolName : string) (body : option json) : State -> Response * State :=
  withClient authContext (fun ctx organization s =>
    match body with
    | None | Some JNull =>
        (inl (Err (cannotDestructure "req.body" "arguments" body)), s)
    | Some b =>
        let args := field b "arguments" in
        match getTool toolName (Some ctx) s with
        | None =>
            (inr (mkResponse 404
                    (errorBody ("Tool '" ++ toolName ++ "' not found"))), s)
        | Some _ =>
            match callTool E toolName (Some (argumentsOrEmpty args))
                    (Some ctx) s with
            | (inl error, s1) => (inl error, s1)
            | (inr result, s1) =>
                (inr (ok (JObj [("success", JBool true);
                                ("data", result);
                                ("organization", JStr organization)])), s1)
            end
        end
    end).

(** [this.mcpClient.getTool(name, authContext)] for a [name] taken from a
    request: only a string can equal the name of a tool. *)
Definition findTool (name : option json) (ctx : AuthenticationContext)
  (s : State) : option string :=
  match name with
  | Some (JStr n) =>
      match getTool n (Some ctx) s with
      | Some _ => Some n
      | None => None
      end
  | _ => None
  end.

(** The loop of the batch route over the elements of [tools], with the
    [try] and [catch] inside it.  The handler reads [toolCall.name], which
    throws again when the element is [null]: that error leaves the loop.
    The message for an unknown tool is built inside the [try], so a name
    that cannot be converted to text is a failure of its item. *)
Fixpoint batchLoop (ctx : AuthenticationContext) (tools : list json)
  (results : list json) (s : State) : (Error + list json) * State :=
  match tools with
  | [] => (inr results, s)
  | toolCall :: rest =>
      let catch (message : string) (s' : State) :=
        match getProp toolCall "name" with
        | inl typeError => (inl (Err typeError), s')
        | inr toolName =>
            batchLoop ctx rest
              (results ++ [object [("toolName", toolName);
                                   ("success", Some (JBool false));
                                   ("error", Some (JStr message))]]) s'
        end in
      match toolCall with
      | JNull => catch (cannotDestructure "toolCall" "name" (Some JNull)) s
      | _ =>
          let name := field toolCall "name" in
          let args := field toolCall "arguments" in
          match findTool name ctx s with
          | None =>
              match template name with
              | inl typeError => catch typeError s
              | inr text =>
                  batchLoop ctx rest
                    (results ++ [object [("toolName", name);
                                         ("success", Some (JBool false));
                                         ("error",
                                          Some (JStr ("Tool '" ++ text
                                                      ++ "' not found")))]])
                    s
              end
          | Some n =>
              match callTool E n (Some (argumentsOrEmpty args)) (Some ctx) s
              with
              | (inl (Err message), s1) => catch message s1
              | (inr result, s1) =>
                  batchLoop ctx rest
                    (results ++ [object [("toolName", name);
                                         ("success", Some (JBool true));
                                         ("data", Some result)]]) s1
              end
          end
      end
  end.

(** [POST /api/tools/batch]. *)
Definition batchRoute (authContext : option AuthenticationContext)
  (body : option json) : State -> Response * State :=
  withClient authContext (fun ctx organization s =>
    match body with
    | None | Some JNull =>
        (inl (Err (cannotDestructure "req.body" "tools" body)), s)
    | Some b =>
        match field b "tools" with
        | Some (JArr tools) =>
            match batchLoop ctx tools [] s with
            | (inl error, s1) => (inl error, s1)
            | (inr results, s1) =>
                (inr (ok (JObj [("success", JBool true);
                                ("results", JArr results);
                                ("organization", JStr organization)])), s1)
            end
        | _ =>
            (inr (mkResponse 400
                    (errorBody ("Request body must contain a " ++ doubleQuote
                                ++ "tools" ++ doubleQuote ++ " array"))), s)
        end
    end).

(** [{ azureDevOpsOrg: process.env.AZURE_DEVOPS_ORG,
       mcpTransportType: 'stdio' }]. *)
Definition environmentContext : AuthenticationContext :=
  mkContext (assoc "AZURE_DEVOPS_ORG" (process_env E)) None (Some stdio).

(** The message of the JSON-RPC methods for a missing organisation. *)
Definition missingOrganizationRpc : string :=
  "Missing Azure DevOps organization. Set AZURE_DEVOPS_ORG environment variable and ensure Azure CLI is authenticated (az login).".

(** What [tools/list] and [tools/call] share: the context of the request
    or else the one of the environment, the check of the organisation, the
    call of [getOrCreateClient], the check of [isReady], and the [catch];
    [rest] is the remainder of the [try] block. *)
Definition rpcWithClient (authContext : option AuthenticationContext)
  (id : option json) (rest : AuthenticationContext -> M Response)
  : State -> Response * State :=
  fun s =>
    let authContext' :=
      match hasOrganization authContext with
      | Some _ => authContext
      | None => Some environmentContext
      end in
    match hasOrganization authContext' with
    | None => (ok (rpcError id (-32603) missingOrganizationRpc), s)
    | Some (ctx, _) =>
        let attempt :=
          match getOrCreateClient E ctx s with
          | (inl error, s1) => (inl error, s1)
          | (inr _, s1) =>
              if negb (isReady (Some ctx) s1) then
                (inr (ok (rpcError id (-32603) "MCP client not ready")), s1)
              else rest ctx s1
          end in
        match attempt with
        | (inl (Err message), s') => (ok (rpcError id (-32603) message), s')
        | (inr response, s') => (response, s')
        end
    end.

(** The case [initialize] of the JSON-RPC route. *)
Definition initializeCase (id : option json) : State -> Response * State :=
  fun s =>
    if truthy_str (azureDevOpsOrg environmentContext) then
      match getOrCreateClient E environmentContext s with
      | (inl (Err message), s1) =>
          (ok (rpcError id (-32603) ("Initialization failed: " ++ message)),
           s1)
      | (inr _, s1) => (ok (rpcResult id initializeResult), s1)
      end
    else (ok (rpcResult id initializeResult), s).

(** The case [tools/list]. *)
Definition toolsListCase (authContext : option AuthenticationContext)
  (id : option json) : State -> Response * State :=
  rpcWithClient authContext id (fun ctx s =>
    let tools := getTools (Some ctx) s in
    (inr (ok (rpcResult id
                (JObj [("tools", JArr (map toolDocument tools))]))), s)).

(** The case [tools/call]. *)
Definition toolsCallCase (authContext : option AuthenticationContext)
  (id params : option json) : State -> Response * State :=
  rpcWithClient authContext id (fun ctx s =>
    match params with
    | None | Some JNull =>
        (inl (Err (cannotDestructure "params" "name" params)), s)
    | Some p =>
        let name := field p "name" in
        let args := field p "arguments" in
        match findTool name ctx s with
        | None =>
            match template name with
            | inl typeError => (inl (Err typeError), s)
            | inr text =>
                (inr (ok (rpcError id (-32602)
                            ("Tool '" ++ text ++ "' not found"))), s)
            end
        | Some n =>
            match callTool E n (Some (argumentsOrEmpty args)) (Some ctx) s
            with
            | (inl error, s1) => (inl error, s1)
            | (inr result, s1) =>
                match getProp result "content", getProp result "isError" with
                | inl typeError, _ => (inl (Err typeError), s1)
                | _, inl typeError => (inl (Err typeError), s1)
                | inr content, inr isError =>
                    (inr (ok (rpcResult id
                                (JObj [("content",
                                        orDefault content (JArr []));
                                       ("isError",
                                        orDefault isError (JBool false))]))),
                     s1)
                end
            end
        end
    end).

(** [POST /api/mcp].  [inl] is an error that leaves the handler: when
    [req.body] is [undefined] or [null] the destructuring throws, and so
    does [req.body.id] in the outer [catch].  The only other statement
    outside the inner [try] blocks that can throw is the template literal
    of the [default] case; the outer [catch] then answers with [Parse
    error]. *)
Definition mcpRoute (authContext : option AuthenticationContext)
  (body : option json) : State -> (string + Response) * State :=
  fun s =>
    match body with
    | None => (inl (undefined_read "id"), s)
    | Some JNull => (inl (null_read "id"), s)
    | Some b =>
        let jsonrpc := field b "jsonrpc" in
        let method := field b "method" in
        let params := field b "params" in
        let id := field b "id" in
        let (response, s') :=
          if negb (is_text "2.0" jsonrpc) then
            (ok (rpcError id (-32600) "Invalid Request - jsonrpc must be 2.0"),
             s)
          else if is_text "initialize" method then initializeCase id s
          else if is_text "tools/list" method then
            toolsListCase authContext id s
          else if is_text "tools/call" method then
            toolsCallCase authContext id params s
          else
            match template method with
            | inl _ => (ok (rpcError id (-32700) "Parse error"), s)
            | inr text =>
                (ok (rpcError id (-32601)
                       ("Method '" ++ text ++ "' not found")), s)
            end in
        (inr response, s')
    end.

(** [stop()]. *)
Definition stop (s : State) : State := cleanup E s.

End WithServer.

End Server.

(* ===================================================================== *)
(** ** Vocabulary of the further statements *)
(* ===================================================================== *)

Module Vocabulary.
Import Js Relay Auth Pool Server.

(** The tool calls in a trace: the tool of each, and its arguments. *)
Definition toolCalls (tr : list Event) : list (string * json) :=
  flat_map (fun ev => match ev with
                      | CallTool _ tool arguments => [(tool, arguments)]
                      | _ => []
                      end) tr.

(** The names of a catalogue. *)
Definition toolNames (ts : list MCPTool) : list string := map name ts.

(** A document that is neither [null] nor an object: a number, a string, a
    boolean or an array. *)
Definition scalar_or_array (v : json) : bool :=
  match v with
  | JNull | JObj _ => false
  | _ => true
  end.

(** An [id] that [JSON.stringify] writes as it is: [null], a string, zero,
    or a finite number other than zero.  (Negative zero and the numbers
    [JSON.parse] reads as [Infinity], such as [1e400], are not.) *)
Definition plain (id : json) : Prop :=
  id = JNull
  \/ (exists s, id = JStr s)
  \/ id = JNum 0
  \/ (exists n, id = JNum n
                /\ PrimFloat.is_finite n = true /\ PrimFloat.eqb n 0 = false).

(** The states of a manager whose calls do not overlap: each call runs to
    its end before the next one starts. *)
Inductive served (E : Env) : State -> Prop :=
| served_initial now : served E (initial now)
| served_sleep ms s : served E s -> served E (sleep ms s)
| served_getOrCreateClient authContext s :
    served E s -> served E (snd (getOrCreateClient E authContext s))
| served_callTool tool arguments_ authContext s :
    served E s -> served E (snd (callTool E tool arguments_ authContext s))
| served_cleanupUnusedClients maxAgeMinutes s :
    served E s -> served E (cleanupUnusedClients E maxAgeMinutes s)
| served_cleanup s : served E s -> served E (cleanup E s).

(** Every entry of the map has an instance object of its own, and every
    instance object a client of its own. *)
Definition exclusive (s : State) : Prop :=
  NoDup (map snd (clients s))
  /\ (forall key r, In (key, r) (clients s) -> r < length (heap s))
  /\ NoDup (map client (heap s))
  /\ (forall i, In i (heap s) -> client i < created s).

(** *** Two calls in flight *)

(** How far a call has got: the steps it has taken, up to the four of a
    creation (the call itself, the connection, the delay, the catalogue). *)
Definition phase (t : Task) : nat :=
  match t with
  | Called _ => 0
  | Connecting _ => 1
  | Stabilizing _ => 2
  | LoadingTools _ => 3
  | Closing _ | Settled _ => 4
  end.

(** A schedule for two calls in which each call takes its four steps and
    neither takes its fourth step, which stores its instance in the map,
    before the other has taken its first, which looks the key up: the two
    creations overlap.  [p0] and [p1] are the phases of the two calls. *)
Fixpoint overlapping (p0 p1 : nat) (schedule : list nat) : bool :=
  match schedule with
  | [] => Nat.eqb p0 4 && Nat.eqb p1 4
  | 0 :: rest =>
      if Nat.eqb p0 3 && Nat.eqb p1 0 then false
      else overlapping (Nat.min 4 (S p0)) p1 rest
  | 1 :: rest =>
      if Nat.eqb p1 3 && Nat.eqb p0 0 then false
      else overlapping p0 (Nat.min 4 (S p1)) rest
  | _ :: rest => overlapping p0 p1 rest
  end.

(** Whether a call has constructed its client, and whether it has stored
    its instance. *)
Definition started (t : Task) : nat :=
  match t with
  | Called _ => 0
  | _ => 1
  end.

Definition stored (t : Task) : nat :=
  match t with
  | Settled _ => 1
  | _ => 0
  end.

(** The client of the creation a call has in flight. *)
Definition pending (t : Task) : list client_id :=
  match t with
  | Connecting k | Stabilizing k | LoadingTools k => [cl k]
  | _ => []
  end.

(** A call for [ctx] that began in state [s], as far as it has got in state
    [st]: not yet run, creating an instance for [key], or settled with an
    instance made since [s]. *)
Definition task_fits (key : string) (ctx : AuthenticationContext)
  (s st : State) (t : Task) : Prop :=
  match t with
  | Called c => c = ctx
  | Connecting k | Stabilizing k | LoadingTools k => cacheKey k = key
  | Settled (inr r) => length (heap s) <= r < length (heap st)
  | _ => False
  end.

(** Two overlapping calls for [key] that began in state [s], and the state
    [st] they have brought about: the instances stored so far are new
    objects at the end of the heap, the map refers to the last of them,
    and every client constructed so far belongs to one creation in flight
    or to one of these instances. *)
Definition racing (key : string) (ctxa ctxb : AuthenticationContext)
  (s : State) (ta tb : Task) (st : State) : Prop :=
  task_fits key ctxa s st ta
  /\ task_fits key ctxb s st tb
  /\ (started ta = 0 -> stored tb = 0)
  /\ (started tb = 0 -> stored ta = 0)
  /\ (forall ra rb, ta = Settled (inr ra) -> tb = Settled (inr rb) -> ra <> rb)
  /\ created st = created s + (started ta + started tb)
  /\ (forall c, In c (pending ta) -> ~ In c (pending tb))
  /\ (forall c, In c (pending ta) \/ In c (pending tb) ->
      created s <= c < created st)
  /\ exists new evs,
       heap st = (heap s ++ new)%list
       /\ length new = stored ta + stored tb
       /\ clients st
          = match new with
            | [] => clients s
            | _ :: _ =>
                assign key (length (heap s) + length new - 1) (clients s)
            end
       /\ trace st = (trace s ++ evs)%list
       /\ connects evs = seq (created s) (started ta + started tb)
       /\ closes evs = []
       /\ NoDup (map client new)
       /\ Forall (fun i => isInitialized i = true
                           /\ created s <= client i < created st
                           /\ ~ In (client i) (pending ta)
                           /\ ~ In (client i) (pending tb)) new.

(** The text has no white space at either end. *)
Definition trimmed (t : string) : Prop :=
  (forall a, Stdin.first_char t = Some a -> is_space a = false)
  /\ (forall a, Stdin.last_char t = Some a -> is_space a = false).

(** Every character of the text is white space or a comma. *)
Fixpoint blank_list (s : string) : bool :=
  match s with
  | EmptyString => true
  | String c r => (is_space c || Ascii.eqb c (ascii_of_nat 44)) && blank_list r
  end.

(** The arguments of the spawned server before any domain. *)
Definition baseArgs (authContext : AuthenticationContext) : list string :=
  ["-y"; "-p"; "@azure-devops/mcp"; "mcp-server-azuredevops";
   org_of authContext].

(** A JSON-RPC answer of the server for a request with the given [id]:
    status 200, and either a result or an error with one of the four codes
    the route uses. *)
Definition rpcAnswer (id : option json) (r : Response) : Prop :=
  statusCode r = 200%Z
  /\ ((exists result, payload r = rpcResult id result)
      \/ (exists code message,
            payload r = rpcError id code message
            /\ In code [(-32600)%float; (-32601)%float; (-32602)%float;
                        (-32603)%float])).

(** One entry of the [results] of a batch: it names the tool as the item
    did, and it is a success or a failure with a message. *)
Definition batchResult (toolCall result : json) : Prop :=
  field result "toolName" = field toolCall "name"
  /\ (field result "success" = Some (JBool true)
      \/ (field result "success" = Some (JBool false)
          /\ exists message, field result "error" = Some (JStr message))).

(** The catalogue has a tool of that name. *)
Definition listed (catalogue : list MCPTool) (n : string) : bool :=
  existsb (fun t => String.eqb (name t) n) catalogue.

(** The call an item of a batch stands for, if it stands for one: its
    [name] is a string that names a tool of the catalogue; the arguments
    are its [arguments], or [{}] when they are missing or falsy. *)
Definition itemCall (catalogue : list MCPTool) (toolCall : json)
  : option (string * json) :=
  match field toolCall "name" with
  | Some (JStr n) =>
      if listed catalogue n
      then Some (n, argumentsOrEmpty (field toolCall "arguments"))
      else None
  | _ => None
  end.

(** The entry of [results] an item of a batch should get from a backend
    reached through client [c]: for an item that stands for a call, what
    the backend answers to it as [data], or the message of what it throws;
    for any other item, the failure [Tool '...' not found] with the [name]
    of the item converted to text, or the message of the [TypeError] of
    that conversion. *)
Definition itemResult (E : Env) (number_text : float -> string)
  (catalogue : list MCPTool) (c : client_id) (toolCall : json) : json :=
  let toolName := field toolCall "name" in
  let failed message :=
    object [("toolName", toolName); ("success", Some (JBool false));
            ("error", Some (JStr message))] in
  match itemCall catalogue toolCall with
  | Some (n, arguments) =>
      match callTool_result E c n arguments with
      | inr result =>
          object [("toolName", toolName); ("success", Some (JBool true));
                  ("data", Some result)]
      | inl (Err message) => failed message
      end
  | None =>
      match template number_text toolName with
      | inr text => failed ("Tool '" ++ text ++ "' not found")
      | inl typeError => failed typeError
      end
  end.

(** The events an item of a batch should cause at client [c]. *)
Definition itemEvents (catalogue : list MCPTool) (c : client_id)
  (toolCall : json) : list Event :=
  match itemCall catalogue toolCall with
  | Some (n, arguments) => [CallTool c n arguments]
  | None => []
  end.

(** Tool calls made one after the other for one context, each with its
    tool and its arguments: what each call returned or threw, in order,
    and the state after the last one. *)
Fixpoint callEach (E : Env) (ctx : AuthenticationContext)
  (calls : list (string * option json)) (s : State)
  : list (Error + json) * State :=
  match calls with
  | [] => ([], s)
  | (tool, arguments_) :: rest =>
      let (result, s1) := callTool E tool arguments_ (Some ctx) s in
      let (results, s2) := callEach E ctx rest s1 in
      (result :: results, s2)
  end.

End Vocabulary.

(* ===================================================================== *)
(** ** Sample data *)
(* ===================================================================== *)

Module Samples.
Import Js Relay Auth Pool.

(** The double-quote character. *)
Definition dq : string := String (ascii_of_nat 34) EmptyString.

(** A JSON string literal without escapes. *)
Definition lit (s : string) : string := dq ++ s ++ dq.

(** [JSON.parse] restricted to the texts listed in [table]; any other text
    is a syntax error. *)
Definition JSON_parse_on (table : list (string * json)) (text : string)
  : string + json :=
  match assoc text table with
  | Some doc => inr doc
  | None => inl "Unexpected token"
  end.

(** The request [{"jsonrpc":"2.0","id":7,"method":"tools/list"}]. *)
Definition request_text : string :=
  "{" ++ lit "jsonrpc" ++ ":" ++ lit "2.0" ++ "," ++ lit "id" ++ ":7,"
      ++ lit "method" ++ ":" ++ lit "tools/list" ++ "}".

Definition request_doc : json :=
  JObj [("jsonrpc", JStr "2.0"); ("id", JNum 7); ("method", JStr "tools/list")].

(** The request [{"jsonrpc":"2.0","id":null,"method":"ping"}]. *)
Definition null_id_text : string :=
  "{" ++ lit "jsonrpc" ++ ":" ++ lit "2.0" ++ "," ++ lit "id" ++ ":null,"
      ++ lit "method" ++ ":" ++ lit "ping" ++ "}".

Definition null_id_doc : json :=
  JObj [("jsonrpc", JStr "2.0"); ("id", JNull); ("method", JStr "ping")].

(** The notification [{"jsonrpc":"2.0","method":"notify"}]. *)
Definition notification_text : string :=
  "{" ++ lit "jsonrpc" ++ ":" ++ lit "2.0" ++ "," ++ lit "method" ++ ":"
      ++ lit "notify" ++ "}".

Definition notification_doc : json :=
  JObj [("jsonrpc", JStr "2.0"); ("method", JStr "notify")].

(** The backend reply [{"jsonrpc":"2.0","result":{"tools":[]}}]. *)
Definition reply_text : string :=
  "{" ++ lit "jsonrpc" ++ ":" ++ lit "2.0" ++ "," ++ lit "result" ++ ":{"
      ++ lit "tools" ++ ":[]}}".

Definition reply_props : list (string * json) :=
  [("jsonrpc", JStr "2.0"); ("result", JObj [("tools", JArr [])])].

(** The backend reply [{"jsonrpc":0,"id":99,"result":true}]. *)
Definition odd_reply_text : string :=
  "{" ++ lit "jsonrpc" ++ ":0," ++ lit "id" ++ ":99," ++ lit "result"
      ++ ":true}".

Definition odd_reply_props : list (string * json) :=
  [("jsonrpc", JNum 0); ("id", JNum 99); ("result", JBool true)].

(** [JSON.parse] on the texts above and on the text [5]. *)
Definition sample_parse : string -> string + json :=
  JSON_parse_on
    [ (request_text, request_doc);
      (null_id_text, null_id_doc);
      (notification_text, notification_doc);
      (reply_text, JObj reply_props);
      (odd_reply_text, JObj odd_reply_props);
      ("5", JNum 5) ].

(** A tool catalogue with one tool. *)
Definition catalogue : list MCPTool :=
  [mkTool "core_list_projects" (Some "List projects") (JObj [])].

(** Surroundings in which every backend call succeeds. *)
Definition healthy : Env :=
  mkEnv [] (fun _ => true) (fun _ => None) (fun _ => inr (Some catalogue))
    (fun _ _ _ => inr (JStr "done")) (fun _ => None).

(** Surroundings in which the first client cannot connect and every close
    fails; later clients are healthy. *)
Definition flaky : Env :=
  mkEnv [] (fun _ => true)
    (fun c => match c with O => Some (Err "spawn npx ENOENT") | _ => None end)
    (fun _ => inr (Some catalogue))
    (fun _ _ _ => inr (JStr "done"))
    (fun _ => Some (Err "Not connected")).

(** [{azureDevOpsOrg: 'acme'}]. *)
Definition acme : AuthenticationContext := mkContext (Some "acme") None None.

(** [{azureDevOpsOrg: 'acme', mcpTransportType: 'stdio'}]. *)
Definition acme_stdio : AuthenticationContext :=
  mkContext (Some "acme") None (Some stdio).

(** [{azureDevOpsOrg: 'acme', mcpTransportType: 'http'}]. *)
Definition acme_http_no_url : AuthenticationContext :=
  mkContext (Some "acme") None (Some http).

(** [{mcpTransportType: 'stdio'}]. *)
Definition no_org : AuthenticationContext := mkContext None None (Some stdio).



(** Surroundings in which every backend call succeeds except [close]. *)
Definition unclosable : Env :=
  mkEnv [] (fun _ => true) (fun _ => None) (fun _ => inr (Some catalogue))
    (fun _ _ _ => inr (JStr "done")) (fun _ => Some (Err "Not connected")).

Definition minute : Z := 60000.

(** A pool holding two instances, one last used 31 minutes ago and one 10
    minutes ago: a client for [old] is created at time 0 (it is ready, and
    last used, 2 seconds later), a client for [young] at minute 21, and 10
    more minutes pass. *)
Definition two_instances : State :=
  let s1 := snd (getOrCreateClient unclosable
                   (mkContext (Some "old") None None) (initial 0)) in
  let s2 := snd (getOrCreateClient unclosable
                   (mkContext (Some "young") None None)
                   (sleep (21 * minute - 2000) s1)) in
  sleep (10 * minute) s2.

End Samples.

(* ===================================================================== *)
(** ** Sample data for the routes *)
(* ===================================================================== *)

Module ServerSamples.
Import Js Relay Auth Pool Server Samples.

(** [Number.prototype.toString] on the numbers of the samples. *)
Definition sample_number_text (n : float) : string :=
  if PrimFloat.eqb n 7 then "7" else "0".

(** V8's message for a failed destructuring. *)
Definition sample_cannotDestructure (source property : string)
  (value : option json) : string :=
  "Cannot destructure property '" ++ property ++ "' of '" ++ source
  ++ "' as it is "
  ++ match value with Some _ => "null" | None => "undefined" end ++ ".".

(** The pool after a client for [acme] was created. *)
Definition acme_ready : State :=
  snd (getOrCreateClient healthy acme (initial 0)).

(** Surroundings with [AZURE_DEVOPS_ORG=acme] in which every backend call
    succeeds. *)
Definition configured : Env :=
  mkEnv [("AZURE_DEVOPS_ORG", "acme")] (fun _ => true) (fun _ => None)
    (fun _ => inr (Some catalogue)) (fun _ _ _ => inr (JStr "done"))
    (fun _ => None).

(** Surroundings in which every tool call throws. *)
Definition failing : Env :=
  mkEnv [] (fun _ => true) (fun _ => None) (fun _ => inr (Some catalogue))
    (fun _ _ _ => inl (Err "Request timed out")) (fun _ => None).

(** The batch [[{name: 'core_list_projects'}, {name: 'nope'}, 5]]. *)
Definition batch : list json :=
  [JObj [("name", JStr "core_list_projects")];
   JObj [("name", JStr "nope")];
   JNum 5].

(** The request [{"jsonrpc":"2.0","id":7,"method":"tools/call",
    "params":{"name":"core_list_projects"}}]. *)
Definition call_doc : json :=
  JObj [("jsonrpc", JStr "2.0"); ("id", JNum 7); ("method", JStr "tools/call");
        ("params", JObj [("name", JStr "core_list_projects")])].

(** The batch [[{name: 'core_list_projects'}, null]]. *)
Definition batch_with_null : list json :=
  [JObj [("name", JStr "core_list_projects")]; JNull].

(** What the JSON-RPC route answers to [request_doc] from the organisation
    [acme], the pool being new. *)
Definition served : Response :=
  match fst (mcpRoute healthy sample_number_text sample_cannotDestructure
               (Some acme) (Some request_doc) (initial 0)) with
  | inr r => r
  | inl _ => ok JNull
  end.


End ServerSamples.

(* ===================================================================== *)
(** ** Sample data for the relay: a number beyond the range of binary64 *)
(* ===================================================================== *)

Module RelaySamples.
Import Js Relay Samples.

(** The request [{"jsonrpc":"2.0","id":1e400,"method":"tools/list"}]. *)
Definition huge_id_text : string :=
  "{" ++ lit "jsonrpc" ++ ":" ++ lit "2.0" ++ "," ++ lit "id" ++ ":1e400,"
      ++ lit "method" ++ ":" ++ lit "tools/list" ++ "}".

(** [JSON.parse] reads [1e400] as [Infinity]. *)
Definition huge_id_doc : json :=
  JObj [("jsonrpc", JStr "2.0"); ("id", JNum PrimFloat.infinity);
        ("method", JStr "tools/list")].

(** [JSON.parse] on that request and on the backend reply of [Samples]. *)
Definition huge_parse : string -> string + json :=
  JSON_parse_on [(huge_id_text, huge_id_doc); (reply_text, JObj reply_props)].

(** The message of a refused connection. *)
Definition refused : string := "connect ECONNREFUSED 127.0.0.1:3000".

End RelaySamples.

(* ===================================================================== *)
(** ** Facts about JavaScript values *)
(* ===================================================================== *)

Module JsFacts.
Import Js.

Lemma assoc_assign_same {A : Type} (k : string) (x : A) props :
  assoc k (assign k x props) = Some x.
Proof.
  induction props as [| [k' v] rest IH]; simpl.
  - now rewrite String.eqb_refl.
  - destruct (String.eqb k' k) eqn:Hk; simpl.
    + now rewrite String.eqb_refl.
    + now rewrite Hk.
Qed.

Lemma assoc_assign_other {A : Type} (k k0 : string) (x : A) props :
  k0 <> k -> assoc k0 (assign k x props) = assoc k0 props.
Proof.
  intros Hne.
  induction props as [| [k' v] rest IH]; simpl.
  - destruct (String.eqb_spec k k0); congruence.
  - destruct (String.eqb_spec k' k) as [-> | Hk]; simpl.
    + destruct (String.eqb_spec k k0); congruence.
    + now rewrite IH.
Qed.

Lemma assoc_remove_same {A : Type} (k : string) (props : list (string * A)) :
  assoc k (remove k props) = None.
Proof.
  induction props as [| [k' v] rest IH]; simpl; auto.
  destruct (String.eqb k' k) eqn:Hk; simpl; auto. now rewrite Hk.
Qed.

Lemma assoc_remove_other {A : Type} (k k0 : string) (props : list (string * A)) :
  k0 <> k -> assoc k0 (remove k props) = assoc k0 props.
Proof.
  intros Hne.
  induction props as [| [k' v] rest IH]; simpl; auto.
  destruct (String.eqb_spec k' k) as [-> | Hk]; simpl.
  - rewrite IH. destruct (String.eqb_spec k k0); congruence.
  - now rewrite IH.
Qed.

Lemma assoc_None_not_in {A : Type} (k : string) (props : list (string * A)) :
  assoc k props = None <-> ~ In k (map fst props).
Proof.
  induction props as [| [k' v] rest IH]; simpl.
  - tauto.
  - destruct (String.eqb_spec k' k) as [-> | Hk]; split; intros H.
    + discriminate.
    + exfalso. apply H. now left.
    + intros [Heq | Hin]; [congruence | now apply IH in H].
    + apply IH. tauto.
Qed.

Lemma keys_assign {A : Type} (k : string) (x : A) props :
  map fst (assign k x props) =
  match assoc k props with
  | Some _ => map fst props
  | None => (map fst props ++ [k])%list
  end.
Proof.
  induction props as [| [k' v] rest IH]; simpl; auto.
  destruct (String.eqb_spec k' k) as [-> | Hk]; simpl; auto.
  rewrite IH. now destruct (assoc k rest).
Qed.

Lemma trimStart_blank s : whitespace_only s = true -> trimStart s = EmptyString.
Proof.
  induction s as [| c r IH]; simpl; auto.
  destruct (is_space c); simpl; auto. discriminate.
Qed.

Lemma trimStart_solid s :
  whitespace_only s = false ->
  exists c r, trimStart s = String c r /\ is_space c = false.
Proof.
  induction s as [| c r IH]; simpl; [discriminate |].
  destruct (is_space c) eqn:Hc; simpl; eauto.
Qed.

Lemma trimEnd_solid c r : is_space c = false -> is_empty (trimEnd (String c r)) = false.
Proof.
  intros Hc. simpl. destruct (trimEnd r); [now rewrite Hc | reflexivity].
Qed.

(** The emptiness test of the relay, [!s || !s.trim()], holds exactly of
    the strings made of white space only. *)
Lemma blank_iff_whitespace_only s :
  (is_empty s || is_empty (trim s))%bool = whitespace_only s.
Proof.
  unfold trim. destruct (whitespace_only s) eqn:Hs.
  - rewrite (trimStart_blank _ Hs). simpl. apply orb_true_r.
  - destruct (trimStart_solid _ Hs) as (c & r & -> & Hc).
    rewrite (trimEnd_solid _ _ Hc). destruct s; [discriminate | reflexivity].
Qed.

(** The properties of an object as [JSON.stringify] writes them. *)
Lemma assoc_serialised k (props : list (string * json)) :
  assoc k (map (fun p => (fst p, serialised (snd p))) props)
  = option_map serialised (assoc k props).
Proof.
  induction props as [| [k' v] rest IH]; cbn [map assoc fst snd]; auto.
  destruct (String.eqb k' k); auto.
Qed.

Lemma serialised_plain id : Vocabulary.plain id -> serialised id = id.
Proof.
  intros [-> | [(s & ->) | [-> | (n & -> & Hf & Hz)]]]; try reflexivity.
  cbn [serialised]. now rewrite Hf, Hz.
Qed.

End JsFacts.

(* ===================================================================== *)
(** ** The relay: correlation, notifications, error responses *)
(* ===================================================================== *)

Module RelayFacts.
Import Js Relay Vocabulary JsFacts Samples RelaySamples.

Section WithParser.

Variable JSON_parse : string -> string + json.

(** A message that parses and whose [id] can be read is forwarded
    unchanged, and its output is what the callback writes. *)
Lemma processMessage_forwards messageText message requestId :
  JSON_parse messageText = inr message ->
  getProp message "id" = inr requestId ->
  processMessage JSON_parse messageText =
    Forward (mkPost "localhost" 3000 "/api/mcp" "POST" 10000 message)
      (snd (sendToServer message)) (onResponse JSON_parse requestId).
Proof.
  intros Hp Hid. unfold processMessage. now rewrite Hp, Hid.
Qed.

Lemma relay_forwarded messageText message requestId ev :
  JSON_parse messageText = inr message ->
  getProp message "id" = inr requestId ->
  relay JSON_parse messageText ev =
    onResponse JSON_parse requestId (invokes (snd (sendToServer message) ev)).
Proof.
  intros Hp Hid. unfold relay.
  now rewrite (processMessage_forwards _ _ _ Hp Hid).
Qed.

(** A request gets one line from the callback, whatever it is called
    with. *)
Lemma onResponse_request_one id args :
  length (onResponse JSON_parse (Some id) args) = 1.
Proof.
  destruct args as [message | responseData]; simpl; auto.
  destruct (is_empty responseData || is_empty (trim responseData))%bool; auto.
  destruct (JSON_parse responseData) as [e | response]; auto.
  destruct (stamp response id); auto.
Qed.

(** A notification gets none. *)
Lemma onResponse_notification_none args :
  onResponse JSON_parse None args = [].
Proof.
  destruct args as [message | responseData]; simpl; auto.
  destruct (is_empty responseData || is_empty (trim responseData))%bool; auto.
  destruct (JSON_parse responseData); auto.
Qed.

(** A request gets one line for each report of the http client. *)
Lemma relayAll_request_lines messageText message id events :
  JSON_parse messageText = inr message ->
  getProp message "id" = inr (Some id) ->
  length (relayAll JSON_parse messageText events) = length events.
Proof.
  intros Hp Hid. unfold relayAll.
  rewrite (processMessage_forwards _ _ _ Hp Hid).
  induction events as [| ev rest IH]; cbn [flat_map length]; auto.
  now rewrite length_app, onResponse_request_one, IH.
Qed.


(** The fields of an error response made by the relay. *)
Lemma errorResponse_fields id code message :
  response_id (errorResponse id code message) = Some id
  /\ error_code (errorResponse id code message) = Some (JNum code)
  /\ error_message (errorResponse id code message) = Some (JStr message).
Proof. repeat split. Qed.

(** What [stamp] does to an object. *)
Lemma stamp_object backend requestId :
  stamp (JObj backend) requestId =
    inr (JObj (assign "id" requestId
                 (if truthy_opt (assoc "jsonrpc" backend) then backend
                  else assign "jsonrpc" (JStr "2.0") backend))).
Proof.
  unfold stamp. simpl. now destruct (truthy_opt (assoc "jsonrpc" backend)).
Qed.

End WithParser.

(** The framing of stdin: complete lines are trimmed, empty ones are
    skipped, and the text after the last newline stays in the buffer. *)
Example onData_frames :
  onData "{a" (String "}" (String newline
                 (String " " (String newline
                    (String "b" (String " " (String newline "c")))))))
  = (["{a}"; "b"], "c").
Proof. reflexivity. Qed.

(** Where [jsonrpc] is missing or truthy, the response written is the one
    the specification describes. *)
Lemma stamp_agrees_with_spec backend requestId :
  (forall v, assoc "jsonrpc" backend = Some v -> truthy v = true) ->
  stamp (JObj backend) requestId = inr (spec_response backend requestId).
Proof.
  intros Hv. rewrite stamp_object. unfold spec_response.
  destruct (assoc "jsonrpc" backend) as [v |] eqn:Hj; simpl; auto.
  now rewrite (Hv v eq_refl).
Qed.

Lemma errorResponse_code_differs id id' m m' :
  errorResponse id (-32700) m <> errorResponse id' (-32603) m'.
Proof.
  intros H. apply (f_equal (code_is (-32700))) in H. vm_compute in H.
  discriminate H.
Qed.

Lemma errorResponse_prefix_differs id id' e e' :
  errorResponse id (-32700) ("Invalid JSON request: " ++ e) <>
  errorResponse id' (-32700) ("Invalid JSON response: " ++ e').
Proof.
  intros H. apply (f_equal error_message) in H. simpl in H. discriminate H.
Qed.

(** An exchange that ends with a response, or with a failure of the
    request, is one report. *)
Lemma relayed_Responds JSON_parse messageText responseData :
  relayed JSON_parse messageText (Responds responseData)
  = relay JSON_parse messageText (ResponseEnd responseData).
Proof.
  unfold relayed, relay. destruct (processMessage JSON_parse messageText);
    [reflexivity |]. cbn [reports flat_map]. apply app_nil_r.
Qed.

Lemma relayed_Fails JSON_parse messageText error :
  relayed JSON_parse messageText (Fails error)
  = relay JSON_parse messageText (RequestError error).
Proof.
  unfold relayed, relay. destruct (processMessage JSON_parse messageText);
    [reflexivity |]. cbn [reports flat_map]. apply app_nil_r.
Qed.

(** The error documents of the relay as they are written: the codes are
    finite, so only the [id] can change. *)
Lemma written_errorResponse id code message :
  PrimFloat.is_finite code = true -> PrimFloat.eqb code 0 = false ->
  written (Line (errorResponse id code message))
  = errorResponse (serialised id) code message.
Proof.
  intros Hf Hz. cbn [written errorResponse serialised map fst snd].
  now rewrite Hf, Hz.
Qed.

(** What one report writes for a request, as documents. *)
Lemma written_failure JSON_parse id message :
  map written (onResponse JSON_parse (Some id) (Failed message))
  = [errorResponse (serialised id) (-32603) message].
Proof.
  cbn [onResponse map]. now rewrite written_errorResponse.
Qed.

Lemma written_blank JSON_parse id responseData :
  whitespace_only responseData = true ->
  map written (onResponse JSON_parse (Some id) (Answered responseData))
  = [errorResponse (serialised id) (-32603) "Empty response from server"].
Proof.
  intros Hw. cbn [onResponse]. rewrite blank_iff_whitespace_only, Hw.
  cbn [map]. now rewrite written_errorResponse.
Qed.

Lemma written_unparsable JSON_parse id responseData e :
  whitespace_only responseData = false ->
  JSON_parse responseData = inl e ->
  map written (onResponse JSON_parse (Some id) (Answered responseData))
  = [errorResponse (serialised id) (-32700) ("Invalid JSON response: " ++ e)].
Proof.
  intros Hw He. cbn [onResponse]. rewrite blank_iff_whitespace_only, Hw, He.
  cbn [map]. now rewrite written_errorResponse.
Qed.

(** C1 (as amended): for a message with a defined [id] (null included)
    whose POST succeeds with a body that is not blank and parses to a JSON
    object, the relay writes exactly one line.  The document on that line
    is the backend's object with [id] overwritten by the request's [id]
    (whatever [id] the backend sent), with [jsonrpc] set to 2.0 when it is
    missing or falsy (null, false, 0, the empty string) and kept otherwise,
    and with every other property as the backend sent it, all values being
    written as [JSON.stringify] writes them: the request's [id] arrives
    unchanged when it is null, a string or a finite number other than
    negative zero, and a number that is not finite is written null.  Where
    [jsonrpc] is missing or truthy this is the response the specification
    describes, as it is written. *)
Theorem relay_success_carries_request_id
  (JSON_parse : string -> string + json)
  (messageText responseData : string) (message requestId : json)
  (backend : list (string * json)) :
  JSON_parse messageText = inr message ->
  getProp message "id" = inr (Some requestId) ->
  whitespace_only responseData = false ->
  JSON_parse responseData = inr (JObj backend) ->
  let out :=
    assign "id" requestId
      (if truthy_opt (assoc "jsonrpc" backend) then backend
       else assign "jsonrpc" (JStr "2.0") backend) in
  let line := map (fun p => (fst p, serialised (snd p))) out in
  relay JSON_parse messageText (ResponseEnd responseData) = [Line (JObj out)]
  /\ map written (relayed JSON_parse messageText (Responds responseData))
     = [JObj line]
  /\ assoc "id" line = Some (serialised requestId)
  /\ (plain requestId -> assoc "id" line = Some requestId)
  /\ assoc "jsonrpc" line =
       (if truthy_opt (assoc "jsonrpc" backend)
        then option_map serialised (assoc "jsonrpc" backend)
        else Some (JStr "2.0"))
  /\ (forall k, k <> "id" -> k <> "jsonrpc" ->
      assoc k line = option_map serialised (assoc k backend))
  /\ ((forall v, assoc "jsonrpc" backend = Some v -> truthy v = true) ->
      JObj line = serialised (spec_response backend requestId))
  /\ (serialised (JObj backend) = JObj backend ->
      serialised requestId = requestId ->
      line = out).
Proof.
  intros Hp Hid Hws Hbody out line.
  assert (Hrun : relay JSON_parse messageText (ResponseEnd responseData)
                 = [Line (JObj out)]).
  { rewrite (relay_forwarded _ _ _ _ _ Hp Hid).
    cbn [sendToServer snd invokes onResponse].
    now rewrite blank_iff_whitespace_only, Hws, Hbody, stamp_object. }
  assert (Hidw : assoc "id" line = Some (serialised requestId)).
  { unfold line, out. rewrite assoc_serialised, assoc_assign_same. reflexivity. }
  split; [exact Hrun |]. split; [now rewrite relayed_Responds, Hrun |].
  split; [exact Hidw |].
  split; [intros Hplain; now rewrite Hidw, (serialised_plain _ Hplain) |].
  split; [| split; [| split]].
  - unfold line, out. rewrite assoc_serialised.
    rewrite assoc_assign_other by discriminate.
    destruct (truthy_opt (assoc "jsonrpc" backend)); auto.
    now rewrite assoc_assign_same.
  - intros k Hid' Hv. unfold line, out. rewrite assoc_serialised.
    rewrite assoc_assign_other by assumption.
    destruct (truthy_opt (assoc "jsonrpc" backend)); auto.
    now rewrite assoc_assign_other.
  - intros Hv. pose proof (stamp_agrees_with_spec backend requestId Hv) as H.
    rewrite stamp_object in H.
    assert (Hout : JObj out = spec_response backend requestId)
      by exact (f_equal (fun r => match r with
                                  | inr doc => doc
                                  | inl _ => JNull
                                  end) H).
    now rewrite <- Hout.
  - intros Hb Hr. unfold line, out.
    cbn [serialised] in Hb. injection Hb as Hb.
    destruct (truthy_opt (assoc "jsonrpc" backend)).
    + clear - Hb Hr. induction backend as [| [k v] rest IH];
        cbn [assign map fst snd] in *.
      * now rewrite Hr.
      * injection Hb as Hv Hrest. destruct (String.eqb k "id");
          cbn [map fst snd].
        -- now rewrite Hr, Hrest.
        -- now rewrite Hv, (IH Hrest).
    + clear - Hb Hr.
      assert (Hver : map (fun p => (fst p, serialised (snd p)))
                       (assign "jsonrpc" (JStr "2.0") backend)
                     = assign "jsonrpc" (JStr "2.0") backend).
      { induction backend as [| [k v] rest IH];
          cbn [assign map fst snd] in *; [reflexivity |].
        injection Hb as Hv Hrest. destruct (String.eqb k "jsonrpc");
          cbn [map fst snd serialised].
        - now rewrite Hrest.
        - now rewrite Hv, (IH Hrest). }
      revert Hver. generalize (assign "jsonrpc" (JStr "2.0") backend).
      intros l Hl. induction l as [| [k v] rest IH];
        cbn [assign map fst snd] in *.
      * now rewrite Hr.
      * injection Hl as Hv Hrest. destruct (String.eqb k "id");
          cbn [map fst snd].
        -- now rewrite Hr, Hrest.
        -- now rewrite Hv, (IH Hrest).
Qed.

Lemma relay_success_carries_request_id_witness :
  map written (relayed sample_parse request_text (Responds reply_text))
  = [JObj [("jsonrpc", JStr "2.0");
           ("result", JObj [("tools", JArr [])]);
           ("id", JNum 7)]].
Proof.
  exact (proj1 (proj2
           (relay_success_carries_request_id sample_parse request_text
              reply_text request_doc (JNum 7) reply_props
              eq_refl eq_refl eq_refl eq_refl))).
Defined.

(** C1 (as stated) fails: the backend reply [{"jsonrpc":0,"id":99,
    "result":true}] has a [jsonrpc] property, so the claim keeps it, but the
    relay replaces it by 2.0 because 0 is falsy.  And the request's [id]
    is not always what is written: for the request with [id] 1e400, which
    [JSON.parse] reads as [Infinity], the line says [null].  (A body that
    parses to something other than an object, such as [5], is written back
    as it is, without an [id].) *)
Lemma relay_replaces_falsy_version :
  sample_parse request_text = inr request_doc
  /\ getProp request_doc "id" = inr (Some (JNum 7))
  /\ whitespace_only odd_reply_text = false
  /\ sample_parse odd_reply_text = inr (JObj odd_reply_props)
  /\ map written (relayed sample_parse request_text (Responds odd_reply_text))
       = [JObj [("jsonrpc", JStr "2.0"); ("id", JNum 7);
                ("result", JBool true)]]
  /\ serialised (spec_response odd_reply_props (JNum 7))
       = JObj [("jsonrpc", JNum 0); ("id", JNum 7); ("result", JBool true)]
  /\ map written (relayed sample_parse request_text (Responds odd_reply_text))
       <> [serialised (spec_response odd_reply_props (JNum 7))]
  /\ map written (relayed sample_parse request_text (Responds "5"))
       = [JNum 5]
  /\ huge_parse huge_id_text = inr huge_id_doc
  /\ getProp huge_id_doc "id" = inr (Some (JNum PrimFloat.infinity))
  /\ map written (relayed huge_parse huge_id_text (Responds reply_text))
       = [JObj [("jsonrpc", JStr "2.0");
                ("result", JObj [("tools", JArr [])]);
                ("id", JNull)]]
  /\ JNull <> JNum PrimFloat.infinity.
Proof.
  repeat split; try reflexivity; discriminate.
Qed.

(** C2: a message whose [id] is absent produces no output line whatever the
    http client reports for its POST (failure, timeout, or a response with
    any body: blank, unparsable or parsable); a message whose [id] is null
    produces exactly one line in each of these cases, as a request does. *)
Theorem relay_notification_silent
  (JSON_parse : string -> string + json)
  (messageText : string) (message : json) (ev : http_event) :
  JSON_parse messageText = inr message ->
  (getProp message "id" = inr None ->
     relay JSON_parse messageText ev = [])
  /\ (getProp message "id" = inr (Some JNull) ->
      length (relay JSON_parse messageText ev) = 1
      /\ (forall error, ev = RequestError error ->
          relay JSON_parse messageText ev
          = [Line (errorResponse JNull (-32603) error)])).
Proof.
  intros Hp. split; intros Hid; rewrite (relay_forwarded _ _ _ _ _ Hp Hid).
  - apply onResponse_notification_none.
  - split; [apply onResponse_request_one |]. now intros error ->.
Qed.

Lemma relay_notification_silent_witness :
  relay sample_parse notification_text (ResponseEnd reply_text) = []
  /\ length (relay sample_parse null_id_text (ResponseEnd reply_text)) = 1.
Proof.
  split.
  - apply (relay_notification_silent sample_parse notification_text
             notification_doc (ResponseEnd reply_text)); reflexivity.
  - apply (relay_notification_silent sample_parse null_id_text
             null_id_doc (ResponseEnd reply_text)); reflexivity.
Defined.

(** C3 (as amended): an input line that is not valid JSON gets exactly one
    error line with code -32700 and [id] null and causes no POST, however
    the exchange would have gone.  For a request (a message with a defined
    [id]) every report of the http client writes exactly one line: the
    report of a failed POST, the report of a timeout, and a response with
    a blank body each write one error with code -32603 and the request's
    [id] (with the message "Empty response from server" for the blank
    body); a response whose body is not blank and does not parse writes
    one error with code -32700 and the request's [id].  The [id] is written
    as [JSON.stringify] writes it, which is unchanged for null, a string
    and a finite number other than negative zero.  A request whose POST
    ends with a response or with a failure gets exactly one line; a
    request still in flight when the script exits gets none.  The three
    kinds of error line differ from each other: by their code, or, where
    both have code -32700, by the start of their message. *)
Theorem relay_error_responses (JSON_parse : string -> string + json) :
  (forall messageText e x,
     JSON_parse messageText = inl e ->
     forwarded JSON_parse messageText = None
     /\ map written (relayed JSON_parse messageText x)
        = [errorResponse JNull (-32700) ("Invalid JSON request: " ++ e)])
  /\ (forall messageText message id,
      JSON_parse messageText = inr message ->
      getProp message "id" = inr (Some id) ->
      forwarded JSON_parse messageText = Some message
      /\ (forall error,
            map written (relayed JSON_parse messageText (Fails error))
            = [errorResponse (serialised id) (-32603) error])
      /\ (forall responseData,
            whitespace_only responseData = true ->
            map written
              (relayed JSON_parse messageText (Responds responseData))
            = [errorResponse (serialised id) (-32603)
                 "Empty response from server"])
      /\ (forall responseData e,
            whitespace_only responseData = false ->
            JSON_parse responseData = inl e ->
            map written
              (relayed JSON_parse messageText (Responds responseData))
            = [errorResponse (serialised id) (-32700)
                 ("Invalid JSON response: " ++ e)])
      /\ (forall responseData,
            length (relayed JSON_parse messageText (Responds responseData))
            = 1)
      /\ relayed JSON_parse messageText Abandoned = []
      /\ (forall error,
            map written (relay JSON_parse messageText (RequestError error))
            = [errorResponse (serialised id) (-32603) error])
      /\ map written (relay JSON_parse messageText RequestTimeout)
         = [errorResponse (serialised id) (-32603) "Timeout"]
      /\ (forall ev, length (relay JSON_parse messageText ev) = 1)
      /\ (plain id -> serialised id = id))
  /\ (forall id id' e e' error,
      errorResponse JNull (-32700) ("Invalid JSON request: " ++ e)
        <> errorResponse id (-32603) error
      /\ errorResponse JNull (-32700) ("Invalid JSON request: " ++ e)
        <> errorResponse id (-32700) ("Invalid JSON response: " ++ e')
      /\ errorResponse id' (-32700) ("Invalid JSON response: " ++ e')
        <> errorResponse id (-32603) error).
Proof.
  split; [| split].
  - intros messageText e x Hp.
    unfold forwarded, relayed, processMessage. now rewrite Hp.
  - intros messageText message id Hp Hid.
    pose proof (fun ev => relay_forwarded _ _ _ _ ev Hp Hid) as Hrelay.
    split.
    { unfold forwarded. now rewrite (processMessage_forwards _ _ _ _ Hp Hid). }
    split; [| split; [| split; [| split; [| split; [| split; [| split;
      [| split]]]]]]].
    + intros error. rewrite relayed_Fails, Hrelay. apply written_failure.
    + intros responseData Hw. rewrite relayed_Responds, Hrelay.
      now apply written_blank.
    + intros responseData e Hw He. rewrite relayed_Responds, Hrelay.
      now apply written_unparsable.
    + intros responseData. rewrite relayed_Responds, Hrelay.
      apply onResponse_request_one.
    + unfold relayed. now rewrite (processMessage_forwards _ _ _ _ Hp Hid).
    + intros error. rewrite Hrelay. apply written_failure.
    + rewrite Hrelay. apply written_failure.
    + intros ev. rewrite Hrelay. apply onResponse_request_one.
    + apply serialised_plain.
  - intros id id' e e' error. repeat split.
    + apply errorResponse_code_differs.
    + apply errorResponse_prefix_differs.
    + apply errorResponse_code_differs.
Qed.

Lemma relay_error_responses_witness :
  map written (relayed sample_parse "not-json" Idles)
    = [errorResponse JNull (-32700) "Invalid JSON request: Unexpected token"]
  /\ map written (relayed sample_parse request_text (Fails refused))
     = [errorResponse (JNum 7) (-32603) refused]
  /\ map written (relayed sample_parse request_text (Responds "  "))
     = [errorResponse (JNum 7) (-32603) "Empty response from server"]
  /\ map written (relayed sample_parse request_text (Responds "<html>"))
     = [errorResponse (JNum 7) (-32700)
          "Invalid JSON response: Unexpected token"]
  /\ map written (relay sample_parse request_text RequestTimeout)
     = [errorResponse (JNum 7) (-32603) "Timeout"].
Proof.
  destruct (relay_error_responses sample_parse) as (Hframe & Hreq & _).
  split; [apply (Hframe "not-json" "Unexpected token"); reflexivity |].
  destruct (Hreq request_text request_doc (JNum 7) eq_refl eq_refl)
    as (_ & Hfail & Hblank & Hbad & _ & _ & _ & Htimeout & _).
  split; [exact (Hfail refused) |].
  split; [apply Hblank; reflexivity |].
  split; [apply (Hbad "<html>" "Unexpected token"); reflexivity |].
  exact Htimeout.
Defined.

(** C3 (as stated) fails.  The request with [id] 1e400, which
    [JSON.parse] reads as [Infinity], is posted and answered with [id]
    null: the error of its refused connection does not carry the original
    [id].  A request in flight when the script exits gets no line.  And a
    request the backend leaves without an answer gets two error lines, not
    one: the handler of [timeout] destroys the request and reports
    [Timeout], and the destroyed request then reports [socket hang up]. *)
Lemma request_gets_no_or_two_lines :
  huge_parse huge_id_text = inr huge_id_doc
  /\ getProp huge_id_doc "id" = inr (Some (JNum PrimFloat.infinity))
  /\ option_map serialised (forwarded huge_parse huge_id_text)
     = Some (JObj [("jsonrpc", JStr "2.0"); ("id", JNull);
                   ("method", JStr "tools/list")])
  /\ map written (relayed huge_parse huge_id_text (Fails refused))
     = [errorResponse JNull (-32603) refused]
  /\ JNull <> JNum PrimFloat.infinity
  /\ sample_parse request_text = inr request_doc
  /\ getProp request_doc "id" = inr (Some (JNum 7))
  /\ relayed sample_parse request_text Abandoned = []
  /\ map written (relayed sample_parse request_text Idles)
     = [errorResponse (JNum 7) (-32603) "Timeout";
        errorResponse (JNum 7) (-32603) "socket hang up"].
Proof.
  repeat split; try reflexivity; discriminate.
Qed.

End RelayFacts.

(* ===================================================================== *)
(** ** The client pool: caching, creation, eviction *)
(* ===================================================================== *)

Module PoolFacts.
Import Js Auth Pool JsFacts Samples.

(** *** The heap *)

Lemma nth_error_update_same {A : Type} (r : nat) (x : A) (l : list A) :
  r < length l -> nth_error (update r x l) r = Some x.
Proof.
  revert r. induction l as [| y l IH]; intros [| r] H; simpl in *;
    try lia; [reflexivity | apply IH; lia].
Qed.

Lemma nth_error_update_other {A : Type} (r r' : nat) (x : A) (l : list A) :
  r <> r' -> nth_error (update r x l) r' = nth_error l r'.
Proof.
  revert r r'. induction l as [| y l IH]; intros [| r] [| r'] H; simpl;
    try reflexivity; try congruence. apply IH. congruence.
Qed.

Lemma nth_error_alloc {A : Type} (l : list A) (x : A) :
  nth_error (l ++ [x]) (length l) = Some x.
Proof.
  rewrite nth_error_app2 by lia. now rewrite Nat.sub_diag.
Qed.

Lemma nth_error_old {A : Type} (l : list A) (x y : A) (r : nat) :
  nth_error l r = Some y -> nth_error (l ++ [x]) r = Some y.
Proof.
  intros H. rewrite nth_error_app1; auto.
  apply nth_error_Some. congruence.
Qed.

(** *** [touch] changes one field of one object *)

Lemma touch_frame r s :
  clients (touch r s) = clients s /\ created (touch r s) = created s
  /\ clock (touch r s) = clock s /\ trace (touch r s) = trace s.
Proof. unfold touch. now destruct (nth_error (heap s) r). Qed.

Lemma touch_at r s i :
  nth_error (heap s) r = Some i ->
  nth_error (heap (touch r s)) r =
    Some (mkInstance (client i) (transport i) (tools i) (isInitialized i)
            (clock s)).
Proof.
  intros H. unfold touch. rewrite H. simpl.
  apply nth_error_update_same. apply nth_error_Some. congruence.
Qed.

Lemma touch_elsewhere r r' s :
  r <> r' -> nth_error (heap (touch r s)) r' = nth_error (heap s) r'.
Proof.
  intros H. unfold touch. destruct (nth_error (heap s) r); auto.
  simpl. now apply nth_error_update_other.
Qed.

Lemma get_touch r s key :
  get (touch r s) key =
    match get s key with
    | Some (r', i) =>
        Some (r', if Nat.eqb r r'
                  then mkInstance (client i) (transport i) (tools i)
                         (isInitialized i) (clock s)
                  else i)
    | None => None
    end.
Proof.
  unfold get. destruct (touch_frame r s) as (-> & _).
  destruct (assoc key (clients s)) as [r' |]; auto.
  destruct (Nat.eq_dec r r') as [<- | Hne].
  - destruct (nth_error (heap s) r) as [i |] eqn:Hi.
    + now rewrite (touch_at _ _ _ Hi), Nat.eqb_refl.
    + unfold touch. now rewrite Hi, Hi.
  - rewrite (touch_elsewhere _ _ _ Hne).
    apply Nat.eqb_neq in Hne.
    destruct (nth_error (heap s) r'); [now rewrite Hne | reflexivity].
Qed.

Lemma cached_touch r s key : cached (touch r s) key = cached s key.
Proof.
  unfold cached. rewrite get_touch.
  destruct (get s key) as [[r' i] |]; auto.
  now destruct (Nat.eqb r r').
Qed.

Lemma cached_inv s key r :
  cached s key = Some r ->
  assoc key (clients s) = Some r
  /\ exists i, nth_error (heap s) r = Some i /\ isInitialized i = true.
Proof.
  unfold cached, get. destruct (assoc key (clients s)) as [r' |]; [| discriminate].
  destruct (nth_error (heap s) r') as [i |] eqn:Hi; [| discriminate].
  destruct (isInitialized i) eqn:Hinit; [| discriminate].
  intros [= <-]. eauto.
Qed.

Lemma cached_None_of_no_entry s key :
  assoc key (clients s) = None -> cached s key = None.
Proof. intros H. unfold cached, get. now rewrite H. Qed.

Lemma no_entry_of_cached_None s key :
  entries_ready s -> cached s key = None -> assoc key (clients s) = None.
Proof.
  intros Hready Hc. destruct (assoc key (clients s)) as [r |] eqn:Ha; auto.
  destruct (Hready _ _ Ha) as (i & Hi & Hinit).
  unfold cached, get in Hc. now rewrite Ha, Hi, Hinit in Hc.
Qed.

Section WithEnv.

Variable E : Env.

(** *** The connect-and-load block *)

Lemma connectAndLoad_ok k s toolsResponse :
  connect E (cl k) = None ->
  listTools E (cl k) = inr toolsResponse ->
  connectAndLoad E k s =
    (inr (length (heap s)),
     mkState (assign (cacheKey k) (length (heap s)) (clients s))
       (heap s ++ [mkInstance (cl k) (tr k) (tools_of toolsResponse) true
                     (clock s + stabilize k)])
       (created s) (clock s + stabilize k)
       (trace s ++ [Connect (cl k) (tr k); ListTools (cl k)])).
Proof.
  intros Hc Hl. unfold connectAndLoad, loadToolsForClient, bind, tell, ret.
  rewrite Hc, Hl. unfold set. simpl. now rewrite <- app_assoc.
Qed.

Lemma connectAndLoad_connect_fails k s error :
  connect E (cl k) = Some error ->
  connectAndLoad E k s =
    (inl error,
     mkState (clients s) (heap s) (created s) (clock s)
       (trace s ++
        [Connect (cl k) (tr k);
         Log ("Failed to initialize " ++ label k ++ " MCP client for "
              ++ org k ++ ":") error;
         Close (cl k)])).
Proof.
  intros Hc. unfold connectAndLoad, cleanUpOnFailure, bind, tell, throw.
  rewrite Hc. unfold emit. simpl. now rewrite <- !app_assoc.
Qed.

Lemma connectAndLoad_listTools_fails k s error :
  connect E (cl k) = None ->
  listTools E (cl k) = inl error ->
  connectAndLoad E k s =
    (inl error,
     mkState (clients s) (heap s) (created s) (clock s + stabilize k)
       (trace s ++
        [Connect (cl k) (tr k);
         ListTools (cl k);
         Log "Failed to load tools:" error;
         Log ("Failed to initialize " ++ label k ++ " MCP client for "
              ++ org k ++ ":") error;
         Close (cl k)])).
Proof.
  intros Hc Hl.
  unfold connectAndLoad, loadToolsForClient, cleanUpOnFailure, bind, tell, throw.
  rewrite Hc, Hl. unfold emit. simpl. now rewrite <- !app_assoc.
Qed.

(** A failed creation changes neither the map nor the heap, has connected
    and closed its client once, and rethrows the error that made it fail. *)
Lemma connectAndLoad_fails k s error :
  creation_failure E (cl k) = Some error ->
  exists s' evs,
    connectAndLoad E k s = (inl error, s')
    /\ clients s' = clients s /\ heap s' = heap s /\ created s' = created s
    /\ trace s' = (trace s ++ evs)%list
    /\ connects evs = [cl k] /\ closes evs = [cl k].
Proof.
  unfold creation_failure. intros H.
  destruct (connect E (cl k)) as [e |] eqn:Hc.
  - injection H as ->. do 2 eexists.
    rewrite (connectAndLoad_connect_fails _ _ _ Hc). simpl.
    repeat split; reflexivity.
  - destruct (listTools E (cl k)) as [e | ts] eqn:Hl; [| discriminate].
    injection H as ->. do 2 eexists.
    rewrite (connectAndLoad_listTools_fails _ _ _ Hc Hl). simpl.
    repeat split; reflexivity.
Qed.

Lemma connectAndLoad_inv k s r s' :
  connectAndLoad E k s = (inr r, s') ->
  exists toolsResponse,
    connect E (cl k) = None /\ listTools E (cl k) = inr toolsResponse
    /\ connectAndLoad E k s =
         (inr (length (heap s)),
          mkState (assign (cacheKey k) (length (heap s)) (clients s))
            (heap s ++ [mkInstance (cl k) (tr k) (tools_of toolsResponse) true
                          (clock s + stabilize k)])
            (created s) (clock s + stabilize k)
            (trace s ++ [Connect (cl k) (tr k); ListTools (cl k)])).
Proof.
  intros H.
  destruct (connect E (cl k)) as [e |] eqn:Hc.
  - rewrite (connectAndLoad_connect_fails _ _ _ Hc) in H. discriminate.
  - destruct (listTools E (cl k)) as [e | ts] eqn:Hl.
    + rewrite (connectAndLoad_listTools_fails _ _ _ Hc Hl) in H. discriminate.
    + exists ts. repeat split; auto. now apply connectAndLoad_ok.
Qed.

(** *** Before the [try] *)

Lemma prepare_inv authContext key s k s1 :
  prepare E authContext key s = (inr k, s1) ->
  cacheKey k = key /\ cl k = created s
  /\ s1 = mkState (clients s) (heap s) (S (created s)) (clock s)
            (trace s ++ [NewTransport (tr k)]).
Proof.
  unfold prepare, prepareHttp, prepareStdio.
  destruct (mcpTransportType authContext) as [[|] |]; simpl.
  - intros [= <- <-]. auto.
  - destruct (mcpServerUrl authContext) as [[| a u] |]; try discriminate.
    destruct (URL_valid E (String a u)); try discriminate.
    intros [= <- <-]. auto.
  - intros [= <- <-]. auto.
Qed.

Lemma prepare_fails_frame authContext key s error s1 :
  prepare E authContext key s = (inl error, s1) -> s1 = s.
Proof.
  unfold prepare, prepareHttp, prepareStdio.
  destruct (mcpTransportType authContext) as [[|] |]; simpl; try discriminate.
  destruct (mcpServerUrl authContext) as [[| a u] |];
    try (intros [= _ <-]; reflexivity).
  destruct (URL_valid E (String a u)); [discriminate |].
  now intros [= _ <-].
Qed.

Lemma prepare_ok authContext s :
  enters_creation E authContext s = true ->
  exists k,
    prepare E authContext (generateAuthCacheKey authContext) s =
      (inr k,
       mkState (clients s) (heap s) (S (created s)) (clock s)
         (trace s ++ [NewTransport (tr k)]))
    /\ cacheKey k = generateAuthCacheKey authContext /\ cl k = created s.
Proof.
  unfold enters_creation. intros H.
  apply andb_prop in H as (_ & H).
  destruct (prepare E authContext (generateAuthCacheKey authContext) s)
    as [[error | k] s1] eqn:Hp.
  - exfalso. revert Hp. unfold prepare, prepareHttp, prepareStdio.
    destruct (mcpTransportType authContext) as [[|] |]; simpl; try discriminate.
    destruct (mcpServerUrl authContext) as [[| a u] |]; try discriminate.
    now rewrite H.
  - destruct (prepare_inv _ _ _ _ _ Hp) as (Hk & Hc & ->). eauto.
Qed.

(** *** [getOrCreateClient] *)

Lemma getOrCreateClient_no_org authContext s :
  truthy_str (azureDevOpsOrg authContext) = false ->
  getOrCreateClient E authContext s =
    (inl (Err "Missing required Azure DevOps organization"), s).
Proof. intros H. unfold getOrCreateClient. now rewrite H. Qed.

Lemma getOrCreateClient_hit authContext s r :
  truthy_str (azureDevOpsOrg authContext) = true ->
  cached s (generateAuthCacheKey authContext) = Some r ->
  getOrCreateClient E authContext s = (inr r, touch r s).
Proof. intros Ho Hc. unfold getOrCreateClient. now rewrite Ho, Hc. Qed.

Lemma getOrCreateClient_miss authContext s :
  truthy_str (azureDevOpsOrg authContext) = true ->
  cached s (generateAuthCacheKey authContext) = None ->
  getOrCreateClient E authContext s =
    bind (prepare E authContext (generateAuthCacheKey authContext))
      (connectAndLoad E) s.
Proof.
  intros Ho Hc. unfold getOrCreateClient, prepare, createHttpClient,
    createStdioClient. rewrite Ho, Hc. simpl.
  now destruct (mcpTransportType authContext) as [[|] |].
Qed.

(** The instance a successful call returns is the initialised one the map
    holds under the key of the context. *)
Lemma getOrCreateClient_caches authContext s r s' :
  getOrCreateClient E authContext s = (inr r, s') ->
  cached s' (generateAuthCacheKey authContext) = Some r.
Proof.
  destruct (truthy_str (azureDevOpsOrg authContext)) eqn:Ho.
  2: { rewrite getOrCreateClient_no_org by assumption. discriminate. }
  destruct (cached s (generateAuthCacheKey authContext)) as [r0 |] eqn:Hc.
  - rewrite (getOrCreateClient_hit _ _ _ Ho Hc). intros [= <- <-].
    now rewrite cached_touch.
  - rewrite (getOrCreateClient_miss _ _ Ho Hc). unfold bind.
    destruct (prepare E authContext (generateAuthCacheKey authContext) s)
      as [[error | k] s1] eqn:Hp; [discriminate |].
    destruct (prepare_inv _ _ _ _ _ Hp) as (Hk & _ & _).
    intros H. destruct (connectAndLoad_inv _ _ _ _ H) as (ts & _ & _ & Heq).
    rewrite Heq in H. injection H as <- <-.
    unfold cached, get. simpl.
    now rewrite Hk, assoc_assign_same, nth_error_alloc.
Qed.

Lemma getOrCreateClient_points authContext s r s' :
  getOrCreateClient E authContext s = (inr r, s') ->
  exists i, nth_error (heap s') r = Some i /\ isInitialized i = true.
Proof.
  intros H. apply getOrCreateClient_caches in H.
  now destruct (cached_inv _ _ _ H) as (_ & Hi).
Qed.

Lemma getOrCreateClient_has_org authContext s r s' :
  getOrCreateClient E authContext s = (inr r, s') ->
  truthy_str (azureDevOpsOrg authContext) = true.
Proof.
  destruct (truthy_str (azureDevOpsOrg authContext)) eqn:Ho; auto.
  rewrite getOrCreateClient_no_org by assumption. discriminate.
Qed.

Lemma cached_sleep ms s key : cached (sleep ms s) key = cached s key.
Proof. reflexivity. Qed.

(** A call that finds an initialised instance under its key returns it,
    stamps it with the time of the call, and does nothing else. *)
Lemma cached_call authContext s r :
  truthy_str (azureDevOpsOrg authContext) = true ->
  cached s (generateAuthCacheKey authContext) = Some r ->
  getOrCreateClient E authContext s = (inr r, touch r s)
  /\ trace (touch r s) = trace s
  /\ created (touch r s) = created s
  /\ clients (touch r s) = clients s
  /\ exists i,
       nth_error (heap s) r = Some i
       /\ nth_error (heap (touch r s)) r =
            Some (mkInstance (client i) (transport i) (tools i) true (clock s)).
Proof.
  intros Ho Hc.
  destruct (touch_frame r s) as (Hcl & Hcr & _ & Htr).
  destruct (cached_inv _ _ _ Hc) as (_ & i & Hi & Hinit).
  repeat split; auto using getOrCreateClient_hit.
  exists i. split; auto. rewrite (touch_at _ _ _ Hi). now rewrite Hinit.
Qed.

Lemma enters_creation_inv authContext s :
  enters_creation E authContext s = true ->
  truthy_str (azureDevOpsOrg authContext) = true
  /\ cached s (generateAuthCacheKey authContext) = None.
Proof.
  unfold enters_creation. intros H.
  apply andb_prop in H as (H & _). apply andb_prop in H as (Ho & Hc).
  split; auto. now destruct (cached s (generateAuthCacheKey authContext)).
Qed.

(** A call that gets to the creation constructs one client and connects
    it, whether the creation then succeeds or fails. *)
Lemma creation_connects authContext s :
  enters_creation E authContext s = true ->
  exists res s' evs,
    getOrCreateClient E authContext s = (res, s')
    /\ trace s' = (trace s ++ evs)%list
    /\ connects evs = [created s]
    /\ created s' = S (created s).
Proof.
  intros Hin. destruct (enters_creation_inv _ _ Hin) as (Ho & Hc).
  destruct (prepare_ok _ _ Hin) as (k & Hp & Hk & Hcl).
  rewrite (getOrCreateClient_miss _ _ Ho Hc). unfold bind. rewrite Hp.
  destruct (creation_failure E (cl k)) as [error |] eqn:Hf.
  - destruct (connectAndLoad_fails k
                (mkState (clients s) (heap s) (S (created s)) (clock s)
                   (trace s ++ [NewTransport (tr k)])) error Hf)
      as (s' & evs & -> & _ & _ & Hcr & Htr & Hco & _).
    exists (inl error), s', (NewTransport (tr k) :: evs).
    simpl in *. rewrite Htr, <- app_assoc, Hco, Hcl. auto.
  - unfold creation_failure in Hf.
    destruct (connect E (cl k)) eqn:Hc'; [discriminate |].
    destruct (listTools E (cl k)) as [e | ts] eqn:Hl; [discriminate |].
    rewrite (connectAndLoad_ok _ _ _ Hc' Hl). simpl.
    do 2 eexists.
    exists [NewTransport (tr k); Connect (cl k) (tr k); ListTools (cl k)].
    split; [reflexivity |]. simpl. rewrite <- app_assoc, Hcl. auto.
Qed.

Lemma entries_ready_initial now : entries_ready (initial now).
Proof. intros key r H. discriminate H. Qed.

(** C6: when a call to [getOrCreateClient] has returned an instance, a
    later call (any time [dt] later) with a context that has an organisation
    and the same cache key returns the same instance object, makes no
    connection, handshake or catalogue fetch (the trace and the number of
    clients are unchanged, and so is the map), and sets the [lastUsed] of
    that instance to the time of the call. *)
Theorem getOrCreateClient_twice_same_instance
  (ctx1 ctx2 : AuthenticationContext) (s s1 : State) (r : ref) (dt : Z) :
  getOrCreateClient E ctx1 s = (inr r, s1) ->
  generateAuthCacheKey ctx2 = generateAuthCacheKey ctx1 ->
  truthy_str (azureDevOpsOrg ctx2) = true ->
  exists s2,
    getOrCreateClient E ctx2 (sleep dt s1) = (inr r, s2)
    /\ trace s2 = trace s1
    /\ connects (trace s2) = connects (trace s1)
    /\ catalogFetches (trace s2) = catalogFetches (trace s1)
    /\ created s2 = created s1
    /\ clients s2 = clients s1
    /\ exists i,
         nth_error (heap s1) r = Some i
         /\ nth_error (heap s2) r =
              Some (mkInstance (client i) (transport i) (tools i) true
                      (clock s1 + dt)).
Proof.
  intros H1 Hkey Ho.
  apply getOrCreateClient_caches in H1. rewrite <- Hkey in H1.
  rewrite <- (cached_sleep dt) in H1.
  destruct (cached_call _ _ _ Ho H1) as (Hcall & Htr & Hcr & Hcl & i & Hi & Hi').
  exists (touch r (sleep dt s1)). cbn [sleep trace] in Htr.
  rewrite Htr. repeat split; auto. now exists i.
Qed.

End WithEnv.

Lemma getOrCreateClient_twice_same_instance_witness :
  exists s2,
    getOrCreateClient healthy acme_stdio
      (sleep 5000 (snd (getOrCreateClient healthy acme (initial 0))))
    = (inr 0, s2)
    /\ trace s2 = trace (snd (getOrCreateClient healthy acme (initial 0))).
Proof.
  destruct (getOrCreateClient_twice_same_instance healthy acme acme_stdio
              (initial 0)
              (snd (getOrCreateClient healthy acme (initial 0))) 0 5000)
    as (s2 & H & Ht & _); try reflexivity.
  exists s2. auto.
Defined.



(** C7: when a call gets to the creation of a client and a step of it
    fails (the connection with its handshake, or the fetch of the
    catalogue), the call throws the error of that step, the client has been
    closed, and the map and the instance objects are as before the call,
    with no entry under the key of the context; a following call for the
    same context starts a creation of its own, with a new client. *)
Theorem creation_failure_leaves_no_entry
  (E : Env) (authContext : AuthenticationContext) (s : State) (error : Error) :
  entries_ready s ->
  enters_creation E authContext s = true ->
  creation_failure E (created s) = Some error ->
  exists s' evs,
    getOrCreateClient E authContext s = (inl error, s')
    /\ trace s' = (trace s ++ evs)%list
    /\ connects evs = [created s]
    /\ closes evs = [created s]
    /\ clients s' = clients s
    /\ heap s' = heap s
    /\ assoc (generateAuthCacheKey authContext) (clients s') = None
    /\ enters_creation E authContext s' = true
    /\ exists res s'' evs',
         getOrCreateClient E authContext s' = (res, s'')
         /\ trace s'' = (trace s' ++ evs')%list
         /\ connects evs' = [S (created s)].
Proof.
  intros Hready Hin Hf.
  destruct (enters_creation_inv _ _ _ Hin) as (Ho & Hc).
  destruct (prepare_ok _ _ _ Hin) as (k & Hp & Hk & Hcl).
  rewrite <- Hcl in Hf.
  destruct (connectAndLoad_fails E k
              (mkState (clients s) (heap s) (S (created s)) (clock s)
                 (trace s ++ [NewTransport (tr k)])) error Hf)
    as (s' & evs & Hrun & Hcls & Hheap & Hcr & Htr & Hco & Hclose).
  simpl in Hcls, Hheap, Hcr, Htr.
  assert (Hin' : enters_creation E authContext s' = true).
  { revert Hin. unfold enters_creation, cached, get.
    now rewrite Hcls, Hheap. }
  exists s', (NewTransport (tr k) :: evs).
  rewrite (getOrCreateClient_miss _ _ _ Ho Hc). unfold bind. rewrite Hp, Hrun.
  split; [reflexivity |].
  split; [now rewrite Htr, <- app_assoc |].
  split; [simpl; now rewrite Hco, Hcl |].
  split; [simpl; now rewrite Hclose, Hcl |].
  split; [assumption |]. split; [assumption |].
  split; [rewrite Hcls; now apply no_entry_of_cached_None |].
  split; [assumption |].
  destruct (creation_connects _ _ _ Hin')
    as (res & s'' & evs' & H1 & H2 & H3 & _).
  exists res, s'', evs'. rewrite Hcr in H3. auto.
Qed.

Lemma creation_failure_leaves_no_entry_witness :
  exists s' evs,
    getOrCreateClient flaky acme (initial 0)
    = (inl (Err "spawn npx ENOENT"), s')
    /\ trace s' = (trace (initial 0) ++ evs)%list
    /\ connects evs = [0]
    /\ closes evs = [0]
    /\ clients s' = []
    /\ fst (getOrCreateClient flaky acme s') = inr 0.
Proof.
  destruct (creation_failure_leaves_no_entry flaky acme (initial 0)
              (Err "spawn npx ENOENT") (entries_ready_initial 0)
              eq_refl eq_refl)
    as (s' & evs & Hcall & Htr & Hco & Hcl & Hmap & _).
  exists s', evs. repeat split; auto.
  vm_compute in Hcall. injection Hcall as Hs. subst s'. reflexivity.
Defined.

(** *** Eviction *)

Lemma remove_as_filter {A : Type} (k : string) (l : list (string * A)) :
  remove k l = filter (fun e => negb (String.eqb (fst e) k)) l.
Proof.
  induction l as [| [k' v] rest IH]; simpl; auto.
  destruct (String.eqb k' k); simpl; now rewrite IH.
Qed.

Lemma filter_filter {A : Type} (p q : A -> bool) (l : list A) :
  filter p (filter q l) = filter (fun x => q x && p x) l.
Proof.
  induction l as [| x l IH]; simpl; auto.
  destruct (q x); simpl; [destruct (p x) |]; now rewrite IH.
Qed.

(** Deleting a list of keys one after the other keeps the entries whose
    key is not in the list. *)
Lemma fold_remove {A : Type} (ks : list string) (l : list (string * A)) :
  fold_left (fun m k => remove k m) ks l =
  filter (fun e => negb (existsb (String.eqb (fst e)) ks)) l.
Proof.
  revert l. induction ks as [| k ks IH]; intros l; simpl.
  - induction l as [| x l IHl]; simpl; congruence.
  - rewrite IH, remove_as_filter, filter_filter.
    apply filter_ext. intros e. now rewrite negb_orb.
Qed.

Lemma keys_inj {A : Type} (l : list (string * A)) (k : string) (a b : A) :
  NoDup (map fst l) -> In (k, a) l -> In (k, b) l -> a = b.
Proof.
  induction l as [| [k' v] rest IH]; simpl; [tauto |].
  intros Hnd [Ha | Ha] [Hb | Hb]; inversion Hnd as [| ? ? Hnotin Hnd']; subst.
  - congruence.
  - injection Ha as -> ->. exfalso. apply Hnotin.
    now apply (in_map fst) in Hb.
  - injection Hb as -> ->. exfalso. apply Hnotin.
    now apply (in_map fst) in Ha.
  - auto.
Qed.

Lemma assoc_In {A : Type} (l : list (string * A)) (k : string) (a : A) :
  assoc k l = Some a -> In (k, a) l.
Proof.
  induction l as [| [k' v] rest IH]; simpl; [discriminate |].
  destruct (String.eqb_spec k' k) as [-> | Hne]; auto.
  intros [= ->]. now left.
Qed.

(** With unique keys, the keys of the selected entries select the same
    entries. *)
Lemma selected_keys {A : Type} (p : string * A -> bool) (l : list (string * A))
  (e : string * A) :
  NoDup (map fst l) -> In e l ->
  existsb (String.eqb (fst e)) (map fst (filter p l)) = p e.
Proof.
  intros Hnd Hin. destruct (p e) eqn:Hp.
  - apply existsb_exists. exists (fst e). split; [| apply String.eqb_refl].
    apply in_map, filter_In. auto.
  - destruct (existsb _ _) eqn:Hex; auto.
    apply existsb_exists in Hex as (k & Hk & Heq).
    apply String.eqb_eq in Heq. subst k.
    apply in_map_iff in Hk as ([k' v'] & Hfst & Hin').
    apply filter_In in Hin' as (Hin' & Hp'). simpl in Hfst. subst k'.
    destruct e as [k v]. simpl in *.
    rewrite (keys_inj l k v v' Hnd Hin Hin') in Hp. congruence.
Qed.

Lemma assoc_filter {A : Type} (p : string * A -> bool) (l : list (string * A))
  (k : string) :
  NoDup (map fst l) ->
  assoc k (filter p l) =
    match assoc k l with
    | Some a => if p (k, a) then Some a else None
    | None => None
    end.
Proof.
  induction l as [| [k' v] rest IH]; simpl; auto.
  intros Hnd. inversion Hnd as [| ? ? Hnotin Hnd']; subst.
  destruct (String.eqb_spec k' k) as [-> | Hne].
  - destruct (p (k, v)); simpl; [now rewrite String.eqb_refl |].
    rewrite (IH Hnd'). apply assoc_None_not_in in Hnotin. now rewrite Hnotin.
  - destruct (p (k', v)); simpl; auto.
    destruct (String.eqb_spec k' k); [congruence | auto].
Qed.

Lemma fold_delete (ks : list string) (s : State) :
  fold_left (fun st key => delete key st) ks s =
  mkState (fold_left (fun m k => remove k m) ks (clients s))
    (heap s) (created s) (clock s) (trace s).
Proof.
  revert s. induction ks as [| k ks IH]; intros s; simpl.
  - now destruct s.
  - now rewrite IH.
Qed.

Lemma closeLogging_frame (E : Env) (text : string) (c : client_id) (s : State) :
  closeLogging E text c s =
    mkState (clients s) (heap s) (created s) (clock s)
      (trace s ++ Close c ::
         match close E c with
         | Some error => [Log text error]
         | None => []
         end).
Proof.
  unfold closeLogging, emit. destruct (close E c); cbn [trace clients heap
    created clock]; [now rewrite <- app_assoc | reflexivity].
Qed.

Lemma closes_app (a b : list Event) :
  closes (a ++ b) = (closes a ++ closes b)%list.
Proof. apply flat_map_app. Qed.

Lemma closes_cons (ev : Event) (l : list Event) :
  closes (ev :: l) = (closes [ev] ++ closes l)%list.
Proof. unfold closes. cbn [flat_map]. now rewrite app_nil_r. Qed.

Lemma connects_cons (ev : Event) (l : list Event) :
  connects (ev :: l) = (connects [ev] ++ connects l)%list.
Proof. unfold connects. cbn [flat_map]. now rewrite app_nil_r. Qed.

Lemma connects_app (a b : list Event) :
  connects (a ++ b) = (connects a ++ connects b)%list.
Proof. apply flat_map_app. Qed.

(** The first loop of [cleanupUnusedClients] collects the keys of the idle
    entries, closes their clients in the order of the map, prints the
    failures, and changes nothing but the trace. *)
Lemma sweep_spec (E : Env) (c : Z) (entries : list (string * ref))
  (acc : list string) (s : State) :
  exists evs,
    sweep E (Some c) entries acc s =
      ((acc ++ map fst (filter (idle_since (heap s) c) entries))%list,
       mkState (clients s) (heap s) (created s) (clock s)
         (trace s ++ evs))
    /\ closes evs
       = flat_map (client_of (heap s)) (filter (idle_since (heap s) c) entries)
    /\ connects evs = []
    /\ (forall key r i error,
          In (key, r) entries -> nth_error (heap s) r = Some i ->
          (lastUsed i < c)%Z -> close E (client i) = Some error ->
          In (Log ("Error closing unused client " ++ key ++ ":") error) evs).
Proof.
  revert acc s. induction entries as [| [key r] rest IH]; intros acc s.
  - exists []. cbn [sweep filter map flat_map]. rewrite !app_nil_r.
    destruct s. repeat split; auto; intros ? ? ? ? [].
  - cbn [sweep filter].
    replace (idle_since (heap s) c (key, r))
      with (match nth_error (heap s) r with
            | Some i => (lastUsed i <? c)%Z
            | None => false
            end) by reflexivity.
    destruct (nth_error (heap s) r) as [i |] eqn:Hi.
    + assert (Hcli : client_of (heap s) (key, r) = [client i])
        by (unfold client_of; cbn [snd]; now rewrite Hi).
      cbn [date_lt]. destruct (lastUsed i <? c)%Z eqn:Hlt.
      * destruct (IH (acc ++ [key])%list
                    (closeLogging E ("Error closing unused client " ++ key ++ ":")
                       (client i) s))
          as (evs & Hrun & Hcl & Hco & Hlog).
        rewrite closeLogging_frame in Hrun, Hcl, Hlog.
        cbn [clients heap created clock trace] in Hrun, Hcl, Hlog.
        exists (Close (client i)
                  :: match close E (client i) with
                     | Some error =>
                         [Log ("Error closing unused client " ++ key ++ ":")
                            error]
                     | None => []
                     end ++ evs)%list.
        rewrite closeLogging_frame, Hrun. cbn [map fst flat_map].
        rewrite <- !app_assoc. cbn [app].
        split; [reflexivity |]. split; [| split].
        -- rewrite closes_cons, closes_app, Hcl, Hcli.
           now destruct (close E (client i)).
        -- rewrite connects_cons, connects_app, Hco.
           now destruct (close E (client i)).
        -- intros key' r' i' error' [Heq | Hin] Hi' Hlt' Hclose'.
           ++ injection Heq as <- <-. rewrite Hi in Hi'. injection Hi' as <-.
              rewrite Hclose'. right. now left.
           ++ right. apply in_or_app. right. eapply Hlog; eauto.
      * destruct (IH acc s) as (evs & Hrun & Hcl & Hco & Hlog).
        exists evs. rewrite Hrun. repeat split; auto.
        intros key' r' i' error' [Heq | Hin] Hi' Hlt' Hclose'; eauto.
        injection Heq as <- <-. rewrite Hi in Hi'. injection Hi' as <-.
        apply Z.ltb_ge in Hlt. lia.
    + destruct (IH acc s) as (evs & Hrun & Hcl & Hco & Hlog).
      exists evs. rewrite Hrun. repeat split; auto.
      intros key' r' i' error' [Heq | Hin] Hi' Hlt' Hclose'; eauto.
      injection Heq as <- <-. congruence.
Qed.

Lemma sweep_invalid (E : Env) (entries : list (string * ref))
  (acc : list string) (s : State) :
  sweep E None entries acc s = (acc, s).
Proof.
  revert acc s. induction entries as [| [key r] rest IH]; intros acc s;
    cbn [sweep date_lt]; auto.
  now destruct (nth_error (heap s) r).
Qed.

(** No valid timestamp precedes an instant before the first valid date. *)
Lemma never_idle (s : State) (cutoff : Z) (entry : string * ref) :
  times_valid s -> (cutoff < - maxTime)%Z ->
  idle_since (heap s) cutoff entry = false.
Proof.
  intros (_ & Hheap) Hlow. unfold idle_since.
  destruct (nth_error (heap s) (snd entry)) as [i |] eqn:Hi; auto.
  apply nth_error_In in Hi. rewrite Forall_forall in Hheap.
  specialize (Hheap _ Hi). unfold valid_time in Hheap.
  apply Z.ltb_ge. lia.
Qed.

Lemma filter_all {A : Type} (p : A -> bool) (l : list A) :
  (forall x, p x = true) -> filter p l = l.
Proof.
  intros H. induction l as [| x l IH]; simpl; auto. now rewrite H, IH.
Qed.

Lemma filter_none {A : Type} (p : A -> bool) (l : list A) :
  (forall x, p x = false) -> filter p l = [].
Proof.
  intros H. induction l as [| x l IH]; simpl; auto. now rewrite H.
Qed.

(** What [cleanupUnusedClients] leaves behind. *)
Lemma cleanupUnusedClients_outcome
  (E : Env) (s : State) (maxAgeMinutes : Z) :
  keys_unique s -> times_valid s -> (0 <= maxAgeMinutes)%Z ->
  exists evs,
    cleanupUnusedClients E (Some maxAgeMinutes) s =
      mkState
        (filter (fun entry =>
                   negb (idle_since (heap s)
                           (clock s - maxAgeMinutes * 60 * 1000) entry))
           (clients s))
        (heap s) (created s) (clock s) (trace s ++ evs)
    /\ closes evs
       = flat_map (client_of (heap s))
           (filter (idle_since (heap s) (clock s - maxAgeMinutes * 60 * 1000))
              (clients s))
    /\ connects evs = []
    /\ (forall key r i error,
          In (key, r) (clients s) -> nth_error (heap s) r = Some i ->
          (lastUsed i < clock s - maxAgeMinutes * 60 * 1000)%Z ->
          close E (client i) = Some error ->
          In (Log ("Error closing unused client " ++ key ++ ":") error) evs).
Proof.
  intros Hnd Hvalid Hage.
  unfold cleanupUnusedClients, mkDate.
  destruct (Z.abs (clock s - maxAgeMinutes * 60 * 1000) <=? maxTime)%Z
    eqn:Hrange.
  - destruct (sweep_spec E (clock s - maxAgeMinutes * 60 * 1000)
                (clients s) [] s) as (evs & Hrun & Hcl & Hco & Hlog).
    exists evs. rewrite Hrun, fold_delete.
    cbn [clients heap created clock trace app].
    repeat split; auto. f_equal.
    rewrite fold_remove. apply filter_ext_in. intros e He.
    now rewrite (selected_keys _ _ _ Hnd He).
  - assert (Hlow : (clock s - maxAgeMinutes * 60 * 1000 < - maxTime)%Z).
    { apply Z.leb_gt in Hrange. destruct Hvalid as (Hclock & _).
      unfold valid_time in Hclock. lia. }
    exists []. rewrite sweep_invalid. cbn [fold_left].
    rewrite filter_all, filter_none, app_nil_r
      by (intros e; now rewrite (never_idle s _ e Hvalid Hlow)).
    destruct s. repeat split; auto.
    intros key r i error _ Hi Hlt _. exfalso.
    pose proof (never_idle _ _ (key, r) Hvalid Hlow) as Hn.
    unfold idle_since in Hn. cbn [snd] in Hn. rewrite Hi in Hn.
    apply Z.ltb_ge in Hn. lia.
Qed.

(** C8: [cleanupUnusedClients(maxAgeMinutes)], for a non-negative whole
    number of minutes, run on a map with unique keys at a valid time,
    closes and removes exactly the instances last used before the cutoff
    [now - maxAgeMinutes] (in milliseconds): the map keeps the other
    entries, in order and referring to the same unchanged objects; the
    clients closed are those of the removed entries; a failing close is
    printed and changes neither what is removed nor what is closed
    afterwards. *)
Theorem cleanupUnusedClients_removes_idle
  (E : Env) (s : State) (maxAgeMinutes : Z) :
  keys_unique s ->
  times_valid s ->
  (0 <= maxAgeMinutes)%Z ->
  exists evs,
    let cutoff := (clock s - maxAgeMinutes * 60 * 1000)%Z in
    let s' := cleanupUnusedClients E (Some maxAgeMinutes) s in
    clients s'
    = filter (fun entry => negb (idle_since (heap s) cutoff entry)) (clients s)
    /\ heap s' = heap s
    /\ trace s' = (trace s ++ evs)%list
    /\ closes evs
       = flat_map (client_of (heap s))
           (filter (idle_since (heap s) cutoff) (clients s))
    /\ connects evs = []
    /\ (forall key r i error,
          In (key, r) (clients s) -> nth_error (heap s) r = Some i ->
          (lastUsed i < cutoff)%Z -> close E (client i) = Some error ->
          In (Log ("Error closing unused client " ++ key ++ ":") error) evs)
    /\ (forall key r i,
          assoc key (clients s) = Some r -> nth_error (heap s) r = Some i ->
          ((lastUsed i < cutoff)%Z ->
             assoc key (clients s') = None /\ In (client i) (closes evs))
          /\ ((cutoff <= lastUsed i)%Z ->
              assoc key (clients s') = Some r
              /\ nth_error (heap s') r = Some i)).
Proof.
  intros Hnd Hvalid Hage.
  destruct (cleanupUnusedClients_outcome E s maxAgeMinutes Hnd Hvalid Hage)
    as (evs & Hs' & Hcl & Hco & Hlog).
  exists evs. cbv zeta. rewrite Hs'. cbn [clients heap trace].
  repeat (split; [assumption || reflexivity |]).
  intros key r i Ha Hi. rewrite (assoc_filter _ _ _ Hnd), Ha.
  unfold idle_since at 1 2. cbn [snd]. rewrite Hi.
  split; intros Hlt.
  - apply Z.ltb_lt in Hlt. rewrite Hlt. split; [reflexivity |].
    rewrite Hcl. apply in_flat_map. exists (key, r). split.
    + apply filter_In. split; [now apply assoc_In |].
      unfold idle_since. cbn [snd]. now rewrite Hi.
    + unfold client_of. cbn [snd]. rewrite Hi. now left.
  - apply Z.ltb_ge in Hlt. now rewrite Hlt.
Qed.

(** Without an argument the age is 30 minutes. *)
Lemma cleanupUnusedClients_default (E : Env) (s : State) :
  cleanupUnusedClients E None s = cleanupUnusedClients E (Some 30%Z) s.
Proof. reflexivity. Qed.

Lemma two_instances_idle :
  map (fun i => (clock two_instances - lastUsed i)%Z) (heap two_instances)
  = [(31 * minute)%Z; (10 * minute)%Z].
Proof. vm_compute. reflexivity. Qed.

Lemma keys_two_instances :
  clients two_instances = [("old|stdio|", 0); ("young|stdio|", 1)].
Proof. vm_compute. reflexivity. Qed.

Lemma keys_unique_two_instances : keys_unique two_instances.
Proof.
  unfold keys_unique, keys. rewrite keys_two_instances.
  repeat constructor; simpl; intuition discriminate.
Qed.

Lemma times_two_instances :
  clock two_instances = (31 * minute + 2000)%Z
  /\ map lastUsed (heap two_instances) = [2000%Z; (21 * minute + 2000)%Z].
Proof. split; vm_compute; reflexivity. Qed.

Lemma times_valid_two_instances : times_valid two_instances.
Proof.
  destruct times_two_instances as (Hclock & Hheap).
  split; [rewrite Hclock | apply Forall_map; rewrite Hheap; repeat constructor];
    unfold valid_time; vm_compute; discriminate.
Qed.

Lemma cleanupUnusedClients_removes_idle_witness :
  clients two_instances = [("old|stdio|", 0); ("young|stdio|", 1)]
  /\ clients (cleanupUnusedClients unclosable (Some 30%Z) two_instances)
     = [("young|stdio|", 1)]
  /\ heap (cleanupUnusedClients unclosable (Some 30%Z) two_instances)
     = heap two_instances
  /\ exists evs,
       trace (cleanupUnusedClients unclosable (Some 30%Z) two_instances)
       = (trace two_instances ++ evs)%list
       /\ closes evs = [0]
       /\ In (Log "Error closing unused client old|stdio|:"
                (Err "Not connected")) evs.
Proof.
  split; [exact keys_two_instances |].
  destruct (cleanupUnusedClients_removes_idle unclosable two_instances 30
              keys_unique_two_instances times_valid_two_instances)
    as (evs & Hmap & Hheap & Htr & Hcl & _ & Hlog & _).
  - lia.
  - cbv zeta in *. split; [rewrite Hmap; vm_compute; reflexivity |].
    split; [exact Hheap |]. exists evs. split; [exact Htr |].
    split; [rewrite Hcl; vm_compute; reflexivity |].
    eapply (Hlog "old|stdio|" 0).
    + rewrite keys_two_instances. now left.
    + cbv. reflexivity.
    + cbv. reflexivity.
    + reflexivity.
Defined.

(** *** What holds in every reachable state *)

Lemma entries_ready_frame s s' :
  clients s' = clients s -> heap s' = heap s ->
  entries_ready s -> entries_ready s'.
Proof. unfold entries_ready. intros -> ->. auto. Qed.

Lemma keys_unique_frame s s' :
  clients s' = clients s -> keys_unique s -> keys_unique s'.
Proof. unfold keys_unique, keys. now intros ->. Qed.

Lemma entries_ready_touch r s : entries_ready s -> entries_ready (touch r s).
Proof.
  intros H key r' Ha. destruct (touch_frame r s) as (Hcl & _).
  rewrite Hcl in Ha. destruct (H _ _ Ha) as (i & Hi & Hinit).
  destruct (Nat.eq_dec r r') as [<- | Hne].
  - rewrite (touch_at _ _ _ Hi). eauto.
  - rewrite (touch_elsewhere _ _ _ Hne). eauto.
Qed.

Lemma keys_unique_touch r s : keys_unique s -> keys_unique (touch r s).
Proof. apply keys_unique_frame. apply touch_frame. Qed.

Lemma entries_ready_insert key i s :
  isInitialized i = true ->
  entries_ready s ->
  entries_ready (set key (length (heap s)) (snd (alloc i s))).
Proof.
  intros Hinit H key' r Ha. cbn in Ha |- *.
  destruct (String.eqb_spec key' key) as [-> | Hne].
  - rewrite assoc_assign_same in Ha. injection Ha as <-.
    exists i. split; [apply nth_error_alloc | assumption].
  - rewrite assoc_assign_other in Ha by assumption.
    destruct (H _ _ Ha) as (i' & Hi' & Hinit').
    exists i'. split; [now apply nth_error_old | assumption].
Qed.

Lemma keys_unique_assign {A : Type} key (x : A) (l : list (string * A)) :
  NoDup (map fst l) -> NoDup (map fst (assign key x l)).
Proof.
  intros H. rewrite keys_assign. destruct (assoc key l) eqn:Ha; auto.
  apply NoDup_app; auto.
  - repeat constructor. intros [].
  - intros k Hin [<- | []]. now apply assoc_None_not_in in Ha.
Qed.

Lemma keys_filter {A : Type} (p : string * A -> bool) (l : list (string * A)) :
  NoDup (map fst l) -> NoDup (map fst (filter p l)).
Proof.
  induction l as [| [k v] rest IH]; simpl; auto.
  intros H. inversion H as [| ? ? Hnotin Hnd]; subst.
  destruct (p (k, v)); simpl; auto. constructor; auto.
  intros Hin. apply Hnotin. apply in_map_iff in Hin as (e & He & Hin).
  apply filter_In in Hin as (Hin & _). rewrite <- He. now apply in_map.
Qed.

Lemma invariant_frame s s' :
  clients s' = clients s -> heap s' = heap s -> invariant s -> invariant s'.
Proof.
  intros Hc Hh (H1 & H2).
  split; [eapply entries_ready_frame | eapply keys_unique_frame]; eauto.
Qed.

Lemma invariant_insert key i s :
  isInitialized i = true -> invariant s ->
  invariant (set key (length (heap s)) (snd (alloc i s))).
Proof.
  intros Hinit (H1 & H2). split; [now apply entries_ready_insert |].
  unfold keys_unique, keys. cbn. now apply keys_unique_assign.
Qed.

Lemma invariant_filter (p : string * ref -> bool) s s' :
  clients s' = filter p (clients s) -> heap s' = heap s ->
  invariant s -> invariant s'.
Proof.
  intros Hc Hh (H1 & H2). split.
  - intros key r Ha. rewrite Hc, (assoc_filter _ _ _ H2) in Ha. rewrite Hh.
    destruct (assoc key (clients s)) as [r' |] eqn:Ha'; [| discriminate].
    destruct (p (key, r')); [| discriminate]. injection Ha as <-. eauto.
  - unfold keys_unique, keys. rewrite Hc. now apply keys_filter.
Qed.

Lemma step_invariant (E : Env) (t : Task) (s : State) :
  invariant s -> invariant (snd (step E t s)).
Proof.
  intros H. destruct t as [authContext | k | k | k | error | result]; simpl.
  - destruct (truthy_str (azureDevOpsOrg authContext)); simpl; auto.
    destruct (cached s (generateAuthCacheKey authContext)) as [r |]; simpl.
    + destruct H. split; [now apply entries_ready_touch
                         | now apply keys_unique_touch].
    + destruct (prepare E authContext (generateAuthCacheKey authContext) s)
        as [[error | k] s1] eqn:Hp; simpl.
      * now rewrite (prepare_fails_frame _ _ _ _ _ _ Hp).
      * destruct (prepare_inv _ _ _ _ _ _ Hp) as (_ & _ & ->).
        now apply (invariant_frame s).
  - destruct (connect E (cl k)); simpl; assumption.
  - assumption.
  - destruct (listTools E (cl k)) as [error | ts]; simpl.
    + assumption.
    + now apply invariant_insert.
  - assumption.
  - assumption.
Qed.

Lemma complete_invariant (E : Env) (n : nat) (t : Task) (s : State) :
  invariant s -> invariant (snd (complete E n t s)).
Proof.
  revert t s. induction n as [| n IH]; intros t s H; simpl; auto.
  destruct (step E t s) as [t' s'] eqn:Hs. apply IH.
  change s' with (snd (t', s')). rewrite <- Hs. now apply step_invariant.
Qed.

(** A call of [getOrCreateClient] that is not overtaken is the task run
    alone until it settles, which takes at most five steps. *)
Lemma complete_getOrCreateClient (E : Env) authContext s :
  complete E 5 (Called authContext) s =
    (Settled (fst (getOrCreateClient E authContext s)),
     snd (getOrCreateClient E authContext s)).
Proof.
  destruct (truthy_str (azureDevOpsOrg authContext)) eqn:Ho.
  2: { rewrite getOrCreateClient_no_org by assumption. simpl.
       now rewrite Ho. }
  destruct (cached s (generateAuthCacheKey authContext)) as [r |] eqn:Hc.
  { rewrite (getOrCreateClient_hit _ _ _ _ Ho Hc). simpl.
    now rewrite Ho, Hc. }
  rewrite (getOrCreateClient_miss _ _ _ Ho Hc). unfold bind.
  cbn [complete step]. rewrite Ho, Hc. cbn [negb].
  destruct (prepare E authContext (generateAuthCacheKey authContext) s)
    as [[error | k] s1]; [reflexivity |].
  destruct (connect E (cl k)) as [error |] eqn:Hco.
  { rewrite (connectAndLoad_connect_fails _ _ _ _ Hco).
    cbn [step]. rewrite Hco. cbn [step].
    unfold cleanUpOnFailure, bind, tell, throw, emit.
    cbn [fst snd trace clients heap created clock].
    now rewrite <- !app_assoc. }
  destruct (listTools E (cl k)) as [error | ts] eqn:Hl.
  { rewrite (connectAndLoad_listTools_fails _ _ _ _ Hco Hl).
    cbn [step]. rewrite Hco. cbn [step]. rewrite Hl. cbn [step].
    unfold cleanUpOnFailure, bind, tell, throw, emit, sleep.
    cbn [fst snd trace clients heap created clock].
    now rewrite <- !app_assoc. }
  rewrite (connectAndLoad_ok _ _ _ _ Hco Hl).
  cbn [step]. rewrite Hco. cbn [step]. rewrite Hl.
  unfold alloc, set, emit, sleep.
  cbn [step fst snd trace clients heap created clock].
  now rewrite <- !app_assoc.
Qed.

Lemma getOrCreateClient_invariant (E : Env) authContext s :
  invariant s -> invariant (snd (getOrCreateClient E authContext s)).
Proof.
  intros H.
  change (snd (getOrCreateClient E authContext s))
    with (snd (Settled (fst (getOrCreateClient E authContext s)),
               snd (getOrCreateClient E authContext s))).
  rewrite <- complete_getOrCreateClient. now apply complete_invariant.
Qed.

Lemma callTool_invariant (E : Env) tool arguments_ authContext s :
  invariant s -> invariant (snd (callTool E tool arguments_ authContext s)).
Proof.
  intros H. destruct authContext as [ctx |]; simpl; auto.
  unfold bind. pose proof (getOrCreateClient_invariant E ctx s H) as H'.
  destruct (getOrCreateClient E ctx s) as [[error | r] s1]; simpl in *; auto.
  destruct (nth_error (heap s1) r); simpl; assumption.
Qed.

Lemma sweep_frame (E : Env) cutoffTime entries acc s :
  clients (snd (sweep E cutoffTime entries acc s)) = clients s
  /\ heap (snd (sweep E cutoffTime entries acc s)) = heap s.
Proof.
  revert acc s. induction entries as [| [key r] rest IH]; intros acc s;
    cbn [sweep]; auto.
  destruct (nth_error (heap s) r) as [i |]; auto.
  destruct (date_lt (lastUsed i) cutoffTime); auto.
  destruct (IH (acc ++ [key])%list
              (closeLogging E ("Error closing unused client " ++ key ++ ":")
                 (client i) s)) as (H1 & H2).
  rewrite H1, H2, closeLogging_frame. auto.
Qed.

(** The sweep only ever drops entries of the map. *)
Lemma cleanupUnusedClients_keeps (E : Env) maxAgeMinutes s :
  exists p,
    clients (cleanupUnusedClients E maxAgeMinutes s) = filter p (clients s)
    /\ heap (cleanupUnusedClients E maxAgeMinutes s) = heap s.
Proof.
  unfold cleanupUnusedClients.
  destruct (sweep_frame E
              (mkDate (clock s
                       - match maxAgeMinutes with Some m => m | None => 30 end
                         * 60 * 1000))
              (clients s) [] s) as (H1 & H2).
  destruct (sweep _ _ _ _ _) as [ks s1]. cbn [snd] in H1, H2.
  rewrite fold_delete. cbn [clients heap].
  rewrite fold_remove, H1. eauto.
Qed.

Lemma cleanupUnusedClients_invariant (E : Env) maxAgeMinutes s :
  invariant s -> invariant (cleanupUnusedClients E maxAgeMinutes s).
Proof.
  intros H.
  destruct (cleanupUnusedClients_keeps E maxAgeMinutes s) as (p & Hc & Hh).
  now apply (invariant_filter p s).
Qed.

Lemma cleanup_invariant (E : Env) s : invariant (cleanup E s).
Proof.
  split.
  - intros key r Ha. discriminate Ha.
  - constructor.
Qed.

(** In every reachable state the map has unique keys and refers only to
    initialised instance objects. *)
Lemma reachable_invariant (E : Env) s : reachable E s -> invariant s.
Proof.
  induction 1.
  - split; [apply entries_ready_initial | constructor].
  - assumption.
  - now apply step_invariant.
  - now apply getOrCreateClient_invariant.
  - now apply callTool_invariant.
  - now apply cleanupUnusedClients_invariant.
  - apply cleanup_invariant.
Qed.

(** *** Where the keys of the map come from *)

Lemma enters_creation_validated (E : Env) authContext s :
  enters_creation E authContext s = true -> validated E authContext = true.
Proof.
  unfold enters_creation, validated. intros H.
  apply andb_prop in H as (H & Hu). apply andb_prop in H as (Ho & _).
  now rewrite Ho, Hu.
Qed.

Lemma prepare_validated (E : Env) authContext key s k s1 :
  truthy_str (azureDevOpsOrg authContext) = true ->
  prepare E authContext key s = (inr k, s1) ->
  validated E authContext = true.
Proof.
  intros Ho. unfold validated, prepare, prepareHttp. rewrite Ho.
  destruct (mcpTransportType authContext) as [[|] |]; auto.
  destruct (mcpServerUrl authContext) as [[| a u] |]; try discriminate.
  now destruct (URL_valid E (String a u)).
Qed.

Lemma step_in_flight (E : Env) (t : Task) (s : State) :
  in_flight E t -> in_flight E (fst (step E t s)).
Proof.
  destruct t as [authContext | k | k | k | error | result]; cbn [step];
    intros H.
  - destruct (truthy_str (azureDevOpsOrg authContext)) eqn:Ho;
      cbn [negb fst]; [| exact I].
    destruct (cached s (generateAuthCacheKey authContext)); [exact I |].
    destruct (prepare E authContext (generateAuthCacheKey authContext) s)
      as [[error | k] s1] eqn:Hp; [exact I |].
    cbn [fst in_flight]. exists authContext. split.
    + eapply prepare_validated; eauto.
    + now destruct (prepare_inv _ _ _ _ _ _ Hp).
  - now destruct (connect E (cl k)).
  - exact H.
  - destruct (listTools E (cl k)); exact I.
  - exact I.
  - exact I.
Qed.

Lemma keys_validated_frame (E : Env) s s' :
  clients s' = clients s -> keys_validated E s -> keys_validated E s'.
Proof. unfold keys_validated, keys. now intros ->. Qed.

Lemma keys_validated_set (E : Env) key r s :
  (exists authContext,
     validated E authContext = true
     /\ key = generateAuthCacheKey authContext) ->
  keys_validated E s -> keys_validated E (set key r s).
Proof.
  intros Hkey H key' Hin. unfold keys in Hin. cbn [set clients] in Hin.
  rewrite keys_assign in Hin.
  destruct (assoc key (clients s)); [now apply H |].
  apply in_app_or in Hin as [Hin | [<- | []]]; [now apply H | assumption].
Qed.

Lemma keys_validated_filter (E : Env) (p : string * ref -> bool) s s' :
  clients s' = filter p (clients s) ->
  keys_validated E s -> keys_validated E s'.
Proof.
  intros Hc H key Hin. apply H. unfold keys in *. rewrite Hc in Hin.
  apply in_map_iff in Hin as (e & <- & Hin).
  apply filter_In in Hin as (Hin & _). now apply in_map.
Qed.

Lemma step_keys_validated (E : Env) (t : Task) (s : State) :
  in_flight E t -> keys_validated E s ->
  keys_validated E (snd (step E t s)).
Proof.
  intros Hwf H.
  destruct t as [authContext | k | k | k | error | result]; cbn [step].
  - destruct (truthy_str (azureDevOpsOrg authContext)); cbn [negb snd]; auto.
    destruct (cached s (generateAuthCacheKey authContext)) as [r |].
    + apply (keys_validated_frame E s); auto. apply touch_frame.
    + destruct (prepare E authContext (generateAuthCacheKey authContext) s)
        as [[error | k] s1] eqn:Hp; cbn [snd].
      * now rewrite (prepare_fails_frame _ _ _ _ _ _ Hp).
      * destruct (prepare_inv _ _ _ _ _ _ Hp) as (_ & _ & ->).
        now apply (keys_validated_frame E s).
  - destruct (connect E (cl k)); cbn [snd]; auto.
  - exact H.
  - destruct (listTools E (cl k)) as [error | ts]; cbn [snd alloc].
    + exact H.
    + destruct Hwf as (ctx & Hv & Hk).
      apply keys_validated_set; [rewrite Hk; eauto |].
      now apply (keys_validated_frame E s).
  - exact H.
  - exact H.
Qed.

Lemma complete_keys_validated (E : Env) (n : nat) (t : Task) (s : State) :
  in_flight E t -> keys_validated E s ->
  keys_validated E (snd (complete E n t s)).
Proof.
  revert t s. induction n as [| n IH]; intros t s Hwf H; cbn [complete]; auto.
  pose proof (step_in_flight E t s Hwf) as Hwf'.
  pose proof (step_keys_validated E t s Hwf H) as H'.
  destruct (step E t s) as [t' s']. now apply IH.
Qed.

Lemma getOrCreateClient_keys_validated (E : Env) authContext s :
  keys_validated E s ->
  keys_validated E (snd (getOrCreateClient E authContext s)).
Proof.
  intros H.
  change (snd (getOrCreateClient E authContext s))
    with (snd (Settled (fst (getOrCreateClient E authContext s)),
               snd (getOrCreateClient E authContext s))).
  rewrite <- complete_getOrCreateClient.
  now apply complete_keys_validated.
Qed.

Lemma callTool_keys_validated (E : Env) tool arguments_ authContext s :
  keys_validated E s ->
  keys_validated E (snd (callTool E tool arguments_ authContext s)).
Proof.
  intros H. destruct authContext as [ctx |]; simpl; auto.
  unfold bind. pose proof (getOrCreateClient_keys_validated E ctx s H) as H'.
  destruct (getOrCreateClient E ctx s) as [[error | r] s1]; simpl in *; auto.
  destruct (nth_error (heap s1) r); simpl; assumption.
Qed.

(** In every reachable state each key of the map is the cache key of a
    context that passed the checks. *)
Lemma reachable_keys_validated (E : Env) s :
  reachable E s -> keys_validated E s.
Proof.
  induction 1.
  - intros key [].
  - assumption.
  - now apply step_keys_validated.
  - now apply getOrCreateClient_keys_validated.
  - now apply callTool_keys_validated.
  - destruct (cleanupUnusedClients_keeps E maxAgeMinutes s) as (p & Hc & _).
    now apply (keys_validated_filter E p s).
  - intros key [].
Qed.

(** *** Cache keys of organisations without the separator *)

Lemma key_shape authContext :
  generateAuthCacheKey authContext =
    org_of authContext
    ++ String "|"
         (match mcpTransportType authContext with
          | Some t => transport_name t
          | None => "stdio"
          end ++ String "|" (str_or (mcpServerUrl authContext) EmptyString)).
Proof. reflexivity. Qed.

(** Two texts that agree up to their first separator, one of them known
    to have none before it, split in the same place, or the other one has
    its separator later. *)
Lemma first_bar (a a' x x' : string) :
  no_bar a = true ->
  a ++ String "|" x = a' ++ String "|" x' ->
  (a' = a /\ x' = x)
  \/ exists y, a' = a ++ String "|" y /\ x = y ++ String "|" x'.
Proof.
  revert a'. induction a as [| c a IH]; intros a' Hnb Heq.
  - destruct a' as [| c' a']; cbn [append] in Heq.
    + injection Heq as ->. now left.
    + injection Heq as <- ->. right. now exists a'.
  - cbn [no_bar] in Hnb. apply andb_prop in Hnb as (Hc & Hnb).
    destruct a' as [| c' a']; cbn [append] in Heq.
    + injection Heq as -> _. discriminate Hc.
    + injection Heq as <- Heq.
      destruct (IH a' Hnb Heq) as [(-> & ->) | (y & -> & ->)].
      * now left.
      * right. now exists y.
Qed.

Ltac peel y H :=
  destruct y as [| ? y]; cbn [append] in H;
  [try discriminate H | injection H as _ H].

(** The cache key of an http context without a URL, for an organisation
    without separator, is the key of no context that passes the checks. *)
Lemma no_collision (E : Env) (ctx ctx' : AuthenticationContext) :
  no_bar (org_of ctx) = true ->
  mcpTransportType ctx = Some http ->
  truthy_str (mcpServerUrl ctx) = false ->
  validated E ctx' = true ->
  generateAuthCacheKey ctx' <> generateAuthCacheKey ctx.
Proof.
  intros Hnb Ht Hu Hv Heq. rewrite !key_shape, Ht in Heq.
  replace (str_or (mcpServerUrl ctx) EmptyString) with EmptyString in Heq
    by (now destruct (mcpServerUrl ctx) as [[|] |]).
  symmetry in Heq. apply first_bar in Heq; [| assumption].
  unfold validated in Hv. apply andb_prop in Hv as (_ & Hv).
  destruct Heq as [(_ & Hx) | (y & _ & Hx)].
  - destruct (mcpTransportType ctx') as [[|] |]; try discriminate Hx.
    destruct (mcpServerUrl ctx') as [[| a u] |]; discriminate.
  - cbn [transport_name append] in Hx.
    peel y Hx. peel y Hx. peel y Hx. peel y Hx.
    destruct y as [| ? y]; cbn [append] in Hx.
    + injection Hx as Hx.
      destruct (mcpTransportType ctx') as [[|] |]; discriminate Hx.
    + injection Hx as _ Hx. destruct y; discriminate Hx.
Qed.

(** In a reachable state no instance is cached under such a key. *)
Lemma bar_free_not_cached (E : Env) (ctx : AuthenticationContext) (s : State) :
  reachable E s ->
  no_bar (org_of ctx) = true ->
  mcpTransportType ctx = Some http ->
  truthy_str (mcpServerUrl ctx) = false ->
  cached s (generateAuthCacheKey ctx) = None.
Proof.
  intros Hr Hnb Ht Hu.
  destruct (cached s (generateAuthCacheKey ctx)) as [r |] eqn:Hc; auto.
  exfalso. apply cached_inv in Hc as (Ha & _).
  apply assoc_In, (in_map fst) in Ha.
  destruct (reachable_keys_validated E s Hr _ Ha) as (ctx' & Hv & Hk).
  now apply (no_collision E ctx ctx' Hnb Ht Hu Hv).
Qed.

(** Where the validation of C9 holds: [getOrCreateClient] throws "Missing
    required Azure DevOps organization" whenever the organisation is absent
    (or empty), and throws "MCP server URL is required for HTTP transport"
    whenever the transport type is http, the server URL is absent (or
    empty) and the map holds no initialised instance under the cache key
    of the context, which is so in every reachable state when the
    organisation contains no [|]; in both cases nothing has been
    constructed, connected or changed when it throws: the state, with its
    map and its trace, is the one before the call. *)
Theorem getOrCreateClient_validation
  (E : Env) (authContext : AuthenticationContext) (s : State) :
  (truthy_str (azureDevOpsOrg authContext) = false ->
     getOrCreateClient E authContext s
     = (inl (Err "Missing required Azure DevOps organization"), s))
  /\ (truthy_str (azureDevOpsOrg authContext) = true ->
      mcpTransportType authContext = Some http ->
      truthy_str (mcpServerUrl authContext) = false ->
      cached s (generateAuthCacheKey authContext) = None ->
      getOrCreateClient E authContext s
      = (inl (Err "MCP server URL is required for HTTP transport"), s))
  /\ (truthy_str (azureDevOpsOrg authContext) = true ->
      mcpTransportType authContext = Some http ->
      truthy_str (mcpServerUrl authContext) = false ->
      no_bar (org_of authContext) = true ->
      reachable E s ->
      getOrCreateClient E authContext s
      = (inl (Err "MCP server URL is required for HTTP transport"), s)).
Proof.
  assert (Hmiss :
    truthy_str (azureDevOpsOrg authContext) = true ->
    mcpTransportType authContext = Some http ->
    truthy_str (mcpServerUrl authContext) = false ->
    cached s (generateAuthCacheKey authContext) = None ->
    getOrCreateClient E authContext s
    = (inl (Err "MCP server URL is required for HTTP transport"), s)).
  { intros Ho Ht Hu Hc. rewrite (getOrCreateClient_miss _ _ _ Ho Hc).
    unfold bind, prepare, prepareHttp. rewrite Ht.
    now destruct (mcpServerUrl authContext) as [[| a u] |]. }
  split; [apply getOrCreateClient_no_org |]. split; [exact Hmiss |].
  intros Ho Ht Hu Hnb Hr. apply Hmiss; auto.
  now apply (bar_free_not_cached E).
Qed.

Lemma getOrCreateClient_validation_witness :
  getOrCreateClient healthy no_org (initial 0)
  = (inl (Err "Missing required Azure DevOps organization"), initial 0)
  /\ getOrCreateClient healthy acme_http_no_url (initial 0)
     = (inl (Err "MCP server URL is required for HTTP transport"), initial 0).
Proof.
  split.
  - apply (getOrCreateClient_validation healthy no_org (initial 0)).
    reflexivity.
  - apply (getOrCreateClient_validation healthy acme_http_no_url (initial 0));
      solve [reflexivity | apply reach_initial].
Defined.


(** Tasks interleaved in any order keep the invariant. *)
Lemma run_invariant (E : Env) schedule tasks s :
  invariant s -> invariant (snd (run E schedule tasks s)).
Proof.
  revert tasks s. induction schedule as [| i rest IH]; intros tasks s H;
    cbn [run]; auto.
  destruct (nth_error tasks i) as [t |]; auto.
  destruct (step E t s) as [t' s'] eqn:Hs. apply IH.
  change s' with (snd (t', s')). rewrite <- Hs. now apply step_invariant.
Qed.

(** The first step of a call that gets to the creation: a client is
    constructed and its connection is started. *)
Lemma step_Called_creates (E : Env) authContext s :
  enters_creation E authContext s = true ->
  exists k,
    step E (Called authContext) s =
      (Connecting k,
       mkState (clients s) (heap s) (S (created s)) (clock s)
         (trace s ++ [NewTransport (tr k); Connect (cl k) (tr k)]))
    /\ cacheKey k = generateAuthCacheKey authContext
    /\ cl k = created s.
Proof.
  intros Hin. destruct (enters_creation_inv _ _ _ Hin) as (Ho & Hc).
  destruct (prepare_ok _ _ _ Hin) as (k & Hp & Hk & Hcl).
  exists k. cbn [step]. rewrite Ho, Hc, Hp. cbn [negb].
  unfold emit. cbn [trace clients heap created clock].
  now rewrite <- app_assoc.
Qed.

(** C4 (as amended): in every state the manager can reach, with calls in
    flight interleaved in any order, the map holds at most one entry per
    cache key.  Creation is not single-flight: when two calls whose
    contexts have the same cache key are issued one after the other while
    no initialised instance is cached under that key, the second while the
    creation of the first is in flight, each constructs a client of its own
    and starts a connection of its own. *)
Theorem map_keys_unique_no_single_flight (E : Env) :
  (forall now schedule tasks,
     keys_unique (snd (run E schedule tasks (initial now))))
  /\ (forall s, reachable E s -> keys_unique s)
  /\ (forall ctx1 ctx2 s,
        enters_creation E ctx1 s = true ->
        enters_creation E ctx2 s = true ->
        generateAuthCacheKey ctx1 = generateAuthCacheKey ctx2 ->
        exists k1 k2 s' evs,
          run E [0; 1] [Called ctx1; Called ctx2] s
          = ([Connecting k1; Connecting k2], s')
          /\ cacheKey k1 = cacheKey k2
          /\ cl k1 = created s /\ cl k2 = S (created s)
          /\ trace s' = (trace s ++ evs)%list
          /\ connects evs = [created s; S (created s)]).
Proof.
  split; [| split].
  - intros now schedule tasks.
    apply (run_invariant E), (reachable_invariant E), reach_initial.
  - intros s H. now apply (reachable_invariant E).
  - intros ctx1 ctx2 s H1 H2 Hkey.
    destruct (step_Called_creates E ctx1 s H1) as (k1 & Hs1 & Hk1 & Hc1).
    assert (H2' : enters_creation E ctx2
                    (mkState (clients s) (heap s) (S (created s)) (clock s)
                       (trace s ++ [NewTransport (tr k1);
                                    Connect (cl k1) (tr k1)])) = true)
      by exact H2.
    destruct (step_Called_creates E ctx2 _ H2') as (k2 & Hs2 & Hk2 & Hc2).
    exists k1, k2. do 2 eexists.
    cbn [run nth_error]. rewrite Hs1. cbn [update nth_error]. rewrite Hs2.
    cbn [update trace]. split; [reflexivity |].
    rewrite <- app_assoc. cbn [created] in Hc2.
    split; [congruence |]. split; [assumption |]. split; [assumption |].
    split; [reflexivity |]. cbn. now rewrite Hc1, Hc2.
Qed.

Lemma map_keys_unique_no_single_flight_witness :
  exists k1 k2 s' evs,
    run healthy [0; 1] [Called acme; Called acme_stdio] (initial 0)
    = ([Connecting k1; Connecting k2], s')
    /\ cacheKey k1 = cacheKey k2
    /\ cl k1 = 0 /\ cl k2 = 1
    /\ trace s' = evs
    /\ connects evs = [0; 1].
Proof.
  destruct (map_keys_unique_no_single_flight healthy) as (_ & _ & H).
  exact (H acme acme_stdio (initial 0) eq_refl eq_refl eq_refl).
Defined.

(** C4 (as stated) fails: two calls with contexts of the same cache key,
    the second issued while the first is connecting, start two connections;
    run to the end they make two instance objects, each call returns its
    own, and the map keeps the one made last. *)
Lemma second_call_starts_second_connection :
  generateAuthCacheKey acme = generateAuthCacheKey acme_stdio
  /\ (exists k,
        fst (run healthy [0] [Called acme; Called acme_stdio] (initial 0))
        = [Connecting k; Called acme_stdio])
  /\ connects
       (trace (snd (run healthy [0; 1] [Called acme; Called acme_stdio]
                      (initial 0))))
     = [0; 1]
  /\ fst (run healthy [0; 1; 0; 0; 0; 1; 1; 1]
            [Called acme; Called acme_stdio] (initial 0))
     = [Settled (inr 0); Settled (inr 1)]
  /\ length (heap (snd (run healthy [0; 1; 0; 0; 0; 1; 1; 1]
                          [Called acme; Called acme_stdio] (initial 0))))
     = 2
  /\ clients (snd (run healthy [0; 1; 0; 0; 0; 1; 1; 1]
                     [Called acme; Called acme_stdio] (initial 0)))
     = [("acme|stdio|", 1)].
Proof.
  split; [reflexivity |]. split; [eexists; reflexivity |].
  repeat split; reflexivity.
Qed.

(** *** Tool calls *)

(** C5 (as amended): [callTool(name, args, ctx)] throws when it is given no
    context.  With a context it obtains the instance from
    [getOrCreateClient]: an error thrown there is rethrown; with an
    initialised instance cached under the key of the context it invokes the
    tool on the client of that instance; with none cached it creates one,
    connecting a new client, and invokes the tool on it.  In both cases it
    does not consult the catalogue: for every tool name the result is what
    the backend answers to the call. *)
Theorem callTool_obtains_instance_and_calls
  (E : Env) (tool : string) (arguments_ : option json)
  (authContext : AuthenticationContext) (s : State) :
  callTool E tool arguments_ None s = (inl (Err contextRequired), s)
  /\ (forall error s',
        getOrCreateClient E authContext s = (inl error, s') ->
        callTool E tool arguments_ (Some authContext) s = (inl error, s'))
  /\ (forall r,
        truthy_str (azureDevOpsOrg authContext) = true ->
        cached s (generateAuthCacheKey authContext) = Some r ->
        exists i,
          nth_error (heap s) r = Some i
          /\ callTool E tool arguments_ (Some authContext) s
             = (callTool_result E (client i) tool (argumentsOrEmpty arguments_),
                emit (CallTool (client i) tool (argumentsOrEmpty arguments_))
                  (touch r s)))
  /\ (enters_creation E authContext s = true ->
      creation_failure E (created s) = None ->
      exists s1 evs,
        getOrCreateClient E authContext s = (inr (length (heap s)), s1)
        /\ trace s1 = (trace s ++ evs)%list
        /\ connects evs = [created s]
        /\ callTool E tool arguments_ (Some authContext) s
           = (callTool_result E (created s) tool (argumentsOrEmpty arguments_),
              emit (CallTool (created s) tool (argumentsOrEmpty arguments_))
                s1)).
Proof.
  split; [reflexivity |]. split; [| split].
  - intros error s' H. unfold callTool, bind. now rewrite H.
  - intros r Ho Hc.
    destruct (cached_call E _ _ _ Ho Hc) as (Hcall & _ & _ & _ & i & Hi & Hi').
    exists i. split; [assumption |].
    unfold callTool, bind. now rewrite Hcall, Hi'.
  - intros Hin Hf.
    destruct (enters_creation_inv _ _ _ Hin) as (Ho & Hc).
    destruct (prepare_ok _ _ _ Hin) as (k & Hp & Hk & Hcl).
    rewrite <- Hcl in Hf. unfold creation_failure in Hf.
    destruct (connect E (cl k)) eqn:Hco; [discriminate |].
    destruct (listTools E (cl k)) as [e | ts] eqn:Hl; [discriminate |].
    assert (Hcall : getOrCreateClient E authContext s =
              connectAndLoad E k
                (mkState (clients s) (heap s) (S (created s)) (clock s)
                   (trace s ++ [NewTransport (tr k)]))).
    { rewrite (getOrCreateClient_miss _ _ _ Ho Hc). unfold bind.
      now rewrite Hp. }
    rewrite (connectAndLoad_ok _ _ _ _ Hco Hl) in Hcall.
    cbn [clients heap created clock trace] in Hcall.
    do 2 eexists. split; [exact Hcall |].
    split; [cbn [trace]; rewrite <- app_assoc; reflexivity |].
    split; [cbn; now rewrite Hcl |].
    unfold callTool, bind. rewrite Hcall. cbn [heap].
    rewrite nth_error_alloc. cbn [client]. now rewrite Hcl.
Qed.

Lemma callTool_obtains_instance_and_calls_witness :
  exists s1 evs,
    getOrCreateClient healthy acme (initial 0) = (inr 0, s1)
    /\ trace s1 = evs
    /\ connects evs = [0]
    /\ callTool healthy "core_list_projects" None (Some acme) (initial 0)
       = (inr (JStr "done"),
          emit (CallTool 0 "core_list_projects" (JObj [])) s1).
Proof.
  destruct (callTool_obtains_instance_and_calls healthy "core_list_projects"
              None acme (initial 0)) as (_ & _ & _ & H).
  exact (H eq_refl eq_refl).
Defined.

(** C5 (as stated) fails: with an empty pool, a call of a tool that is in
    no catalogue does not fail; it creates and connects a client and
    returns what the backend answers.  Called again, with the instance now
    cached and the name absent from its catalogue, it returns the answer
    of the backend again. *)
Lemma callTool_creates_and_ignores_catalogue :
  cached (initial 0) (generateAuthCacheKey acme) = None
  /\ isReady (Some acme) (initial 0) = false
  /\ fst (callTool healthy "no_such_tool" None (Some acme) (initial 0))
     = inr (JStr "done")
  /\ connects
       (trace (snd (callTool healthy "no_such_tool" None (Some acme)
                      (initial 0))))
     = [0]
  /\ isReady (Some acme)
       (snd (callTool healthy "no_such_tool" None (Some acme) (initial 0)))
     = true
  /\ getTool "no_such_tool" (Some acme)
       (snd (callTool healthy "no_such_tool" None (Some acme) (initial 0)))
     = None
  /\ fst (callTool healthy "no_such_tool" None (Some acme)
            (snd (callTool healthy "no_such_tool" None (Some acme)
                    (initial 0))))
     = inr (JStr "done").
Proof. repeat split; reflexivity. Qed.

End PoolFacts.

(* ===================================================================== *)
(** ** Facts about the stdin handler *)
(* ===================================================================== *)

Module StdinFacts.
Import Js Relay Stdin.

Lemma length_append (a b : string) :
  String.length (a ++ b) = String.length a + String.length b.
Proof. induction a as [| c a IH]; simpl; [reflexivity | now rewrite IH]. Qed.

Lemma append_assoc (a b c : string) : (a ++ b) ++ c = a ++ (b ++ c).
Proof. induction a as [| x a IH]; simpl; [reflexivity | now rewrite IH]. Qed.

Lemma append_empty (a : string) : a ++ EmptyString = a.
Proof. induction a as [| x a IH]; simpl; [reflexivity | now rewrite IH]. Qed.

Lemma indexOf_free c s : indexOf c s = None <-> free_of c s = true.
Proof.
  induction s as [| a r IH]; simpl; [tauto |].
  destruct (Ascii.eqb a c); simpl.
  - split; discriminate.
  - destruct (indexOf c r); [split; [discriminate | ] | tauto].
    intros H. apply IH in H. discriminate.
Qed.

Lemma indexOf_bound c s i : indexOf c s = Some i -> i < String.length s.
Proof.
  revert i; induction s as [| a r IH]; simpl; intros i H; [discriminate |].
  destruct (Ascii.eqb a c).
  - injection H as <-. lia.
  - destruct (indexOf c r) as [j |]; [| discriminate].
    injection H as <-. specialize (IH j eq_refl). lia.
Qed.

Lemma sliceFrom_length n s :
  String.length (sliceFrom n s) = String.length s - n.
Proof.
  revert s; induction n as [| n IH]; intros [| a r]; simpl;
    try reflexivity; try lia.
  apply IH.
Qed.

(** The text before the first newline holds no newline. *)
Lemma sliceTo_free c s i : indexOf c s = Some i -> free_of c (sliceTo i s) = true.
Proof.
  revert i; induction s as [| a r IH]; simpl; intros i H; [discriminate |].
  destruct (Ascii.eqb a c) eqn:Hac.
  - injection H as <-. reflexivity.
  - destruct (indexOf c r) as [j |]; [| discriminate].
    injection H as <-. simpl. rewrite Hac. simpl. now apply IH.
Qed.

Lemma indexOf_append_found c a b i :
  indexOf c a = Some i -> indexOf c (a ++ b) = Some i.
Proof.
  revert i; induction a as [| x a IH]; simpl; intros i H; [discriminate |].
  destruct (Ascii.eqb x c); [exact H |].
  destruct (indexOf c a) as [j |]; [| discriminate].
  now rewrite (IH j eq_refl).
Qed.

Lemma sliceTo_append c a b i :
  indexOf c a = Some i -> sliceTo i (a ++ b) = sliceTo i a.
Proof.
  revert i; induction a as [| x a IH]; simpl; intros i H; [discriminate |].
  destruct (Ascii.eqb x c).
  - injection H as <-. reflexivity.
  - destruct (indexOf c a) as [j |]; [| discriminate].
    injection H as <-. simpl. now rewrite (IH j eq_refl).
Qed.

Lemma sliceFrom_append c a b i :
  indexOf c a = Some i -> sliceFrom (i + 1) (a ++ b) = sliceFrom (i + 1) a ++ b.
Proof.
  revert i; induction a as [| x a IH]; simpl; intros i H; [discriminate |].
  destruct (Ascii.eqb x c).
  - injection H as <-. reflexivity.
  - destruct (indexOf c a) as [j |]; [| discriminate].
    injection H as <-. simpl. now rewrite (IH j eq_refl).
Qed.

(** More rounds than the buffer has characters change nothing. *)
Lemma drain_fuel fuel s :
  String.length s <= fuel -> drain fuel s = drain (String.length s) s.
Proof.
  remember (String.length s) as n eqn:Hn.
  revert fuel s Hn.
  induction n as [n IH] using lt_wf_ind; intros fuel s Hn Hle.
  destruct fuel as [| fuel].
  - assert (n = 0) by lia. subst n. now rewrite H.
  - destruct n as [| n].
    + destruct s; [reflexivity | discriminate].
    + cbn [drain]. destruct (indexOf newline s) as [i |] eqn:Hi; [| reflexivity].
      pose proof (indexOf_bound _ _ _ Hi) as Hb.
      pose proof (sliceFrom_length (i + 1) s) as Hl.
      set (rest := sliceFrom (i + 1) s) in *.
      rewrite (IH (String.length rest) ltac:(lia) fuel rest eq_refl ltac:(lia)).
      rewrite (IH (String.length rest) ltac:(lia) n rest eq_refl ltac:(lia)).
      reflexivity.
Qed.

(** One round of the loop, for the whole buffer. *)
Lemma drain_round s i :
  indexOf newline s = Some i ->
  drain (String.length s) s =
    let messageText := trim (sliceTo i s) in
    let rest := sliceFrom (i + 1) s in
    (if is_empty messageText
     then fst (drain (String.length rest) rest)
     else messageText :: fst (drain (String.length rest) rest),
     snd (drain (String.length rest) rest)).
Proof.
  intros Hi. pose proof (indexOf_bound _ _ _ Hi) as Hb.
  destruct (String.length s) as [| n] eqn:Hn; [lia |].
  cbn [drain]. rewrite Hi.
  pose proof (sliceFrom_length (i + 1) s) as Hl.
  rewrite (drain_fuel n (sliceFrom (i + 1) s)) by lia.
  cbv zeta. destruct (drain _ (sliceFrom (i + 1) s)). reflexivity.
Qed.

Lemma drain_done s :
  indexOf newline s = None -> drain (String.length s) s = ([], s).
Proof.
  intros Hi. destruct (String.length s); cbn [drain]; [| rewrite Hi]; reflexivity.
Qed.

(** Draining [a ++ b] is draining [a] and then what [a] left followed by
    [b]. *)
Lemma drain_append a b :
  drain (String.length (a ++ b)) (a ++ b) =
    let done := drain (String.length a) a in
    let more := drain (String.length (snd done ++ b)) (snd done ++ b) in
    ((fst done ++ fst more)%list, snd more).
Proof.
  remember (String.length a) as n eqn:Hn. revert a Hn.
  induction n as [n IH] using lt_wf_ind; intros a Hn. subst n. cbv zeta.
  destruct (indexOf newline a) as [i |] eqn:Hi.
  - rewrite (drain_round (a ++ b) i (indexOf_append_found _ _ _ _ Hi)).
    rewrite (drain_round a i Hi). cbv zeta.
    rewrite (sliceTo_append _ _ _ _ Hi), (sliceFrom_append _ _ _ _ Hi).
    pose proof (indexOf_bound _ _ _ Hi) as Hb.
    pose proof (sliceFrom_length (i + 1) a) as Hl.
    set (rest := sliceFrom (i + 1) a) in *.
    rewrite (IH (String.length rest) ltac:(lia) rest eq_refl). cbv zeta.
    cbn [fst snd]. destruct (is_empty (trim (sliceTo i a))); reflexivity.
  - rewrite (drain_done a Hi). cbn [fst snd app].
    destruct (drain (String.length (a ++ b)) (a ++ b)). reflexivity.
Qed.

Lemma trimStart_free c s : free_of c s = true -> free_of c (trimStart s) = true.
Proof.
  induction s as [| a r IH]; simpl; [reflexivity |].
  intros H. destruct (is_space a); [| exact H].
  apply andb_prop in H. now apply IH.
Qed.

Lemma trimEnd_free c s : free_of c s = true -> free_of c (trimEnd s) = true.
Proof.
  induction s as [| a r IH]; simpl; [reflexivity |].
  intros H. apply andb_prop in H as [Ha Hr]. specialize (IH Hr).
  destruct (trimEnd r) as [| b r'].
  - destruct (is_space a); simpl; [reflexivity | now rewrite Ha].
  - simpl in *. now rewrite Ha, IH.
Qed.

Lemma trimStart_first s a :
  first_char (trimStart s) = Some a -> is_space a = false.
Proof.
  induction s as [| b r IH]; simpl; [discriminate |].
  destruct (is_space b) eqn:Hb; [exact IH |].
  simpl. intros H. injection H as <-. exact Hb.
Qed.

Lemma trimEnd_first s a :
  first_char s = Some a -> is_space a = false ->
  first_char (trimEnd s) = Some a.
Proof.
  destruct s as [| b r]; simpl; [discriminate |].
  intros H Ha. injection H as ->.
  destruct (trimEnd r); [rewrite Ha |]; reflexivity.
Qed.

Lemma trimEnd_first_inv s a :
  first_char (trimEnd s) = Some a -> first_char s = Some a.
Proof.
  destruct s as [| b r]; simpl; [discriminate |].
  destruct (trimEnd r); [destruct (is_space b); [discriminate |] |]; trivial.
Qed.

Lemma trimEnd_last s a : last_char (trimEnd s) = Some a -> is_space a = false.
Proof.
  induction s as [| b r IH]; simpl; [discriminate |].
  destruct (trimEnd r) as [| c r'] eqn:Hr.
  - destruct (is_space b) eqn:Hb; simpl; [discriminate |].
    intros H. injection H as <-. exact Hb.
  - intros H. apply IH. exact H.
Qed.

(** A trimmed text that is not empty is framed, if it held no newline. *)
Lemma trim_framed s :
  free_of newline s = true -> is_empty (trim s) = false -> framed (trim s).
Proof.
  intros Hfree Hne. unfold framed, trim in *. repeat split.
  - exact Hne.
  - intros a Ha. apply trimEnd_first_inv in Ha.
    now apply trimStart_first in Ha.
  - intros a Ha. now apply trimEnd_last in Ha.
  - now apply trimEnd_free, trimStart_free.
Qed.

Lemma drain_framed s :
  Forall framed (fst (drain (String.length s) s))
  /\ free_of newline (snd (drain (String.length s) s)) = true.
Proof.
  remember (String.length s) as n eqn:Hn. revert s Hn.
  induction n as [n IH] using lt_wf_ind; intros s Hn. subst n.
  destruct (indexOf newline s) as [i |] eqn:Hi.
  - rewrite (drain_round s i Hi). cbv zeta. cbn [fst snd].
    pose proof (indexOf_bound _ _ _ Hi) as Hb.
    pose proof (sliceFrom_length (i + 1) s) as Hl.
    destruct (IH (String.length (sliceFrom (i + 1) s)) ltac:(lia) _ eq_refl)
      as [Hall Hrest].
    split; [| exact Hrest].
    destruct (is_empty (trim (sliceTo i s))) eqn:Hne; [exact Hall |].
    constructor; [| exact Hall].
    apply trim_framed; [now apply (sliceTo_free newline) | exact Hne].
  - rewrite (drain_done s Hi). cbn [fst snd]. split; [constructor |].
    now apply indexOf_free.
Qed.

Lemma handleData_rest messageBuffer data :
  indexOf newline (snd (handleData messageBuffer data)) = None.
Proof.
  unfold handleData. cbv zeta.
  destruct (drain_framed (messageBuffer ++ data)) as [_ H].
  now apply indexOf_free.
Qed.

(** X1: the stdin handler hands [processMessage] only framed texts (not
    empty, no white space at either end, no newline inside), and the buffer
    it keeps holds no newline: the loop has run until no complete line was
    left, whatever the buffer and the chunk were. *)
Theorem handleData_frames (messageBuffer data : string) :
  Forall framed (fst (handleData messageBuffer data))
  /\ indexOf newline (snd (handleData messageBuffer data)) = None.
Proof.
  unfold handleData. cbv zeta.
  destruct (drain_framed (messageBuffer ++ data)) as [H1 H2].
  split; [exact H1 | now apply indexOf_free].
Qed.

Lemma handleData_append messageBuffer d1 d2 :
  handleData messageBuffer (d1 ++ d2) =
    let done := handleData messageBuffer d1 in
    let more := handleData (snd done) d2 in
    ((fst done ++ fst more)%list, snd more).
Proof.
  unfold handleData. cbv zeta.
  rewrite <- append_assoc. apply drain_append.
Qed.

Lemma handleData_empty messageBuffer :
  indexOf newline messageBuffer = None ->
  handleData messageBuffer EmptyString = ([], messageBuffer).
Proof.
  intros H. unfold handleData. cbv zeta. rewrite append_empty.
  now apply drain_done.
Qed.

(** X2: how the input is cut into chunks does not matter: feeding the
    chunks one by one hands over the same texts, and leaves the same
    buffer, as feeding their concatenation at once. *)
Theorem handleChunks_concat (messageBuffer : string) (chunks : list string) :
  indexOf newline messageBuffer = None ->
  handleChunks messageBuffer chunks
  = handleData messageBuffer (String.concat EmptyString chunks).
Proof.
  revert messageBuffer.
  assert (Hcat : forall d ds,
             String.concat EmptyString (d :: ds)
             = d ++ String.concat EmptyString ds).
  { intros d [| d' ds]; simpl; [now rewrite append_empty | reflexivity]. }
  induction chunks as [| d ds IH]; intros messageBuffer Hb.
  - simpl. symmetry. now apply handleData_empty.
  - rewrite Hcat, handleData_append. cbn [handleChunks]. cbv zeta.
    pose proof (handleData_rest messageBuffer d) as Hrest.
    destruct (handleData messageBuffer d) as [t1 b1]. cbn [fst snd] in *.
    rewrite (IH b1 Hrest).
    destruct (handleData b1 (String.concat EmptyString ds)). reflexivity.
Qed.

Lemma handleChunks_concat_witness :
  handleChunks "{a"
    [String "}" (String newline " "); String newline "b";
     String " " (String newline "c")]
  = (["{a}"; "b"], "c").
Proof.
  rewrite (handleChunks_concat "{a"
             [String "}" (String newline " "); String newline "b";
              String " " (String newline "c")] eq_refl).
  vm_compute. reflexivity.
Defined.

(** X3: a chunk without a newline is only buffered: nothing is handed to
    [processMessage], however long the buffer grows. *)
Theorem handleData_buffers_partial_line (messageBuffer data : string) :
  indexOf newline messageBuffer = None ->
  indexOf newline data = None ->
  handleData messageBuffer data = ([], messageBuffer ++ data).
Proof.
  intros Hb Hd. unfold handleData. cbv zeta. apply drain_done.
  apply indexOf_free. apply indexOf_free in Hb, Hd.
  induction messageBuffer as [| a r IH]; simpl in *; [exact Hd |].
  apply andb_prop in Hb as [Ha Hr]. rewrite Ha. simpl. now apply IH.
Qed.

Lemma handleData_buffers_partial_line_witness :
  handleData "{a" "}" = ([], "{a}").
Proof.
  apply (handleData_buffers_partial_line "{a" "}"); reflexivity.
Defined.

Lemma split_without c s : indexOf c s = None -> split c s = [s].
Proof.
  induction s as [| a r IH]; cbn [indexOf split]; [reflexivity |].
  destruct (Ascii.eqb a c); [discriminate |].
  destruct (indexOf c r); [discriminate |].
  intros _. now rewrite IH.
Qed.

Lemma split_at c s i :
  indexOf c s = Some i ->
  split c s = sliceTo i s :: split c (sliceFrom (i + 1) s).
Proof.
  revert i; induction s as [| a r IH]; cbn [indexOf split]; intros i H;
    [discriminate |].
  destruct (Ascii.eqb a c).
  - injection H as <-. reflexivity.
  - destruct (indexOf c r) as [j |]; [| discriminate].
    injection H as <-. now rewrite (IH j eq_refl).
Qed.

Lemma split_not_nil c s : split c s <> [].
Proof.
  destruct s as [| a r]; cbn [split]; [discriminate |].
  destruct (Ascii.eqb a c); [discriminate |].
  destruct (split c r); discriminate.
Qed.

Lemma drain_split s :
  drain (String.length s) s
  = (filter (fun t => negb (is_empty t))
       (map trim (removelast (split newline s))),
     last (split newline s) EmptyString).
Proof.
  remember (String.length s) as n eqn:Hn. revert s Hn.
  induction n as [n IH] using lt_wf_ind; intros s Hn. subst n.
  destruct (indexOf newline s) as [i |] eqn:Hi.
  - rewrite (drain_round s i Hi), (split_at _ _ _ Hi). cbv zeta.
    pose proof (indexOf_bound _ _ _ Hi) as Hb.
    pose proof (sliceFrom_length (i + 1) s) as Hl.
    rewrite (IH (String.length (sliceFrom (i + 1) s)) ltac:(lia) _ eq_refl).
    cbn [fst snd].
    pose proof (split_not_nil newline (sliceFrom (i + 1) s)) as Hne.
    destruct (split newline (sliceFrom (i + 1) s)) as [| w ws] eqn:Hs;
      [congruence |].
    cbn [removelast last map filter].
    now destruct (is_empty (trim (sliceTo i s))).
  - rewrite (drain_done s Hi), (split_without _ _ Hi). reflexivity.
Qed.

(** X4: the loop of the stdin handler cuts the buffered input at its
    newlines: the texts it hands over are the pieces before each newline,
    trimmed, the empty ones left out, and the buffer it keeps is the piece
    after the last newline. *)
Theorem handleData_splits_lines (messageBuffer data : string) :
  handleData messageBuffer data
  = (filter (fun t => negb (is_empty t))
       (map trim (removelast (split newline (messageBuffer ++ data)))),
     last (split newline (messageBuffer ++ data)) EmptyString)
  /\ handleData messageBuffer data = onData messageBuffer data.
Proof.
  unfold handleData, onData. cbv zeta. rewrite drain_split. split; reflexivity.
Qed.

End StdinFacts.

(* ===================================================================== *)
(** ** Further facts about the relay: documents that are not objects *)
(* ===================================================================== *)

Module RelayEdgeFacts.
Import Js Relay Vocabulary Samples JsFacts RelayFacts.

Lemma getProp_scalar_or_array v k :
  scalar_or_array v = true -> getProp v k = inr None.
Proof. destruct v; simpl; intros H; try discriminate; reflexivity. Qed.

Lemma stamp_scalar_or_array v id :
  scalar_or_array v = true -> stamp v id = inr v.
Proof. destruct v; simpl; intros H; try discriminate; reflexivity. Qed.

Lemma onResponse_parsed JSON_parse id responseData :
  whitespace_only responseData = false ->
  onResponse JSON_parse (Some id) (Answered responseData) =
    match JSON_parse responseData with
    | inl parseError =>
        [Line (errorResponse id (-32700)
                 ("Invalid JSON response: " ++ parseError))]
    | inr response =>
        match stamp response id with
        | inl typeError =>
            [Line (errorResponse id (-32700)
                     ("Invalid JSON response: " ++ typeError))]
        | inr response' => [Line response']
        end
    end.
Proof.
  intros Hw. unfold onResponse.
  rewrite blank_iff_whitespace_only, Hw. reflexivity.
Qed.



(** X6: the message [null] is valid JSON, but reading its [id] throws: it
    is answered at once like a syntax error, with code -32700 and id
    [null], and nothing is posted to the backend. *)
Theorem relay_null_message_rejected
  (JSON_parse : string -> string + json)
  (messageText : string) (ev : http_event) :
  JSON_parse messageText = inr JNull ->
  forwarded JSON_parse messageText = None
  /\ relay JSON_parse messageText ev
     = [Line (errorResponse JNull (-32700)
                "Invalid JSON request: Cannot read properties of null (reading 'id')")].
Proof.
  intros Hp. unfold forwarded, relay, processMessage. rewrite Hp.
  split; reflexivity.
Qed.

Lemma relay_null_message_rejected_witness :
  forwarded (JSON_parse_on [("null", JNull)]) "null" = None
  /\ relay (JSON_parse_on [("null", JNull)]) "null" RequestTimeout
     = [Line (errorResponse JNull (-32700)
                "Invalid JSON request: Cannot read properties of null (reading 'id')")].
Proof.
  apply (relay_null_message_rejected (JSON_parse_on [("null", JNull)]) "null").
  reflexivity.
Defined.

Lemma response_id_serialised_scalar_or_array v :
  scalar_or_array v = true -> response_id (serialised v) = None.
Proof.
  destruct v; cbn [scalar_or_array serialised]; intros H;
    try discriminate; try reflexivity.
  destruct (PrimFloat.is_finite n); [| reflexivity].
  now destruct (PrimFloat.eqb n 0).
Qed.

(** X7: when the backend's body parses to a number, a string, a boolean or
    an array, the relay hands that document back to [JSON.stringify] as it
    is, so the line written carries no [id]; when it parses to [null], the
    request gets an error with code -32700 and its own [id], written as
    [JSON.stringify] writes it: unchanged when it is null, a string or a
    finite number other than negative zero. *)
Theorem relay_non_object_body
  (JSON_parse : string -> string + json)
  (messageText responseData : string) (message id response : json) :
  JSON_parse messageText = inr message ->
  getProp message "id" = inr (Some id) ->
  whitespace_only responseData = false ->
  JSON_parse responseData = inr response ->
  (scalar_or_array response = true ->
     relay JSON_parse messageText (ResponseEnd responseData) = [Line response]
     /\ response_id response = None
     /\ map written (relay JSON_parse messageText (ResponseEnd responseData))
        = [serialised response]
     /\ response_id (serialised response) = None)
  /\ (response = JNull ->
      map written (relay JSON_parse messageText (ResponseEnd responseData))
      = [errorResponse (serialised id) (-32700)
           "Invalid JSON response: Cannot read properties of null (reading 'jsonrpc')"]
      /\ (plain id -> serialised id = id)).
Proof.
  intros Hp Hid Hw Hr.
  rewrite (relay_forwarded JSON_parse _ _ _ _ Hp Hid).
  cbn [sendToServer snd invokes]. rewrite (onResponse_parsed _ _ _ Hw), Hr.
  split.
  - intros Hs. rewrite (stamp_scalar_or_array _ _ Hs).
    split; [reflexivity |].
    split; [unfold response_id; now rewrite (getProp_scalar_or_array _ _ Hs) |].
    split; [reflexivity |].
    now apply response_id_serialised_scalar_or_array.
  - intros ->. split; [| apply serialised_plain].
    cbn [stamp getProp map]. now rewrite written_errorResponse.
Qed.

Lemma relay_non_object_body_witness :
  relay sample_parse request_text (ResponseEnd "5") = [Line (JNum 5)]
  /\ response_id (JNum 5) = None
  /\ map written (relay sample_parse request_text (ResponseEnd "5"))
     = [JNum 5]
  /\ response_id (JNum 5) = None.
Proof.
  apply (relay_non_object_body sample_parse request_text "5" request_doc
           (JNum 7) (JNum 5)); reflexivity.
Defined.

(** X30: a request the backend leaves unanswered gets two error lines.
    The handler of [timeout] destroys the request before it reports
    [Timeout] to the callback, the destroyed request then emits [error],
    and the handler of [error] reports [socket hang up] to the callback as
    well: two lines with code -32603 and the request's [id], in this
    order.  A notification gets no line, and so does any message whose
    response breaks off before its end or whose script exits first. *)
Theorem relayed_timeout_two_lines
  (JSON_parse : string -> string + json)
  (messageText : string) (message : json) (requestId : option json) :
  JSON_parse messageText = inr message ->
  getProp message "id" = inr requestId ->
  reports (snd (sendToServer message)) Idles
  = [RequestTimeout; RequestError "socket hang up"]
  /\ relayed JSON_parse messageText Idles
     = relayAll JSON_parse messageText
         [RequestTimeout; RequestError "socket hang up"]
  /\ map written (relayed JSON_parse messageText Idles)
     = match requestId with
       | Some id =>
           [errorResponse (serialised id) (-32603) "Timeout";
            errorResponse (serialised id) (-32603) "socket hang up"]
       | None => []
       end
  /\ relayed JSON_parse messageText Breaks = []
  /\ relayed JSON_parse messageText Abandoned = [].
Proof.
  intros Hp Hid. split; [reflexivity |].
  unfold relayed, relayAll.
  rewrite (processMessage_forwards JSON_parse _ _ _ Hp Hid).
  split; [reflexivity |]. split; [| split; reflexivity].
  cbn [sendToServer snd reports destroys invokes flat_map socketHangUp].
  destruct requestId as [id |]; [| reflexivity].
  rewrite app_nil_r, map_app, !written_failure. reflexivity.
Qed.

Lemma relayed_timeout_two_lines_witness :
  reports (snd (sendToServer request_doc)) Idles
  = [RequestTimeout; RequestError "socket hang up"]
  /\ relayed sample_parse request_text Idles
     = relayAll sample_parse request_text
         [RequestTimeout; RequestError "socket hang up"]
  /\ map written (relayed sample_parse request_text Idles)
     = [errorResponse (JNum 7) (-32603) "Timeout";
        errorResponse (JNum 7) (-32603) "socket hang up"]
  /\ relayed sample_parse request_text Breaks = []
  /\ relayed sample_parse request_text Abandoned = [].
Proof.
  apply (relayed_timeout_two_lines sample_parse request_text request_doc
           (Some (JNum 7))); reflexivity.
Defined.

End RelayEdgeFacts.

(* ===================================================================== *)
(** ** Further facts about the client pool *)
(* ===================================================================== *)

Module PoolLifecycleFacts.
Import Js Auth Pool Vocabulary Samples JsFacts PoolFacts.

Lemma get_of_cached s key r :
  cached s key = Some r ->
  exists i, get s key = Some (r, i) /\ nth_error (heap s) r = Some i
            /\ isInitialized i = true.
Proof.
  intros H. destruct (cached_inv s key r H) as [Ha (i & Hn & Hi)].
  exists i. unfold get. rewrite Ha, Hn. auto.
Qed.

Lemma ready_after E authContext s s' r :
  getOrCreateClient E authContext s = (inr r, s') ->
  isReady (Some authContext) s' = true
  /\ exists i,
       nth_error (heap s') r = Some i
       /\ getTools (Some authContext) s' = tools i.
Proof.
  intros H. apply getOrCreateClient_caches in H.
  destruct (get_of_cached _ _ _ H) as (i & Hg & Hn & Hi).
  unfold getTools, isReady. rewrite Hg. split; [exact Hi |].
  exists i. split; auto.
Qed.

(** X8: whenever [getOrCreateClient] returns an instance, the context is
    ready at once: [isReady] is true, [getTools] is the catalogue of the
    returned instance and [getTool] finds a tool in it by its name. *)
Theorem getOrCreateClient_then_ready
  (E : Env) (authContext : AuthenticationContext) (s s' : State) (r : ref) :
  getOrCreateClient E authContext s = (inr r, s') ->
  isReady (Some authContext) s' = true
  /\ exists i,
       nth_error (heap s') r = Some i
       /\ getTools (Some authContext) s' = tools i
       /\ forall n,
            getTool n (Some authContext) s'
            = find (fun t => String.eqb (name t) n) (tools i).
Proof.
  intros H. destruct (ready_after E _ _ _ _ H) as [Hr (i & Hn & Ht)].
  split; [exact Hr |]. exists i. repeat split; auto.
  intros n. unfold getTool. now rewrite Ht.
Qed.

Lemma getOrCreateClient_then_ready_witness :
  isReady (Some acme) (snd (getOrCreateClient healthy acme (initial 0))) = true.
Proof.
  apply (getOrCreateClient_then_ready healthy acme (initial 0) _ 0).
  reflexivity.
Defined.

Lemma stabilize_of_prepare E authContext key s k s1 :
  prepare E authContext key s = (inr k, s1) ->
  stabilize k = match mcpTransportType authContext with
                | Some http => 1000%Z
                | _ => 2000%Z
                end.
Proof.
  unfold prepare, prepareHttp, prepareStdio.
  destruct (mcpTransportType authContext) as [[|] |].
  - intros H. injection H as <- _. reflexivity.
  - destruct (mcpServerUrl authContext) as [[| a u] |]; try discriminate.
    destruct (URL_valid E (String a u)); [| discriminate].
    intros H. injection H as <- _. reflexivity.
  - intros H. injection H as <- _. reflexivity.
Qed.

(** X9: a creation that succeeds caches the catalogue the backend sent, as
    it is (the empty catalogue when the answer has no [tools]), after one
    connection and one catalogue request of one new client and no close;
    it takes the stabilisation delay, 2 s for stdio and 1 s for http, and
    the instance is stamped with the time at its end. *)
Theorem creation_caches_catalogue
  (E : Env) (authContext : AuthenticationContext) (s : State)
  (toolsResponse : option (list MCPTool)) :
  enters_creation E authContext s = true ->
  connect E (created s) = None ->
  listTools E (created s) = inr toolsResponse ->
  exists s' t evs,
    getOrCreateClient E authContext s = (inr (length (heap s)), s')
    /\ nth_error (heap s') (length (heap s))
       = Some (mkInstance (created s) t (tools_of toolsResponse) true (clock s'))
    /\ getTools (Some authContext) s' = tools_of toolsResponse
    /\ (toolsResponse = None -> getTools (Some authContext) s' = [])
    /\ clock s' = (clock s
                   + match mcpTransportType authContext with
                     | Some http => 1000
                     | _ => 2000
                     end)%Z
    /\ trace s' = (trace s ++ evs)%list
    /\ connects evs = [created s]
    /\ catalogFetches evs = [created s]
    /\ closes evs = [].
Proof.
  intros He Hc Hl.
  destruct (enters_creation_inv E _ _ He) as [Horg Hmiss].
  destruct (prepare_ok E _ _ He) as (k & Hp & Hkey & Hcl).
  pose proof (stabilize_of_prepare E _ _ _ _ _ Hp) as Hst.
  pose proof (getOrCreateClient_miss E _ _ Horg Hmiss) as Hg.
  unfold bind in Hg. rewrite Hp in Hg.
  rewrite <- Hcl in Hc, Hl.
  rewrite (connectAndLoad_ok E k _ toolsResponse Hc Hl) in Hg.
  cbn [clients heap created clock trace] in Hg.
  rewrite Hcl in Hg.
  eexists. exists (tr k).
  exists [NewTransport (tr k); Connect (created s) (tr k);
          ListTools (created s)].
  split; [exact Hg |].
  destruct (ready_after E _ _ _ _ Hg) as [_ (i & Hn & Ht)].
  cbn [heap] in Hn. rewrite nth_error_alloc in Hn. injection Hn as <-.
  cbn [tools] in Ht.
  cbn [clock heap trace]. rewrite nth_error_alloc, <- Hst.
  split; [reflexivity |]. split; [exact Ht |].
  split; [intros ->; exact Ht |]. split; [reflexivity |].
  split; [now rewrite <- app_assoc |].
  repeat split.
Qed.

Lemma creation_caches_catalogue_witness :
  exists s' t evs,
    getOrCreateClient healthy acme (initial 0) = (inr 0, s')
    /\ nth_error (heap s') 0 = Some (mkInstance 0 t catalogue true (clock s'))
    /\ getTools (Some acme) s' = catalogue
    /\ (Some catalogue = None -> getTools (Some acme) s' = [])
    /\ clock s' = 2000%Z
    /\ trace s' = evs
    /\ connects evs = [0]
    /\ catalogFetches evs = [0]
    /\ closes evs = [].
Proof.
  apply (creation_caches_catalogue healthy acme (initial 0) (Some catalogue));
    reflexivity.
Defined.

Lemma closeEach_spec (E : Env) (entries : list (string * ref)) (s : State) :
  exists evs,
    closeEach E entries s =
      mkState (clients s) (heap s) (created s) (clock s) (trace s ++ evs)
    /\ closes evs = flat_map (client_of (heap s)) entries
    /\ connects evs = []
    /\ (forall key r i error,
          In (key, r) entries -> nth_error (heap s) r = Some i ->
          close E (client i) = Some error ->
          In (Log ("Cleanup error for client " ++ key ++ ":") error) evs).
Proof.
  revert s. induction entries as [| [key r] rest IH]; intros s.
  - exists []. cbn [closeEach flat_map]. rewrite app_nil_r.
    destruct s. repeat split; auto; intros ? ? ? ? [].
  - cbn [closeEach flat_map].
    replace (client_of (heap s) (key, r))
      with (match nth_error (heap s) r with
            | Some i => [client i]
            | None => []
            end) by reflexivity.
    destruct (nth_error (heap s) r) as [i |] eqn:Hi.
    + destruct (IH (closeLogging E ("Cleanup error for client " ++ key ++ ":")
                      (client i) s))
        as (evs & Hrun & Hcl & Hco & Hlog).
      rewrite closeLogging_frame in Hrun, Hcl, Hlog.
      cbn [clients heap created clock trace] in Hrun, Hcl, Hlog.
      exists (Close (client i)
                :: match close E (client i) with
                   | Some error =>
                       [Log ("Cleanup error for client " ++ key ++ ":") error]
                   | None => []
                   end ++ evs)%list.
      rewrite closeLogging_frame, Hrun.
      rewrite <- !app_assoc. cbn [app].
      split; [reflexivity |]. split; [| split].
      * rewrite closes_cons, closes_app, Hcl.
        now destruct (close E (client i)).
      * rewrite connects_cons, connects_app, Hco.
        now destruct (close E (client i)).
      * intros key' r' i' error' [Heq | Hin] Hi' Hclose'.
        -- injection Heq as <- <-. rewrite Hi in Hi'. injection Hi' as <-.
           rewrite Hclose'. right. now left.
        -- right. apply in_or_app. right. eapply Hlog; eauto.
    + destruct (IH s) as (evs & Hrun & Hcl & Hco & Hlog).
      exists evs. rewrite Hrun. repeat split; auto.
      intros key' r' i' error' [Heq | Hin] Hi' Hclose'; eauto.
      injection Heq as <- <-. congruence.
Qed.

(** X10: [cleanup()] (and with it the server's [stop()]) closes the client
    of every cached instance, once each and in the order of the map; a
    close that fails is reported and does not keep the later ones from
    being closed; afterwards the map is empty, so no context is ready and
    every catalogue is empty.  It connects nothing. *)
Theorem cleanup_closes_every_client (E : Env) (s : State) :
  exists evs,
    Server.stop E s
    = mkState [] (heap s) (created s) (clock s) (trace s ++ evs)
    /\ cleanup E s = Server.stop E s
    /\ closes evs = flat_map (client_of (heap s)) (clients s)
    /\ connects evs = []
    /\ (forall key r i error,
          In (key, r) (clients s) -> nth_error (heap s) r = Some i ->
          close E (client i) = Some error ->
          In (Log ("Cleanup error for client " ++ key ++ ":") error) evs)
    /\ (forall authContext,
          isReady (Some authContext) (cleanup E s) = false
          /\ getTools (Some authContext) (cleanup E s) = []
          /\ cached (cleanup E s) (generateAuthCacheKey authContext) = None).
Proof.
  destruct (closeEach_spec E (clients s) s) as (evs & Hrun & Hcl & Hco & Hlog).
  exists evs. unfold Server.stop, cleanup. rewrite Hrun. unfold clear.
  cbn [clients heap created clock trace].
  repeat split; auto.
Qed.

Lemma sweep_none_idle (E : Env) (c : Z) (entries : list (string * ref))
  (acc : list string) (s : State) :
  (forall e, In e entries -> idle_since (heap s) c e = false) ->
  sweep E (Some c) entries acc s = (acc, s).
Proof.
  revert acc. induction entries as [| [key r] rest IH]; intros acc Hno.
  - reflexivity.
  - cbn [sweep].
    pose proof (Hno (key, r) (or_introl eq_refl)) as Hk.
    unfold idle_since in Hk. cbn [snd] in Hk.
    destruct (nth_error (heap s) r) as [i |].
    + cbn [date_lt]. rewrite Hk. apply IH. intros e He. apply Hno. now right.
    + apply IH. intros e He. apply Hno. now right.
Qed.

(** X11: a second sweep at the same instant finds nothing to do: no client
    is closed a second time, nothing more is removed or printed. *)
Theorem cleanupUnusedClients_twice
  (E : Env) (s : State) (maxAgeMinutes : Z) :
  keys_unique s -> times_valid s -> (0 <= maxAgeMinutes)%Z ->
  cleanupUnusedClients E (Some maxAgeMinutes)
    (cleanupUnusedClients E (Some maxAgeMinutes) s)
  = cleanupUnusedClients E (Some maxAgeMinutes) s.
Proof.
  intros Hnd Hvalid Hage.
  destruct (cleanupUnusedClients_outcome E s maxAgeMinutes Hnd Hvalid Hage)
    as (evs & Hrun & _).
  rewrite Hrun. unfold cleanupUnusedClients at 1.
  cbn [clients heap created clock trace].
  unfold mkDate.
  destruct (Z.abs (clock s - maxAgeMinutes * 60 * 1000) <=? maxTime)%Z.
  - rewrite sweep_none_idle; [reflexivity |].
    intros e He. apply filter_In in He as [_ He].
    cbn [heap]. now apply negb_true_iff in He.
  - rewrite sweep_invalid. reflexivity.
Qed.

Lemma cleanupUnusedClients_twice_witness :
  cleanupUnusedClients unclosable (Some 30%Z)
    (cleanupUnusedClients unclosable (Some 30%Z) two_instances)
  = cleanupUnusedClients unclosable (Some 30%Z) two_instances.
Proof.
  apply (cleanupUnusedClients_twice unclosable two_instances 30).
  - exact keys_unique_two_instances.
  - exact times_valid_two_instances.
  - lia.
Defined.

Lemma in_keys_iff (s : State) (key : string) :
  In key (keys s) <-> assoc key (clients s) <> None.
Proof.
  unfold keys. pose proof (assoc_None_not_in key (clients s)) as H.
  destruct (assoc key (clients s)); split; intros; try congruence.
  - destruct (in_dec string_dec key (map fst (clients s))) as [Hin | Hn];
      [exact Hin |].
    apply H in Hn. discriminate.
  - exfalso. now apply (proj1 H).
Qed.

(** X12: in every state the manager can reach, calls in flight included, a
    context is ready exactly when the map has an entry under its cache
    key: the map never holds an uninitialised instance.  A context that is
    not ready has the empty catalogue. *)
Theorem reachable_ready_iff_cached
  (E : Env) (s : State) (authContext : AuthenticationContext) :
  reachable E s ->
  (isReady (Some authContext) s = true
   <-> In (generateAuthCacheKey authContext) (keys s))
  /\ (isReady (Some authContext) s = false ->
      getTools (Some authContext) s = []).
Proof.
  intros Hr. destruct (reachable_invariant E s Hr) as [Hready _].
  rewrite in_keys_iff. unfold isReady, getTools, get.
  destruct (assoc (generateAuthCacheKey authContext) (clients s)) as [r |]
    eqn:Ha.
  - destruct (Hready _ _ Ha) as (i & Hi & Hinit). rewrite Hi, Hinit.
    split; [split; congruence | discriminate].
  - split; [split; congruence | reflexivity].
Qed.

Lemma reachable_ready_iff_cached_witness :
  (isReady (Some acme) (snd (getOrCreateClient healthy acme (initial 0))) = true
   <-> In "acme|stdio|"
         (keys (snd (getOrCreateClient healthy acme (initial 0)))))
  /\ (isReady (Some acme) (snd (getOrCreateClient healthy acme (initial 0)))
      = false ->
      getTools (Some acme) (snd (getOrCreateClient healthy acme (initial 0)))
      = []).
Proof.
  apply (reachable_ready_iff_cached healthy
           (snd (getOrCreateClient healthy acme (initial 0))) acme).
  apply reach_getOrCreateClient, reach_initial.
Defined.

(** *** Every instance has a client of its own *)

(** What a call of [getOrCreateClient] can do to the state. *)
Lemma getOrCreateClient_cases (E : Env) authContext s :
  (exists error s' evs,
     getOrCreateClient E authContext s = (inl error, s')
     /\ clients s' = clients s /\ heap s' = heap s
     /\ created s <= created s'
     /\ trace s' = (trace s ++ evs)%list /\ toolCalls evs = [])
  \/ (exists r,
        cached s (generateAuthCacheKey authContext) = Some r
        /\ getOrCreateClient E authContext s = (inr r, touch r s))
  \/ (exists t ts d,
        cached s (generateAuthCacheKey authContext) = None
        /\ getOrCreateClient E authContext s =
             (inr (length (heap s)),
              mkState
                (assign (generateAuthCacheKey authContext) (length (heap s))
                   (clients s))
                (heap s ++ [mkInstance (created s) t ts true (clock s + d)])
                (S (created s)) (clock s + d)
                (trace s ++ [NewTransport t; Connect (created s) t;
                             ListTools (created s)]))).
Proof.
  destruct (truthy_str (azureDevOpsOrg authContext)) eqn:Ho.
  2: { left. rewrite getOrCreateClient_no_org by assumption.
       exists (Err "Missing required Azure DevOps organization"), s, [].
       rewrite app_nil_r. repeat split; auto. }
  destruct (cached s (generateAuthCacheKey authContext)) as [r0 |] eqn:Hc.
  { right. left. exists r0. split; [reflexivity |].
    now apply getOrCreateClient_hit. }
  rewrite (getOrCreateClient_miss _ _ _ Ho Hc). unfold bind.
  destruct (prepare E authContext (generateAuthCacheKey authContext) s)
    as [[error | k] s1] eqn:Hp.
  { left. rewrite (prepare_fails_frame _ _ _ _ _ _ Hp).
    exists error, s, []. rewrite app_nil_r. repeat split; auto. }
  destruct (prepare_inv _ _ _ _ _ _ Hp) as (Hk & Hcl & ->).
  destruct (connect E (cl k)) as [error |] eqn:Hco.
  { left. rewrite (connectAndLoad_connect_fails _ _ _ _ Hco).
    cbn [clients heap created clock trace].
    eexists. eexists.
    exists [NewTransport (tr k); Connect (cl k) (tr k);
            Log ("Failed to initialize " ++ label k ++ " MCP client for "
                 ++ org k ++ ":") error;
            Close (cl k)].
    split; [reflexivity |].
    cbn [clients heap created clock trace].
    rewrite <- app_assoc. repeat split; auto. }
  destruct (listTools E (cl k)) as [error | ts] eqn:Hl.
  { left. rewrite (connectAndLoad_listTools_fails _ _ _ _ Hco Hl).
    cbn [clients heap created clock trace].
    eexists. eexists.
    exists [NewTransport (tr k); Connect (cl k) (tr k); ListTools (cl k);
            Log "Failed to load tools:" error;
            Log ("Failed to initialize " ++ label k ++ " MCP client for "
                 ++ org k ++ ":") error;
            Close (cl k)].
    split; [reflexivity |].
    cbn [clients heap created clock trace].
    rewrite <- app_assoc. repeat split; auto. }
  right. right. rewrite (connectAndLoad_ok _ _ _ _ Hco Hl).
  cbn [clients heap created clock trace].
  exists (tr k), (tools_of ts), (stabilize k).
  split; [reflexivity |]. rewrite Hk, Hcl, <- app_assoc. reflexivity.
Qed.

Lemma served_reachable (E : Env) s : served E s -> reachable E s.
Proof.
  induction 1.
  - apply reach_initial.
  - now apply reach_sleep.
  - now apply reach_getOrCreateClient.
  - now apply reach_callTool.
  - now apply reach_cleanupUnusedClients.
  - now apply reach_cleanup.
Qed.

Lemma update_length {A : Type} (r : nat) (x : A) (l : list A) :
  length (update r x l) = length l.
Proof.
  revert r; induction l as [| y l IH]; intros [| r]; simpl; auto.
Qed.

Lemma map_update {A B : Type} (f : A -> B) (r : nat) (x y : A) (l : list A) :
  nth_error l r = Some y -> f x = f y ->
  map f (update r x l) = map f l.
Proof.
  revert r; induction l as [| z l IH]; intros [| r]; simpl; try discriminate.
  - intros [= ->] ->. reflexivity.
  - intros Hn Hf. now rewrite (IH r Hn Hf).
Qed.

Lemma in_assign {A : Type} (k k0 : string) (x x0 : A) (l : list (string * A)) :
  In (k0, x0) (assign k x l) -> (k0, x0) = (k, x) \/ In (k0, x0) l.
Proof.
  induction l as [| [k' v] l IH]; simpl.
  - intros [H | []]. left. now symmetry.
  - destruct (String.eqb k' k); simpl.
    + intros [H | H]; [left; now symmetry | right; now right].
    + intros [H | H]; [right; now left |].
      destruct (IH H); [now left | right; now right].
Qed.

Lemma nodup_snd_assign {A : Type} (k : string) (x : A) (l : list (string * A)) :
  ~ In x (map snd l) -> NoDup (map snd l) -> NoDup (map snd (assign k x l)).
Proof.
  induction l as [| [k' v] l IH]; simpl; intros Hx Hnd.
  - constructor; [intros [] | constructor].
  - inversion Hnd as [| ? ? Hv Hl]; subst.
    destruct (String.eqb k' k); simpl.
    + constructor; [tauto | exact Hl].
    + constructor.
      * intros Hin. apply in_map_iff in Hin as ([k0 x0] & Hs & Hin).
        simpl in Hs. subst x0.
        destruct (in_assign _ _ _ _ _ Hin) as [Heq | Hold].
        -- injection Heq as _ ->. tauto.
        -- apply Hv. apply in_map_iff. now exists (k0, v).
      * apply IH; [tauto | exact Hl].
Qed.

Lemma nodup_snd_filter {A : Type} (p : string * A -> bool)
  (l : list (string * A)) :
  NoDup (map snd l) -> NoDup (map snd (filter p l)).
Proof.
  induction l as [| e l IH]; simpl; intros Hnd; [constructor |].
  inversion Hnd as [| ? ? Hv Hl]; subst.
  destruct (p e); simpl; [| now apply IH].
  constructor; [| now apply IH].
  intros Hin. apply Hv. apply in_map_iff in Hin as (e' & Hs & Hin).
  apply filter_In in Hin as [Hin _]. apply in_map_iff. now exists e'.
Qed.

Lemma exclusive_initial now : exclusive (initial now).
Proof.
  repeat split; simpl; try constructor; intros; contradiction.
Qed.

Lemma exclusive_frame s s' :
  clients s' = clients s -> heap s' = heap s -> created s <= created s' ->
  exclusive s -> exclusive s'.
Proof.
  intros Hc Hh Hn (H1 & H2 & H3 & H4). unfold exclusive.
  rewrite Hc, Hh. repeat split; auto.
  intros i Hi. specialize (H4 i Hi). lia.
Qed.

Lemma exclusive_touch r s : exclusive s -> exclusive (touch r s).
Proof.
  intros (H1 & H2 & H3 & H4). unfold touch.
  destruct (nth_error (heap s) r) as [i |] eqn:Hi; [| repeat split; auto].
  pose proof (map_update client r
                (mkInstance (client i) (transport i) (tools i)
                   (isInitialized i) (clock s)) i (heap s) Hi eq_refl) as Hm.
  unfold exclusive. cbn [clients heap created].
  rewrite update_length, Hm.
  repeat split; auto.
  intros j Hj. apply (in_map client) in Hj. rewrite Hm in Hj.
  apply in_map_iff in Hj as (j' & Hc & Hj'). rewrite <- Hc. now apply H4.
Qed.

Lemma exclusive_insert key t ts now clock' trace' s :
  exclusive s ->
  exclusive
    (mkState (assign key (length (heap s)) (clients s))
       (heap s ++ [mkInstance (created s) t ts true now])
       (S (created s)) clock' trace').
Proof.
  intros (H1 & H2 & H3 & H4). unfold exclusive.
  cbn [clients heap created]. rewrite length_app, map_app. cbn [length map].
  split; [| split; [| split]].
  - apply nodup_snd_assign; [| exact H1].
    intros Hin. apply in_map_iff in Hin as ([k r] & Hs & Hin).
    simpl in Hs. subst r. specialize (H2 _ _ Hin). lia.
  - intros k r Hin. destruct (in_assign _ _ _ _ _ Hin) as [Heq | Hold].
    + injection Heq as _ ->. lia.
    + specialize (H2 _ _ Hold). lia.
  - apply NoDup_app; [exact H3 | constructor; [intros [] | constructor] |].
    intros c Hc [Heq | []]. subst c. cbn [client] in Hc.
    apply in_map_iff in Hc as (i & Hci & Hi). specialize (H4 _ Hi). lia.
  - intros i Hi. apply in_app_or in Hi as [Hi | [<- | []]].
    + specialize (H4 _ Hi). lia.
    + cbn [client]. lia.
Qed.

Lemma exclusive_filter (p : string * ref -> bool) s s' :
  clients s' = filter p (clients s) -> heap s' = heap s ->
  created s' = created s -> exclusive s -> exclusive s'.
Proof.
  intros Hc Hh Hn (H1 & H2 & H3 & H4). unfold exclusive.
  rewrite Hc, Hh, Hn. repeat split; auto.
  - now apply nodup_snd_filter.
  - intros k r Hin. apply filter_In in Hin as [Hin _]. eauto.
Qed.

Lemma getOrCreateClient_exclusive (E : Env) authContext s :
  exclusive s -> exclusive (snd (getOrCreateClient E authContext s)).
Proof.
  intros H.
  destruct (getOrCreateClient_cases E authContext s)
    as [(error & s' & evs & -> & Hc & Hh & Hn & _)
       | [(r & _ & ->) | (t & ts & d & _ & ->)]]; cbn [snd].
  - now apply (exclusive_frame s).
  - now apply exclusive_touch.
  - now apply exclusive_insert.
Qed.

Lemma callTool_frame (E : Env) tool arguments_ ctx s :
  let s1 := snd (getOrCreateClient E ctx s) in
  let s2 := snd (callTool E tool arguments_ (Some ctx) s) in
  clients s2 = clients s1 /\ heap s2 = heap s1 /\ created s2 = created s1
  /\ clock s2 = clock s1.
Proof.
  cbv zeta. unfold callTool, bind.
  destruct (getOrCreateClient E ctx s) as [[error | r] s1]; cbn [snd]; auto.
  destruct (nth_error (heap s1) r); cbn [snd]; auto.
Qed.

Lemma created_cleanupUnusedClients (E : Env) maxAgeMinutes s :
  created (cleanupUnusedClients E maxAgeMinutes s) = created s.
Proof.
  unfold cleanupUnusedClients.
  set (cutoff := mkDate _). clearbody cutoff.
  assert (Hs : forall entries acc s0,
             created (snd (sweep E cutoff entries acc s0)) = created s0).
  { induction entries as [| [key r] rest IH]; intros acc s0; [reflexivity |].
    cbn [sweep]. destruct (nth_error (heap s0) r) as [i |]; [| apply IH].
    destruct (date_lt (lastUsed i) cutoff); [| apply IH].
    rewrite IH, closeLogging_frame. reflexivity. }
  specialize (Hs (clients s) [] s).
  destruct (sweep E cutoff (clients s) [] s) as [ks s1]. cbn [snd] in Hs.
  rewrite fold_delete. exact Hs.
Qed.

Lemma served_exclusive (E : Env) s : served E s -> exclusive s.
Proof.
  induction 1.
  - apply exclusive_initial.
  - assumption.
  - now apply getOrCreateClient_exclusive.
  - destruct authContext as [ctx |]; [| assumption].
    destruct (callTool_frame E tool arguments_ ctx s) as (Hc & Hh & Hn & _).
    apply (exclusive_frame (snd (getOrCreateClient E ctx s))); auto.
    + rewrite Hn. lia.
    + now apply getOrCreateClient_exclusive.
  - destruct (cleanupUnusedClients_keeps E maxAgeMinutes s) as (p & Hc & Hh).
    apply (exclusive_filter p s); auto.
    apply created_cleanupUnusedClients.
  - destruct IHserved as (H1 & H2 & H3 & H4).
    destruct (closeEach_spec E (clients s) s) as (evs & Hrun & _).
    unfold cleanup. rewrite Hrun. unfold clear, exclusive.
    cbn [clients heap created map]. repeat split; auto; try constructor.
    intros ? ? [].
Qed.

Lemma clients_of_entries (h : list MCPClientInstance)
  (l : list (string * ref)) :
  (forall key r, In (key, r) l -> r < length h) ->
  NoDup (map snd l) -> NoDup (map client h) ->
  NoDup (flat_map (client_of h) l).
Proof.
  intros Hb Hl Hh. induction l as [| [k r] l IH]; [constructor |].
  cbn [flat_map map snd] in *. inversion Hl as [| ? ? Hr Hl']; subst.
  assert (Hrb : r < length h) by (apply (Hb k); now left).
  destruct (nth_error h r) as [i |] eqn:Hi;
    [| apply nth_error_None in Hi; lia].
  unfold client_of at 1. cbn [snd]. rewrite Hi. cbn [app].
  constructor.
  - intros Hin. apply in_flat_map in Hin as ([k' r'] & He & Hc).
    unfold client_of in Hc. cbn [snd] in Hc.
    destruct (nth_error h r') as [i' |] eqn:Hi'; [| contradiction].
    destruct Hc as [Hc | []].
    assert (r = r').
    { apply (proj1 (NoDup_nth_error (map client h)) Hh).
      - now rewrite length_map.
      - rewrite !nth_error_map, Hi, Hi'. cbn [option_map]. now rewrite Hc. }
    subst r'. apply Hr. apply in_map_iff. now exists (k', r).
  - apply IH; auto. intros key r0 Hin. apply (Hb key). now right.
Qed.

(** X13: as long as calls do not overlap, no two entries of the map share
    an instance object, and no two cached instances share a client:
    touching or closing the instance of one context never touches or
    closes that of another. *)
Theorem served_instances_exclusive (E : Env) (s : State) :
  served E s ->
  NoDup (map snd (clients s))
  /\ NoDup (flat_map (client_of (heap s)) (clients s))
  /\ length (flat_map (client_of (heap s)) (clients s)) = length (clients s).
Proof.
  intros Hs. destruct (served_exclusive E s Hs) as (H1 & H2 & H3 & H4).
  split; [exact H1 |]. split; [now apply clients_of_entries |].
  clear H1 H3 H4. induction (clients s) as [| [k r] l IH]; [reflexivity |].
  cbn [flat_map]. rewrite length_app, IH.
  - unfold client_of. cbn [snd].
    destruct (nth_error (heap s) r) eqn:Hi; [reflexivity |].
    apply nth_error_None in Hi. specialize (H2 k r (or_introl eq_refl)). lia.
  - intros key r0 Hin. apply (H2 key). now right.
Qed.

Lemma served_two_instances : served unclosable two_instances.
Proof.
  unfold two_instances. cbv zeta.
  apply served_sleep, served_getOrCreateClient, served_sleep,
    served_getOrCreateClient, served_initial.
Qed.

Lemma served_instances_exclusive_witness :
  NoDup (map snd (clients two_instances))
  /\ NoDup (flat_map (client_of (heap two_instances)) (clients two_instances))
  /\ length (flat_map (client_of (heap two_instances)) (clients two_instances))
     = length (clients two_instances).
Proof.
  apply (served_instances_exclusive unclosable two_instances).
  exact served_two_instances.
Defined.

(** X14: as long as calls do not overlap, a sweep closes no client of an
    instance it keeps: an instance that stays in the map after
    [cleanupUnusedClients] still has its connection. *)
Theorem cleanupUnusedClients_spares_kept
  (E : Env) (s : State) (maxAgeMinutes : Z) :
  served E s -> times_valid s -> (0 <= maxAgeMinutes)%Z ->
  exists evs,
    trace (cleanupUnusedClients E (Some maxAgeMinutes) s)
    = (trace s ++ evs)%list
    /\ forall key r i,
         assoc key (clients (cleanupUnusedClients E (Some maxAgeMinutes) s))
         = Some r ->
         nth_error (heap (cleanupUnusedClients E (Some maxAgeMinutes) s)) r
         = Some i ->
         ~ In (client i) (closes evs).
Proof.
  intros Hs Hvalid Hage.
  destruct (reachable_invariant E s (served_reachable E s Hs)) as [_ Hnd].
  destruct (served_exclusive E s Hs) as (H1 & H2 & H3 & H4).
  destruct (cleanupUnusedClients_outcome E s maxAgeMinutes Hnd Hvalid Hage)
    as (evs & Hrun & Hcl & _).
  exists evs. rewrite Hrun. cbn [trace clients heap].
  split; [reflexivity |].
  intros key r i Ha Hi Hin. apply assoc_In in Ha.
  apply filter_In in Ha as [_ Hkeep].
  rewrite Hcl in Hin. apply in_flat_map in Hin as ([k' r'] & He & Hc).
  apply filter_In in He as [He Hidle].
  unfold client_of in Hc. cbn [snd] in Hc.
  destruct (nth_error (heap s) r') as [i' |] eqn:Hi'; [| contradiction].
  destruct Hc as [Hc | []].
  assert (r' = r).
  { apply (proj1 (NoDup_nth_error (map client (heap s))) H3).
    - rewrite length_map. now apply (H2 k').
    - rewrite !nth_error_map, Hi, Hi'. cbn [option_map]. now rewrite Hc. }
  subst r'. unfold idle_since in Hkeep, Hidle. cbn [snd] in Hkeep, Hidle.
  rewrite Hidle in Hkeep. discriminate.
Qed.

Lemma cleanupUnusedClients_spares_kept_witness :
  exists evs,
    trace (cleanupUnusedClients unclosable (Some 30%Z) two_instances)
    = (trace two_instances ++ evs)%list
    /\ forall key r i,
         assoc key
           (clients (cleanupUnusedClients unclosable (Some 30%Z) two_instances))
         = Some r ->
         nth_error
           (heap (cleanupUnusedClients unclosable (Some 30%Z) two_instances)) r
         = Some i ->
         ~ In (client i) (closes evs).
Proof.
  apply (cleanupUnusedClients_spares_kept unclosable two_instances 30).
  - exact served_two_instances.
  - exact times_valid_two_instances.
  - lia.
Defined.

Lemma step_Connecting_ok (E : Env) k s :
  connect E (cl k) = None -> step E (Connecting k) s = (Stabilizing k, s).
Proof. intros H. cbn [step]. now rewrite H. Qed.

Lemma step_Stabilizing (E : Env) k s :
  step E (Stabilizing k) s
  = (LoadingTools k,
     mkState (clients s) (heap s) (created s) (clock s + stabilize k)
       (trace s ++ [ListTools (cl k)])).
Proof. reflexivity. Qed.

Lemma step_LoadingTools_ok (E : Env) k s ts :
  listTools E (cl k) = inr ts ->
  step E (LoadingTools k) s
  = (Settled (inr (length (heap s))),
     mkState (assign (cacheKey k) (length (heap s)) (clients s))
       (heap s ++ [mkInstance (cl k) (tr k) (tools_of ts) true (clock s)])
       (created s) (clock s) (trace s)).
Proof. intros H. cbn [step]. now rewrite H. Qed.

(** *** Two overlapping creations for one key *)

Lemma assign_assign {A : Type} (k : string) (x y : A) l :
  assign k x (assign k y l) = assign k x l.
Proof.
  induction l as [| [k' v] rest IH]; cbn [assign].
  - now rewrite String.eqb_refl.
  - destruct (String.eqb k' k) eqn:Hk; cbn [assign].
    + now rewrite String.eqb_refl.
    + now rewrite Hk, IH.
Qed.

Lemma enters_creation_frame (E : Env) ctx s st :
  clients st = clients s -> heap st = heap s ->
  enters_creation E ctx st = enters_creation E ctx s.
Proof.
  intros Hc Hh. unfold enters_creation, cached, get. now rewrite Hc, Hh.
Qed.

Lemma creation_succeeds (E : Env) c :
  creation_failure E c = None ->
  connect E c = None /\ exists ts, listTools E c = inr ts.
Proof.
  unfold creation_failure. destruct (connect E c); [discriminate |].
  destruct (listTools E c) as [e | ts]; [discriminate |]. eauto.
Qed.

Lemma started_of_phase t : phase t <> 0 -> started t = 1.
Proof. destruct t; cbn; congruence. Qed.

Lemma started_le t : started t <= 1.
Proof. destruct t; cbn; lia. Qed.

Lemma task_fits_frame key ctx s st st' t :
  length (heap st) <= length (heap st') ->
  task_fits key ctx s st t -> task_fits key ctx s st' t.
Proof.
  intros Hl. destruct t as [| | | | | [e | r]]; cbn [task_fits]; auto. lia.
Qed.

Lemma racing_sym key ctxa ctxb s ta tb st :
  racing key ctxa ctxb s ta tb st -> racing key ctxb ctxa s tb ta st.
Proof.
  intros (Fa & Fb & Sa & Sb & Hr & Hn & Hd & Hb & new & evs & Hh & Hl & Hc
          & Ht & Hco & Hcl & Hnd & Hall).
  unfold racing. rewrite (Nat.add_comm (started tb)), (Nat.add_comm (stored tb)).
  repeat (split; [solve [auto] |]).
  split; [intros ra rb Ha Hb' Heq; exact (Hr rb ra Hb' Ha (eq_sym Heq)) |].
  split; [exact Hn |].
  split; [intros c Hcb Hca; exact (Hd c Hca Hcb) |].
  split; [intros c [H | H]; apply Hb; auto |].
  exists new, evs. repeat (split; [assumption |]).
  eapply Forall_impl; [| exact Hall].
  intros i (H1 & H2 & H3 & H4). auto.
Qed.

Section Overlap.

Variable E : Env.
Variable s : State.
Variable key : string.

(** No creation among the next two fails. *)
Hypothesis healthy_next :
  forall c, created s <= c < created s + 2 -> creation_failure E c = None.

(** One step of the first of the two calls. *)
Lemma racing_step ctxa ctxb ta tb st :
  generateAuthCacheKey ctxa = key ->
  enters_creation E ctxa s = true ->
  racing key ctxa ctxb s ta tb st ->
  (phase ta = 3 -> started tb = 1) ->
  racing key ctxa ctxb s (fst (step E ta st)) tb (snd (step E ta st))
  /\ phase (fst (step E ta st)) = Nat.min 4 (S (phase ta)).
Proof.
  intros Hkey Hin (Fa & Fb & Sa & Sb & Hr & Hn & Hd & Hb & new & evs & Hh & Hl
                   & Hc & Ht & Hco & Hcl & Hnd & Hall) Hlast.
  pose proof (started_le tb) as Hle.
  destruct ta as [c | k | k | k | e | [e | r]]; cbn [task_fits] in Fa;
    try contradiction.
  - (* the call itself *)
    subst c. cbn [started stored pending] in *.
    rewrite (Sa eq_refl) in Hl. destruct new as [| ? ?]; [| discriminate Hl].
    rewrite app_nil_r in Hh.
    rewrite <- (enters_creation_frame E ctxa s st Hc Hh) in Hin.
    destruct (step_Called_creates E ctxa st Hin) as (k & -> & Hk & Hcl').
    cbn [fst snd phase]. split; [| reflexivity].
    unfold racing. cbn [task_fits started stored pending heap clients created
                         trace].
    split; [congruence |].
    split; [exact (task_fits_frame _ _ _ st _ _ (le_n _) Fb) |].
    split; [discriminate |]. split; [reflexivity |].
    split; [discriminate |]. split; [lia |].
    split.
    { intros c [Heq | []] Hcb. specialize (Hb c (or_intror Hcb)). lia. }
    split.
    { intros c [[Heq | []] | Hcb]; [lia |].
      specialize (Hb c (or_intror Hcb)). lia. }
    exists [], (evs ++ [NewTransport (tr k); Connect (cl k) (tr k)])%list.
    rewrite app_nil_r, Ht, <- app_assoc, connects_app, closes_app, Hco, Hcl.
    cbn [connects closes flat_map app length].
    rewrite Hcl', Hn, (Sa eq_refl). cbn [Nat.add]. rewrite seq_S.
    repeat split; auto; constructor.
  - (* the connection *)
    assert (Hk : created s <= cl k < created st)
      by (apply Hb; left; now left).
    destruct (creation_succeeds E (cl k)) as (Hconn & _);
      [apply healthy_next; cbn [started] in Hn; lia |].
    rewrite (step_Connecting_ok E k st Hconn). cbn [fst snd phase].
    split; [| reflexivity].
    unfold racing. cbn [task_fits started stored pending] in *.
    repeat (split; [solve [auto | discriminate] |]).
    exists new, evs. repeat (split; [assumption |]). exact Hall.
  - (* the delay *)
    rewrite step_Stabilizing. cbn [fst snd phase]. split; [| reflexivity].
    unfold racing. cbn [task_fits started stored pending heap clients created
                         trace] in *.
    repeat (split; [solve [auto | discriminate] |]).
    exists new, (evs ++ [ListTools (cl k)])%list.
    rewrite Ht, <- app_assoc, connects_app, closes_app, Hco, Hcl.
    cbn [connects closes flat_map app]. rewrite app_nil_r.
    repeat (split; [solve [auto] |]). exact Hall.
  - (* the catalogue, and the store *)
    assert (Hk : created s <= cl k < created st)
      by (apply Hb; left; now left).
    destruct (creation_succeeds E (cl k)) as (_ & ts & Hlist);
      [apply healthy_next; cbn [started] in Hn; lia |].
    rewrite (step_LoadingTools_ok E k st ts Hlist). cbn [fst snd phase].
    split; [| reflexivity].
    specialize (Hlast eq_refl).
    assert (Hlen : length (heap st) = length (heap s) + length new)
      by (rewrite Hh; apply length_app).
    unfold racing. cbn [task_fits started stored pending heap clients created
                         trace] in *.
    split; [rewrite length_app; cbn [length]; lia |].
    split.
    { apply (task_fits_frame _ _ _ st); [| exact Fb].
      cbn [heap]. rewrite length_app. lia. }
    split; [discriminate |]. split; [lia |].
    split.
    { intros ra rb [= <-] ->. cbn [task_fits] in Fb. lia. }
    split; [exact Hn |].
    split; [intros c [] |].
    split; [intros c [[] | Hcb]; apply Hb; now right |].
    exists (new ++ [mkInstance (cl k) (tr k) (tools_of ts) true (clock st)])%list,
      evs.
    split; [now rewrite Hh, app_assoc |].
    split; [rewrite length_app; cbn [length]; lia |].
    split.
    { rewrite Fa, Hc, Hlen. destruct new as [| i0 new0]; cbn [app length].
      - now rewrite Nat.add_0_r, Nat.add_sub.
      - rewrite assign_assign, length_app. cbn [length].
        f_equal. lia. }
    repeat (split; [assumption |]).
    split.
    { rewrite map_app. cbn [map client]. apply NoDup_app; auto.
      - repeat constructor. intros [].
      - intros c Hc1 [<- | []]. apply in_map_iff in Hc1 as (i & Hi & Hin').
        rewrite Forall_forall in Hall.
        destruct (Hall i Hin') as (_ & _ & Hna & _). apply Hna. now left. }
    apply Forall_app. split.
    + eapply Forall_impl; [| exact Hall].
      intros i (I1 & I2 & _ & I4). auto.
    + constructor; [| constructor]. cbn [client isInitialized].
      repeat split; try lia; auto.
      intros Hcb. apply (Hd (cl k)); [now left | exact Hcb].
  - (* settled *)
    cbn [step fst snd phase]. split; [| reflexivity].
    unfold racing. cbn [task_fits started stored pending] in *.
    repeat (split; [solve [auto] |]).
    exists new, evs. repeat (split; [assumption |]). exact Hall.
Qed.

(** Any overlapping schedule brings both calls to an instance. *)
Lemma racing_run ctx1 ctx2 schedule :
  generateAuthCacheKey ctx1 = key ->
  generateAuthCacheKey ctx2 = key ->
  enters_creation E ctx1 s = true ->
  enters_creation E ctx2 s = true ->
  forall t0 t1 st,
    racing key ctx1 ctx2 s t0 t1 st ->
    overlapping (phase t0) (phase t1) schedule = true ->
    exists r1 r2 st',
      run E schedule [t0; t1] st = ([Settled (inr r1); Settled (inr r2)], st')
      /\ racing key ctx1 ctx2 s (Settled (inr r1)) (Settled (inr r2)) st'.
Proof.
  intros Hk1 Hk2 H1 H2.
  induction schedule as [| j rest IH]; intros t0 t1 st Hrace Hov.
  - cbn [overlapping] in Hov. apply andb_prop in Hov as [P0 P1].
    apply Nat.eqb_eq in P0, P1.
    pose proof Hrace as (F0 & F1 & _).
    destruct t0 as [| | | | | [e0 | r0]]; try discriminate P0;
      cbn [task_fits] in F0; try contradiction.
    destruct t1 as [| | | | | [e1 | r1]]; try discriminate P1;
      cbn [task_fits] in F1; try contradiction.
    exists r0, r1, st. split; [reflexivity | exact Hrace].
  - destruct j as [| [| j]]; cbn [overlapping] in Hov.
    + destruct (Nat.eqb (phase t0) 3 && Nat.eqb (phase t1) 0) eqn:Hlast;
        [discriminate |].
      assert (Hl : phase t0 = 3 -> started t1 = 1).
      { intros P0. rewrite P0 in Hlast. cbn [Nat.eqb andb] in Hlast.
        apply started_of_phase. now apply Nat.eqb_neq. }
      destruct (racing_step ctx1 ctx2 t0 t1 st Hk1 H1 Hrace Hl) as [Hr' Hp].
      cbn [run nth_error]. destruct (step E t0 st) as [t0' st'].
      cbn [fst snd update] in *. rewrite <- Hp in Hov.
      exact (IH _ _ _ Hr' Hov).
    + destruct (Nat.eqb (phase t1) 3 && Nat.eqb (phase t0) 0) eqn:Hlast;
        [discriminate |].
      assert (Hl : phase t1 = 3 -> started t0 = 1).
      { intros P1. rewrite P1 in Hlast. cbn [Nat.eqb andb] in Hlast.
        apply started_of_phase. now apply Nat.eqb_neq. }
      destruct (racing_step ctx2 ctx1 t1 t0 st Hk2 H2 (racing_sym _ _ _ _ _ _ _ Hrace)
                  Hl) as [Hr' Hp].
      cbn [run nth_error]. destruct (step E t1 st) as [t1' st'].
      cbn [fst snd update] in *. rewrite <- Hp in Hov.
      exact (IH _ _ _ (racing_sym _ _ _ _ _ _ _ Hr') Hov).
    + cbn [run nth_error]. destruct j; exact (IH _ _ _ Hrace Hov).
Qed.

End Overlap.

(** X15: two first calls for one cache key that overlap, in whatever order
    their steps are taken, both connect a client and both build an
    instance.  The two instances are new objects; the map keeps the one
    that was stored last.  The client of the other instance is connected,
    never closed, and out of reach: no entry refers to it, so neither a
    sweep nor [cleanup()] will ever close it. *)
Theorem overlapping_creations_orphan_a_client
  (E : Env) (ctx1 ctx2 : AuthenticationContext) (s : State)
  (schedule : list nat) :
  served E s ->
  enters_creation E ctx1 s = true ->
  enters_creation E ctx2 s = true ->
  generateAuthCacheKey ctx1 = generateAuthCacheKey ctx2 ->
  creation_failure E (created s) = None ->
  creation_failure E (S (created s)) = None ->
  overlapping 0 0 schedule = true ->
  exists r1 r2 s' evs orphan kept,
    run E schedule [Called ctx1; Called ctx2] s
    = ([Settled (inr r1); Settled (inr r2)], s')
    /\ r1 <> r2
    /\ (r1 = length (heap s) \/ r1 = S (length (heap s)))
    /\ (r2 = length (heap s) \/ r2 = S (length (heap s)))
    /\ trace s' = (trace s ++ evs)%list
    /\ connects evs = [created s; S (created s)]
    /\ closes evs = []
    /\ heap s' = (heap s ++ [orphan; kept])%list
    /\ assoc (generateAuthCacheKey ctx1) (clients s')
       = Some (S (length (heap s)))
    /\ isInitialized orphan = true
    /\ isInitialized kept = true
    /\ In (client orphan) (connects evs)
    /\ client kept <> client orphan
    /\ ~ In (client orphan) (flat_map (client_of (heap s')) (clients s'))
    /\ exists evs',
         trace (cleanup E s') = (trace s' ++ evs')%list
         /\ ~ In (client orphan) (closes evs').
Proof.
  intros Hserved H1 H2 Hkey Hf1 Hf2 Hov.
  destruct (served_exclusive E s Hserved) as (X1 & X2 & X3 & X4).
  assert (Hf : forall c, created s <= c < created s + 2 ->
                         creation_failure E c = None).
  { intros c Hc. assert (Hcases : c = created s \/ c = S (created s)) by lia.
    now destruct Hcases as [-> | ->]. }
  assert (Hstart : racing (generateAuthCacheKey ctx1) ctx1 ctx2 s
                     (Called ctx1) (Called ctx2) s).
  { unfold racing. cbn [task_fits started stored pending].
    repeat (split; [solve [auto | discriminate | intros c []
                          | intros c [[] | []]] |]).
    exists [], []. rewrite !app_nil_r. cbn. repeat split; auto; constructor. }
  destruct (racing_run E s (generateAuthCacheKey ctx1) Hf ctx1 ctx2 schedule
              eq_refl (eq_sym Hkey) H1 H2 _ _ _ Hstart Hov)
    as (r1 & r2 & s' & Hrun & F1 & F2 & _ & _ & Hr & Hn & _ & _ & new & evs
        & Hh & Hl & Hc & Ht & Hco & Hcl & Hnd & Hall).
  cbn [task_fits started stored pending] in *.
  destruct new as [| orphan [| kept [| ? ?]]]; try discriminate Hl.
  rewrite Hh, length_app in F1, F2. cbn [length] in F1, F2, Hc.
  replace (length (heap s) + 2 - 1) with (S (length (heap s))) in Hc by lia.
  inversion Hall as [| ? ? (Io & Bo & _) Hall']; subst.
  inversion Hall' as [| ? ? (Ik & Bk & _) _]; subst.
  cbn [map] in Hnd. inversion Hnd as [| ? ? Hnotin _]; subst.
  assert (Hne : client kept <> client orphan).
  { intros Heq. apply Hnotin. left. exact Heq. }
  assert (Horphan :
    ~ In (client orphan) (flat_map (client_of (heap s')) (clients s'))).
  { intros Hin. apply in_flat_map in Hin as ([k r] & He & Hcli).
    unfold client_of in Hcli. cbn [snd] in Hcli. rewrite Hc in He. rewrite Hh in Hcli.
    destruct (in_assign _ _ _ _ _ He) as [Heq | Hold].
    - injection Heq as _ ->.
      change [orphan; kept] with ([orphan] ++ [kept])%list in Hcli.
      rewrite app_assoc in Hcli.
      replace (S (length (heap s))) with (length (heap s ++ [orphan])) in Hcli
        by (rewrite length_app; cbn [length]; lia).
      rewrite nth_error_alloc in Hcli. destruct Hcli as [Hcli | []].
      now apply Hne.
    - pose proof (X2 _ _ Hold) as Hlt.
      rewrite nth_error_app1 in Hcli by exact Hlt.
      destruct (nth_error (heap s) r) as [i |] eqn:Hi; [| contradiction].
      destruct Hcli as [Hcli | []].
      pose proof (X4 i (nth_error_In _ _ Hi)). lia. }
  exists r1, r2, s', evs, orphan, kept.
  split; [exact Hrun |].
  split; [exact (Hr r1 r2 eq_refl eq_refl) |].
  split; [lia |]. split; [lia |].
  split; [exact Ht |]. split; [exact Hco |]. split; [exact Hcl |].
  split; [exact Hh |].
  split; [rewrite Hc; apply assoc_assign_same |].
  split; [exact Io |]. split; [exact Ik |].
  split; [rewrite Hco; cbn [seq Nat.add In]; lia |].
  split; [exact Hne |].
  split; [exact Horphan |].
  destruct (closeEach_spec E (clients s') s') as (evs' & Hce & Hclo & _).
  exists evs'. unfold cleanup. rewrite Hce. cbn [clear trace].
  split; [reflexivity |]. now rewrite Hclo.
Qed.

Lemma overlapping_creations_orphan_a_client_witness :
  exists r1 r2 s' evs orphan kept,
    run healthy [0; 1; 1; 1; 1; 0; 0; 0] [Called acme; Called acme_stdio]
      (initial 0)
    = ([Settled (inr r1); Settled (inr r2)], s')
    /\ r1 <> r2
    /\ (r1 = 0 \/ r1 = 1)
    /\ (r2 = 0 \/ r2 = 1)
    /\ trace s' = evs
    /\ connects evs = [0; 1]
    /\ closes evs = []
    /\ heap s' = [orphan; kept]
    /\ assoc "acme|stdio|" (clients s') = Some 1
    /\ isInitialized orphan = true
    /\ isInitialized kept = true
    /\ In (client orphan) (connects evs)
    /\ client kept <> client orphan
    /\ ~ In (client orphan) (flat_map (client_of (heap s')) (clients s'))
    /\ exists evs',
         trace (cleanup healthy s') = (trace s' ++ evs')%list
         /\ ~ In (client orphan) (closes evs').
Proof.
  apply (overlapping_creations_orphan_a_client healthy acme acme_stdio
           (initial 0) [0; 1; 1; 1; 1; 0; 0; 0]); try reflexivity.
  apply served_initial.
Defined.

(** Which call loses its client depends on the schedule: when the calls
    take turns the map keeps the instance of the second call and the
    client of the first is the orphan; when the second call overtakes the
    first it is the other way round. *)
Example orphan_depends_on_schedule :
  (let (tasks, s') :=
     run healthy [0; 1; 0; 1; 0; 1; 0; 1] [Called acme; Called acme_stdio]
       (initial 0) in
   (tasks, clients s', map client (heap s')))
  = ([Settled (inr 0); Settled (inr 1)], [("acme|stdio|", 1)], [0; 1])
  /\ (let (tasks, s') :=
        run healthy [0; 1; 1; 1; 1; 0; 0; 0] [Called acme; Called acme_stdio]
          (initial 0) in
      (tasks, clients s', map client (heap s')))
     = ([Settled (inr 1); Settled (inr 0)], [("acme|stdio|", 1)], [1; 0]).
Proof. split; reflexivity. Qed.

End PoolLifecycleFacts.

(* ===================================================================== *)
(** ** Facts about the command line and the environment of a spawned server *)
(* ===================================================================== *)

Module SpawnFacts.
Import Js Auth Pool Stdin Vocabulary JsFacts StdinFacts.

Lemma trim_trimmed s : trimmed (trim s).
Proof.
  unfold trimmed, trim. split.
  - intros a Ha. apply trimEnd_first_inv in Ha. now apply trimStart_first in Ha.
  - intros a Ha. now apply trimEnd_last in Ha.
Qed.

Lemma trim_blank s : whitespace_only s = true -> trim s = EmptyString.
Proof. intros H. unfold trim. now rewrite (trimStart_blank s H). Qed.

Lemma split_blank_list d :
  blank_list d = true ->
  Forall (fun piece => whitespace_only piece = true)
    (split (ascii_of_nat 44) d).
Proof.
  induction d as [| c r IH]; cbn [blank_list split]; intros H.
  - repeat constructor.
  - apply andb_prop in H as [Hc Hr]. specialize (IH Hr).
    destruct (Ascii.eqb c (ascii_of_nat 44)).
    + constructor; [reflexivity | exact IH].
    + rewrite orb_false_r in Hc.
      destruct (split (ascii_of_nat 44) r) as [| w ws].
      * repeat constructor. cbn [whitespace_only]. now rewrite Hc.
      * inversion IH; subst. constructor; [| assumption].
        cbn [whitespace_only]. now rewrite Hc.
Qed.

Lemma no_domains_of_blank pieces :
  Forall (fun piece => whitespace_only piece = true) pieces ->
  filter (fun x => negb (is_empty x)) (map trim pieces) = [].
Proof.
  induction 1 as [| p ps Hp _ IH]; [reflexivity |].
  cbn [map filter]. now rewrite (trim_blank p Hp), IH.
Qed.

(** X16: the spawned server always gets the five fixed arguments, the
    organisation last; [-d] follows only when [MCP_DOMAINS] names at least
    one domain, and then every domain after it is a non-empty text without
    white space at its ends.  When the variable is unset, or holds only
    commas and white space, no [-d] is passed. *)
Theorem stdioArgs_domains (E : Env) (authContext : AuthenticationContext) :
  exists domains,
    stdioArgs E authContext
    = (baseArgs authContext
       ++ match domains with
          | [] => []
          | _ => "-d" :: domains
          end)%list
    /\ Forall (fun d => is_empty d = false /\ trimmed d) domains
    /\ (assoc "MCP_DOMAINS" (process_env E) = None -> domains = [])
    /\ (forall d,
          assoc "MCP_DOMAINS" (process_env E) = Some d ->
          (blank_list d = true -> domains = [])
          /\ domains
             = filter (fun x => negb (is_empty x))
                 (map trim (split (ascii_of_nat 44) d))).
Proof.
  unfold stdioArgs, baseArgs.
  destruct (assoc "MCP_DOMAINS" (process_env E)) as [d |].
  - exists (filter (fun x => negb (is_empty x))
              (map trim (split (ascii_of_nat 44) d))).
    split; [| split; [| split]].
    + destruct (filter _ _); [now rewrite app_nil_r | reflexivity].
    + apply Forall_forall. intros x Hx. apply filter_In in Hx as [Hin Hne].
      apply in_map_iff in Hin as (piece & <- & _).
      split; [now apply negb_true_iff in Hne | apply trim_trimmed].
    + discriminate.
    + intros d' [= <-]. split; [| reflexivity].
      intros Hb. apply no_domains_of_blank, split_blank_list, Hb.
  - exists []. rewrite app_nil_r. repeat split; auto; discriminate.
Qed.

(** X17: the environment of the spawned server is the one of the process,
    except that the three npm settings are forced to [false] and that,
    when a token is set and the context has an organisation,
    [AZURE_DEVOPS_ORG] is the organisation of the context.  The token is
    handed down exactly as the process has it. *)
Theorem stdioEnvironment_variables
  (E : Env) (authContext : AuthenticationContext) :
  let environment := stdioEnvironment E authContext in
  let token := assoc "AZURE_DEVOPS_TOKEN" (process_env E) in
  assoc "NPM_CONFIG_UPDATE_NOTIFIER" environment = Some "false"
  /\ assoc "NPM_CONFIG_FUND" environment = Some "false"
  /\ assoc "NPM_CONFIG_AUDIT" environment = Some "false"
  /\ assoc "AZURE_DEVOPS_TOKEN" environment = token
  /\ assoc "AZURE_DEVOPS_ORG" environment
     = (if (truthy_str token && truthy_str (azureDevOpsOrg authContext))%bool
        then azureDevOpsOrg authContext
        else assoc "AZURE_DEVOPS_ORG" (process_env E))
  /\ (forall k,
        ~ In k ["NPM_CONFIG_UPDATE_NOTIFIER"; "NPM_CONFIG_FUND";
                "NPM_CONFIG_AUDIT"; "AZURE_DEVOPS_TOKEN"; "AZURE_DEVOPS_ORG"] ->
        assoc k environment = assoc k (process_env E)).
Proof.
  cbv zeta. unfold stdioEnvironment, org_of.
  assert (Hother : forall k,
             ~ In k ["NPM_CONFIG_UPDATE_NOTIFIER"; "NPM_CONFIG_FUND";
                     "NPM_CONFIG_AUDIT"] ->
             assoc k
               (assign "NPM_CONFIG_AUDIT" "false"
                  (assign "NPM_CONFIG_FUND" "false"
                     (assign "NPM_CONFIG_UPDATE_NOTIFIER" "false"
                        (process_env E))))
             = assoc k (process_env E)).
  { intros k Hk. cbn [In] in Hk.
    rewrite !assoc_assign_other by (intros ->; tauto). reflexivity. }
  assert (Hnpm :
    assoc "NPM_CONFIG_UPDATE_NOTIFIER"
      (assign "NPM_CONFIG_AUDIT" "false"
         (assign "NPM_CONFIG_FUND" "false"
            (assign "NPM_CONFIG_UPDATE_NOTIFIER" "false" (process_env E))))
    = Some "false"
    /\ assoc "NPM_CONFIG_FUND"
         (assign "NPM_CONFIG_AUDIT" "false"
            (assign "NPM_CONFIG_FUND" "false"
               (assign "NPM_CONFIG_UPDATE_NOTIFIER" "false" (process_env E))))
       = Some "false"
    /\ assoc "NPM_CONFIG_AUDIT"
         (assign "NPM_CONFIG_AUDIT" "false"
            (assign "NPM_CONFIG_FUND" "false"
               (assign "NPM_CONFIG_UPDATE_NOTIFIER" "false" (process_env E))))
       = Some "false").
  { split; [| split].
    - rewrite !assoc_assign_other by discriminate. apply assoc_assign_same.
    - rewrite assoc_assign_other by discriminate. apply assoc_assign_same.
    - apply assoc_assign_same. }
  destruct Hnpm as (N1 & N2 & N3).
  pose proof (Hother "AZURE_DEVOPS_TOKEN"
                ltac:(cbn [In]; intros [H | [H | [H | []]]]; discriminate H))
    as Htok.
  pose proof (Hother "AZURE_DEVOPS_ORG"
                ltac:(cbn [In]; intros [H | [H | [H | []]]]; discriminate H))
    as Horg.
  assert (Hrest : forall k,
             ~ In k ["NPM_CONFIG_UPDATE_NOTIFIER"; "NPM_CONFIG_FUND";
                     "NPM_CONFIG_AUDIT"; "AZURE_DEVOPS_TOKEN";
                     "AZURE_DEVOPS_ORG"] ->
             ~ In k ["NPM_CONFIG_UPDATE_NOTIFIER"; "NPM_CONFIG_FUND";
                     "NPM_CONFIG_AUDIT"]).
  { intros k Hk Hin. apply Hk. cbn [In] in *. tauto. }
  destruct (assoc "AZURE_DEVOPS_TOKEN" (process_env E)) as [[| a t] |] eqn:Ht;
    cbn [truthy_str andb].
  - repeat split; auto.
  - destruct (azureDevOpsOrg authContext) as [[| c o] |] eqn:Ho;
      cbn [truthy_str str_or].
    + repeat split; auto.
    + rewrite !(assoc_assign_other "AZURE_DEVOPS_ORG") by discriminate.
      rewrite !(assoc_assign_other "AZURE_DEVOPS_TOKEN") by discriminate.
      rewrite N1, N2, N3, !assoc_assign_same.
      repeat split; auto.
      intros k Hk. cbn [In] in Hk.
      rewrite !assoc_assign_other by (intros ->; tauto). reflexivity.
    + repeat split; auto.
  - repeat split; auto.
Qed.

End SpawnFacts.

(* ===================================================================== *)
(** ** Facts about the routes of the server *)
(* ===================================================================== *)

Module ServerFacts.
Import Js Relay Auth Pool Server Vocabulary Samples ServerSamples.
Import JsFacts RelayFacts PoolFacts PoolLifecycleFacts.

Lemma hasOrganization_inv authContext ctx organization :
  hasOrganization authContext = Some (ctx, organization) ->
  authContext = Some ctx
  /\ azureDevOpsOrg ctx = Some organization
  /\ truthy_str (azureDevOpsOrg ctx) = true.
Proof.
  unfold hasOrganization. destruct authContext as [c |]; [| discriminate].
  destruct (azureDevOpsOrg c) as [[| a o] |] eqn:Ho; try discriminate.
  intros [= <- <-]. rewrite Ho. auto.
Qed.

Lemma argumentsOrEmpty_twice a :
  argumentsOrEmpty (Some (argumentsOrEmpty a)) = argumentsOrEmpty a.
Proof.
  destruct a as [v |]; [| reflexivity]. cbn [argumentsOrEmpty].
  destruct (truthy v) eqn:Hv; [now rewrite Hv | reflexivity].
Qed.

Lemma toolCalls_app (a b : list Event) :
  toolCalls (a ++ b) = (toolCalls a ++ toolCalls b)%list.
Proof. unfold toolCalls. now rewrite flat_map_app. Qed.

Lemma getTools_touch authContext r s :
  getTools authContext (touch r s) = getTools authContext s.
Proof.
  destruct authContext as [ctx |]; [| reflexivity].
  unfold getTools. rewrite get_touch.
  destruct (get s (generateAuthCacheKey ctx)) as [[r' i] |]; [| reflexivity].
  now destruct (Nat.eqb r r').
Qed.

Section WithServer.

Variable E : Env.
Variable number_text : float -> string.
Variable cannotDestructure : string -> string -> option json -> string.

(** What [getOrCreateClient] adds to the trace holds no tool call. *)
Lemma getOrCreateClient_no_toolCalls authContext s :
  exists evs,
    trace (snd (getOrCreateClient E authContext s)) = (trace s ++ evs)%list
    /\ toolCalls evs = [].
Proof.
  destruct (getOrCreateClient_cases E authContext s)
    as [(error & s' & evs & -> & _ & _ & _ & Ht & Hn)
       | [(r & _ & ->) | (t & ts & d & _ & ->)]]; cbn [snd].
  - now exists evs.
  - exists []. rewrite app_nil_r. split; [| reflexivity].
    now destruct (touch_frame r s) as (_ & _ & _ & ->).
  - eexists. cbn [trace]. split; reflexivity.
Qed.

(** A tool call once the instance is cached. *)
Lemma callTool_hit tool arguments_ ctx s r :
  truthy_str (azureDevOpsOrg ctx) = true ->
  cached s (generateAuthCacheKey ctx) = Some r ->
  exists i,
    nth_error (heap s) r = Some i
    /\ callTool E tool arguments_ (Some ctx) s
       = (callTool_result E (client i) tool (argumentsOrEmpty arguments_),
          emit (CallTool (client i) tool (argumentsOrEmpty arguments_))
            (touch r s)).
Proof.
  intros Ho Hc.
  destruct (cached_call E _ _ _ Ho Hc) as (Hcall & _ & _ & _ & i & Hi & Hi').
  exists i. split; [assumption |].
  unfold callTool, bind. now rewrite Hcall, Hi'.
Qed.

(** The three ways through the part the REST routes share. *)
Lemma withClient_cases authContext rest s :
  (hasOrganization authContext = None
   /\ withClient E authContext rest s
      = (mkResponse 401 (errorBody missingOrganization), s))
  \/ (exists ctx organization message s1,
        hasOrganization authContext = Some (ctx, organization)
        /\ getOrCreateClient E ctx s = (inl (Err message), s1)
        /\ withClient E authContext rest s
           = (mkResponse 500 (errorBody message), s1))
  \/ (exists ctx organization r s1,
        hasOrganization authContext = Some (ctx, organization)
        /\ getOrCreateClient E ctx s = (inr r, s1)
        /\ isReady (Some ctx) s1 = true
        /\ withClient E authContext rest s
           = match rest ctx organization s1 with
             | (inl (Err message), s') =>
                 (mkResponse 500 (errorBody message), s')
             | (inr response, s') => (response, s')
             end).
Proof.
  unfold withClient.
  destruct (hasOrganization authContext) as [[ctx organization] |];
    [| left; auto].
  right.
  destruct (getOrCreateClient E ctx s) as [[[message] | r] s1] eqn:Hg.
  - left. exists ctx, organization, message, s1. auto.
  - right. exists ctx, organization, r, s1.
    destruct (ready_after E _ _ _ _ Hg) as [Hr _]. rewrite Hr. cbn [negb].
    auto.
Qed.

Lemma withClient_status authContext rest s (allowed : list Z) :
  In 401%Z allowed -> In 500%Z allowed ->
  (forall ctx organization s1 response s',
     rest ctx organization s1 = (inr response, s') ->
     In (statusCode response) allowed) ->
  In (statusCode (fst (withClient E authContext rest s))) allowed.
Proof.
  intros H401 H500 Hrest.
  destruct (withClient_cases authContext rest s)
    as [[_ ->] | [(ctx & o & m & s1 & _ & _ & ->)
                 | (ctx & o & r & s1 & _ & _ & _ & ->)]]; cbn [fst statusCode];
    auto.
  destruct (rest ctx o s1) as [[[m] | response] s'] eqn:Hr;
    cbn [fst statusCode]; eauto.
Qed.

End WithServer.

(** X18: no REST route ever answers 503: whenever [getOrCreateClient]
    returns, the context is ready, so the branch [MCP client not ready]
    cannot be taken.  The two listing routes answer 200, 401 or 500, the
    call route also 404, the batch route also 400. *)
Theorem rest_routes_statuses
  (E : Env) (number_text : float -> string)
  (cannotDestructure : string -> string -> option json -> string)
  (authContext : option AuthenticationContext) (toolName : string)
  (body : option json) (s : State) :
  In (statusCode (fst (toolsCountRoute E authContext s))) [200; 401; 500]%Z
  /\ In (statusCode (fst (toolsListRoute E authContext s))) [200; 401; 500]%Z
  /\ In (statusCode
           (fst (callRoute E cannotDestructure authContext toolName body s)))
       [200; 401; 404; 500]%Z
  /\ In (statusCode
           (fst (batchRoute E number_text cannotDestructure authContext body s)))
       [200; 400; 401; 500]%Z.
Proof.
  repeat split.
  - apply withClient_status; cbn [In]; auto.
    intros ctx o s1 response s' [= <- _]. cbn. auto.
  - apply withClient_status; cbn [In]; auto.
    intros ctx o s1 response s' [= <- _]. cbn. auto.
  - apply withClient_status; cbn [In]; auto.
    intros ctx o s1 response s'.
    destruct body as [[] |]; try discriminate;
      (destruct (getTool toolName (Some ctx) s1);
       [destruct (callTool E toolName _ (Some ctx) s1) as [[e | result] s2];
        [discriminate |] |]; intros [= <- _]; cbn; auto).
  - apply withClient_status; cbn [In]; auto.
    intros ctx o s1 response s'.
    destruct body as [b |]; [| discriminate].
    destruct b; try discriminate; cbn [field];
      try (intros [= <- _]; cbn; auto).
    destruct (assoc "tools" props) as [[] |]; try (intros [= <- _]; cbn; auto).
    destruct (batchLoop E number_text cannotDestructure ctx items [] s1)
      as [[e | results] s2]; [discriminate |].
    intros [= <- _]. cbn. auto.
Qed.

Lemma callRoute_body E cannotDestructure authContext toolName b s :
  b <> JNull ->
  callRoute E cannotDestructure authContext toolName (Some b) s
  = withClient E authContext
      (fun ctx organization s1 =>
         match getTool toolName (Some ctx) s1 with
         | None =>
             (inr (mkResponse 404
                     (errorBody ("Tool '" ++ toolName ++ "' not found"))), s1)
         | Some _ =>
             match callTool E toolName
                     (Some (argumentsOrEmpty (field b "arguments")))
                     (Some ctx) s1 with
             | (inl error, s2) => (inl error, s2)
             | (inr result, s2) =>
                 (inr (ok (JObj [("success", JBool true);
                                 ("data", result);
                                 ("organization", JStr organization)])), s2)
             end
         end) s.
Proof. intros Hb. destruct b; try reflexivity. congruence. Qed.

Lemma callRoute_no_body E cannotDestructure authContext toolName body s :
  body = None \/ body = Some JNull ->
  callRoute E cannotDestructure authContext toolName body s
  = withClient E authContext
      (fun ctx organization s1 =>
         (inl (Err (cannotDestructure "req.body" "arguments" body)), s1)) s.
Proof. intros [-> | ->]; reflexivity. Qed.

Lemma body_cases (body : option json) :
  (body = None \/ body = Some JNull) \/ exists b, body = Some b /\ b <> JNull.
Proof.
  destruct body as [b |]; [| now left; left].
  destruct b; try (right; eexists; split; [reflexivity | discriminate]).
  left. now right.
Qed.

Lemma getTool_named tool authContext s t :
  getTool tool authContext s = Some t ->
  In tool (toolNames (getTools authContext s)).
Proof.
  unfold getTool. intros H. apply find_some in H as [Hin Hn].
  apply String.eqb_eq in Hn. subst tool. unfold toolNames. now apply in_map.
Qed.

(** X19: the call route hands the backend at most one tool call, and only
    for a tool of the catalogue of the context: a request for an unknown
    tool is answered 404, and one without an organisation 401, without any
    call.  The call made carries the [arguments] of the body, or [{}] when
    they are missing or falsy. *)
Theorem callRoute_calls_catalogued_tools_only
  (E : Env) (cannotDestructure : string -> string -> option json -> string)
  (authContext : option AuthenticationContext) (toolName : string)
  (body : option json) (s : State) :
  let out := callRoute E cannotDestructure authContext toolName body s in
  exists evs,
    trace (snd out) = (trace s ++ evs)%list
    /\ (toolCalls evs = []
        \/ exists b,
             body = Some b
             /\ toolCalls evs
                = [(toolName, argumentsOrEmpty (field b "arguments"))]
             /\ In toolName (toolNames (getTools authContext (snd out)))
             /\ In (statusCode (fst out)) [200; 500]%Z)
    /\ (In (statusCode (fst out)) [401; 404]%Z -> toolCalls evs = []).
Proof.
  cbv zeta.
  destruct (body_cases body) as [Hnone | (b & -> & Hb)].
  - rewrite (callRoute_no_body _ _ _ _ _ _ Hnone).
    destruct (withClient_cases E authContext
                (fun ctx organization s1 =>
                   (inl (Err (cannotDestructure "req.body" "arguments" body)),
                    s1)) s)
      as [[_ ->] | [(ctx & o & m & s1 & _ & Hg & ->)
                   | (ctx & o & r & s1 & _ & Hg & _ & ->)]]; cbn [fst snd].
    + exists []. rewrite app_nil_r. auto.
    + destruct (getOrCreateClient_no_toolCalls E ctx s) as (evs & Ht & Hn).
      rewrite Hg in Ht. exists evs. auto.
    + destruct (getOrCreateClient_no_toolCalls E ctx s) as (evs & Ht & Hn).
      rewrite Hg in Ht. exists evs. auto.
  - rewrite (callRoute_body _ _ _ _ _ _ Hb).
    match goal with
    | |- context [withClient E authContext ?f s] =>
        destruct (withClient_cases E authContext f s)
          as [[_ ->] | [(ctx & o & m & s1 & _ & Hg & ->)
                       | (ctx & o & r & s1 & Ho & Hg & _ & ->)]]
    end; cbn [fst snd].
    + exists []. rewrite app_nil_r. auto.
    + destruct (getOrCreateClient_no_toolCalls E ctx s) as (evs & Ht & Hn).
      rewrite Hg in Ht. exists evs. auto.
    + destruct (getOrCreateClient_no_toolCalls E ctx s) as (evs & Ht & Hn).
      rewrite Hg in Ht. cbn [snd] in Ht.
      destruct (hasOrganization_inv _ _ _ Ho) as (-> & _ & Horg).
      destruct (getTool toolName (Some ctx) s1) as [t |] eqn:Hfind.
      * pose proof (getOrCreateClient_caches E _ _ _ _ Hg) as Hc.
        destruct (callTool_hit E toolName
                    (Some (argumentsOrEmpty (field b "arguments")))
                    ctx s1 r Horg Hc) as (i & Hi & ->).
        rewrite argumentsOrEmpty_twice.
        exists (evs ++ [CallTool (client i) toolName
                          (argumentsOrEmpty (field b "arguments"))])%list.
        destruct (callTool_result E (client i) toolName
                    (argumentsOrEmpty (field b "arguments")))
          as [[m] | result]; cbn [fst snd statusCode ok];
          (split; [cbn [emit trace];
                   destruct (touch_frame r s1) as (_ & _ & _ & ->);
                   now rewrite Ht, app_assoc |]);
          (split; [right; exists b; split; [reflexivity |];
                   split; [now rewrite toolCalls_app, Hn |];
                   split; [| cbn [In]; auto];
                   change (getTools (Some ctx) (emit ?ev ?st))
                     with (getTools (Some ctx) st);
                   rewrite getTools_touch; now apply (getTool_named _ _ _ t)
                  | cbn [In]; intros [H | [H | []]]; discriminate H]).
      * exists evs. cbn [fst snd]. auto.
Qed.



(** *** The batch route *)

Lemma batchLoop_cons E number_text cannotDestructure ctx toolCall rest
  results s :
  toolCall <> JNull ->
  batchLoop E number_text cannotDestructure ctx (toolCall :: rest) results s =
    let name := field toolCall "name" in
    let failed message :=
      object [("toolName", name); ("success", Some (JBool false));
              ("error", Some (JStr message))] in
    match findTool name ctx s with
    | None =>
        match template number_text name with
        | inl typeError =>
            batchLoop E number_text cannotDestructure ctx rest
              (results ++ [failed typeError]) s
        | inr text =>
            batchLoop E number_text cannotDestructure ctx rest
              (results ++ [failed ("Tool '" ++ text ++ "' not found")]) s
        end
    | Some n =>
        match callTool E n (Some (argumentsOrEmpty (field toolCall "arguments")))
                (Some ctx) s with
        | (inl (Err message), s1) =>
            batchLoop E number_text cannotDestructure ctx rest
              (results ++ [failed message]) s1
        | (inr result, s1) =>
            batchLoop E number_text cannotDestructure ctx rest
              (results ++ [object [("toolName", name);
                                   ("success", Some (JBool true));
                                   ("data", Some result)]]) s1
        end
    end.
Proof. intros Hb. destruct toolCall; try reflexivity. congruence. Qed.

Lemma batchResult_failed toolCall message :
  batchResult toolCall
    (object [("toolName", field toolCall "name");
             ("success", Some (JBool false));
             ("error", Some (JStr message))]).
Proof.
  unfold batchResult. destruct (field toolCall "name"); cbn; eauto.
Qed.

Lemma batchResult_succeeded toolCall result :
  batchResult toolCall
    (object [("toolName", field toolCall "name");
             ("success", Some (JBool true));
             ("data", Some result)]).
Proof.
  unfold batchResult. destruct (field toolCall "name"); cbn; eauto.
Qed.

Lemma batchLoop_results E number_text cannotDestructure ctx tools :
  Forall (fun toolCall => toolCall <> JNull) tools ->
  forall results s,
  exists rs s',
    batchLoop E number_text cannotDestructure ctx tools results s
    = (inr (results ++ rs)%list, s')
    /\ Forall2 batchResult tools rs.
Proof.
  induction 1 as [| toolCall rest Hb _ IH]; intros results s.
  - exists [], s. cbn [batchLoop]. rewrite app_nil_r. split; constructor.
  - rewrite (batchLoop_cons _ _ _ _ _ _ _ _ Hb). cbv zeta.
    destruct (findTool (field toolCall "name") ctx s) as [n |].
    + destruct (callTool E n _ (Some ctx) s) as [[[m] | result] s1].
      * destruct (IH (results ++ [object [("toolName", field toolCall "name");
                                          ("success", Some (JBool false));
                                          ("error", Some (JStr m))]])%list s1)
          as (rs & s' & -> & Hrs).
        eexists (_ :: rs), s'. rewrite <- app_assoc. split; [reflexivity |].
        constructor; [apply batchResult_failed | exact Hrs].
      * destruct (IH (results ++ [object [("toolName", field toolCall "name");
                                          ("success", Some (JBool true));
                                          ("data", Some result)]])%list s1)
          as (rs & s' & -> & Hrs).
        eexists (_ :: rs), s'. rewrite <- app_assoc. split; [reflexivity |].
        constructor; [apply batchResult_succeeded | exact Hrs].
    + destruct (template number_text (field toolCall "name")) as [e | text].
      * destruct (IH (results ++ [object [("toolName", field toolCall "name");
                                          ("success", Some (JBool false));
                                          ("error", Some (JStr e))]])%list s)
          as (rs & s' & -> & Hrs).
        eexists (_ :: rs), s'. rewrite <- app_assoc. split; [reflexivity |].
        constructor; [apply batchResult_failed | exact Hrs].
      * destruct (IH (results
                      ++ [object [("toolName", field toolCall "name");
                                  ("success", Some (JBool false));
                                  ("error",
                                   Some (JStr ("Tool '" ++ text
                                               ++ "' not found")))]])%list s)
          as (rs & s' & -> & Hrs).
        eexists (_ :: rs), s'. rewrite <- app_assoc. split; [reflexivity |].
        constructor; [apply batchResult_failed | exact Hrs].
Qed.

Lemma getTool_cached tool ctx s r i :
  cached s (generateAuthCacheKey ctx) = Some r ->
  nth_error (heap s) r = Some i ->
  getTool tool (Some ctx) s
  = find (fun t => String.eqb (name t) tool) (tools i).
Proof.
  intros Hc Hi.
  destruct (PoolLifecycleFacts.get_of_cached _ _ _ Hc) as (i' & Hg & Hi' & _).
  rewrite Hi in Hi'. injection Hi' as <-.
  unfold getTool, getTools. now rewrite Hg.
Qed.

Lemma find_listed catalogue n :
  listed catalogue n
  = match find (fun t => String.eqb (name t) n) catalogue with
    | Some _ => true
    | None => false
    end.
Proof.
  unfold listed. induction catalogue as [| t ts IH]; cbn [existsb find]; auto.
  destruct (String.eqb (name t) n); auto.
Qed.

(** The tool the loop finds for an item is the call the item stands
    for. *)
Lemma findTool_cached ctx s r i toolCall :
  cached s (generateAuthCacheKey ctx) = Some r ->
  nth_error (heap s) r = Some i ->
  findTool (field toolCall "name") ctx s
  = option_map fst (itemCall (tools i) toolCall).
Proof.
  intros Hc Hi. unfold findTool, itemCall.
  destruct (field toolCall "name") as [[] |]; try reflexivity.
  rewrite (getTool_cached _ _ _ _ _ Hc Hi), find_listed.
  now destruct (find _ (tools i)).
Qed.

Lemma itemCall_arguments catalogue toolCall n arguments :
  itemCall catalogue toolCall = Some (n, arguments) ->
  arguments = argumentsOrEmpty (field toolCall "arguments").
Proof.
  unfold itemCall. destruct (field toolCall "name") as [[] |]; try discriminate.
  destruct (listed catalogue s); [| discriminate]. now intros [= _ <-].
Qed.

(** With the instance of the context cached, the loop of the batch route
    gives every item the entry it should get and makes the calls the
    items stand for, in order, at the client of that instance. *)
Lemma batchLoop_cached E number_text cannotDestructure ctx tools :
  truthy_str (azureDevOpsOrg ctx) = true ->
  Forall (fun toolCall => toolCall <> JNull) tools ->
  forall results s r i,
    cached s (generateAuthCacheKey ctx) = Some r ->
    nth_error (heap s) r = Some i ->
    exists s',
      batchLoop E number_text cannotDestructure ctx tools results s
      = (inr (results
              ++ map (itemResult E number_text (Pool.tools i) (client i))
                   tools)%list, s')
      /\ trace s'
         = (trace s
            ++ flat_map (itemEvents (Pool.tools i) (client i)) tools)%list
      /\ created s' = created s
      /\ clients s' = clients s.
Proof.
  intros Horg. induction 1 as [| toolCall rest Hb _ IH];
    intros results s r i Hc Hi.
  - exists s. cbn [batchLoop map flat_map]. rewrite !app_nil_r. auto.
  - rewrite (batchLoop_cons _ _ _ _ _ _ _ _ Hb). cbv zeta.
    rewrite (findTool_cached _ _ _ _ toolCall Hc Hi).
    cbn [map flat_map]. unfold itemResult at 1, itemEvents at 1.
    destruct (itemCall (Pool.tools i) toolCall) as [[n arguments] |] eqn:Hitem;
      cbn [option_map fst].
    + rewrite (itemCall_arguments _ _ _ _ Hitem).
      destruct (callTool_hit E n
                  (Some (argumentsOrEmpty (field toolCall "arguments")))
                  ctx s r Horg Hc) as (i0 & Hi0 & ->).
      rewrite Hi in Hi0. injection Hi0 as <-.
      rewrite argumentsOrEmpty_twice.
      destruct (touch_frame r s) as (Hcl & Hcr & _ & Htr).
      assert (Hc' : cached (emit (CallTool (client i) n
                                    (argumentsOrEmpty
                                       (field toolCall "arguments")))
                              (touch r s)) (generateAuthCacheKey ctx)
                    = Some r).
      { change (cached (emit ?ev ?st) ?k) with (cached st k).
        now rewrite cached_touch. }
      assert (Hi' : nth_error
                      (heap (emit (CallTool (client i) n
                                     (argumentsOrEmpty
                                        (field toolCall "arguments")))
                               (touch r s))) r
                    = Some (mkInstance (client i) (transport i) (Pool.tools i)
                              (isInitialized i) (clock s))).
      { change (heap (emit ?ev ?st)) with (heap st). now apply touch_at. }
      destruct (callTool_result E (client i) n
                  (argumentsOrEmpty (field toolCall "arguments")))
        as [[m] | result];
        match goal with
        | |- context [batchLoop _ _ _ _ _ ?rs ?st] =>
            destruct (IH rs st r _ Hc' Hi') as (s' & -> & Ht & Hn & Hm)
        end;
        exists s'; cbn [client Pool.tools] in *;
        cbn [emit trace created clients] in Ht, Hn, Hm;
        rewrite Ht, Hn, Hm, Htr, Hcr, Hcl, <- !app_assoc; auto.
    + destruct (template number_text (field toolCall "name")) as [e | text];
        match goal with
        | |- context [batchLoop _ _ _ _ _ ?rs ?st] =>
            destruct (IH rs st r i Hc Hi) as (s' & -> & Ht & Hn & Hm)
        end;
        exists s'; rewrite <- !app_assoc; auto.
Qed.

Lemma batchResult_itemResult E number_text catalogue c toolCall :
  batchResult toolCall (itemResult E number_text catalogue c toolCall).
Proof.
  unfold itemResult.
  destruct (itemCall catalogue toolCall) as [[n arguments] |].
  - destruct (callTool_result E c n arguments) as [[m] | result];
      [apply batchResult_failed | apply batchResult_succeeded].
  - destruct (template number_text (field toolCall "name"));
      apply batchResult_failed.
Qed.

(** X21: a batch without a [null] item is answered 200 with one result
    for every item, in the order of the items, and each result depends on
    its own item only.  An item whose [name] is a string naming a tool of
    the catalogue of the instance is called at the client of that
    instance, with its [arguments] or [{}]: what the backend answers is the
    [data] of a success, what it throws the [error] of a failure.  Any
    other item is a failure [Tool '...' not found] (or the message of the
    [TypeError] when the name cannot be converted to text) and causes no
    call.  The calls made are those of the items that stand for one, in
    the order of the items: a tool that is unknown, or whose call throws,
    fails alone, and the items after it are still run.  No client is
    constructed and the map is as [getOrCreateClient] left it. *)
Theorem batchRoute_one_result_per_item
  (E : Env) (number_text : float -> string)
  (cannotDestructure : string -> string -> option json -> string)
  (ctx : AuthenticationContext) (organization : string) (b : json)
  (tools : list json) (s s1 : State) (r : ref) (i : MCPClientInstance) :
  hasOrganization (Some ctx) = Some (ctx, organization) ->
  getOrCreateClient E ctx s = (inr r, s1) ->
  nth_error (heap s1) r = Some i ->
  field b "tools" = Some (JArr tools) ->
  Forall (fun toolCall => toolCall <> JNull) tools ->
  exists results s',
    batchRoute E number_text cannotDestructure (Some ctx) (Some b) s
    = (ok (JObj [("success", JBool true); ("results", JArr results);
                 ("organization", JStr organization)]), s')
    /\ results
       = map (itemResult E number_text (Pool.tools i) (client i)) tools
    /\ trace s'
       = (trace s1
          ++ flat_map (itemEvents (Pool.tools i) (client i)) tools)%list
    /\ created s' = created s1
    /\ clients s' = clients s1
    /\ Forall2 batchResult tools results
    /\ length results = length tools.
Proof.
  intros Ho Hg Hi Hf Hnn.
  destruct (hasOrganization_inv _ _ _ Ho) as (_ & _ & Horg).
  pose proof (getOrCreateClient_caches E _ _ _ _ Hg) as Hc.
  destruct (batchLoop_cached E number_text cannotDestructure ctx tools Horg
              Hnn [] s1 r i Hc Hi) as (s' & Hrun & Ht & Hn & Hm).
  cbn [app] in Hrun.
  exists (map (itemResult E number_text (Pool.tools i) (client i)) tools), s'.
  split; [| split; [reflexivity |]].
  - unfold batchRoute, withClient. rewrite Ho, Hg.
    destruct (ready_after E _ _ _ _ Hg) as [-> _]. cbn [negb].
    destruct b; try discriminate Hf. rewrite Hf, Hrun. reflexivity.
  - split; [exact Ht |]. split; [exact Hn |]. split; [exact Hm |].
    split; [| apply length_map].
    clear. induction tools as [| toolCall rest IH]; cbn [map]; constructor;
      [apply batchResult_itemResult | exact IH].
Qed.

Lemma batchRoute_one_result_per_item_witness :
  exists results s',
    batchRoute failing sample_number_text sample_cannotDestructure (Some acme)
      (Some (JObj [("tools", JArr batch)])) (initial 0)
    = (ok (JObj [("success", JBool true); ("results", JArr results);
                 ("organization", JStr "acme")]), s')
    /\ results
       = [JObj [("toolName", JStr "core_list_projects");
                ("success", JBool false);
                ("error", JStr "Request timed out")];
          JObj [("toolName", JStr "nope"); ("success", JBool false);
                ("error", JStr "Tool 'nope' not found")];
          JObj [("success", JBool false);
                ("error", JStr "Tool 'undefined' not found")]]
    /\ trace s'
       = (trace (snd (getOrCreateClient failing acme (initial 0)))
          ++ [CallTool 0 "core_list_projects" (JObj [])])%list
    /\ created s' = 1
    /\ clients s' = [("acme|stdio|", 0)]
    /\ Forall2 batchResult batch results
    /\ length results = 3.
Proof.
  apply (batchRoute_one_result_per_item failing sample_number_text
           sample_cannotDestructure acme "acme" (JObj [("tools", JArr batch)])
           batch (initial 0)
           (snd (getOrCreateClient failing acme (initial 0))) 0
           (mkInstance 0
              (StdioClientTransport "npx" (stdioArgs failing acme)
                 (stdioEnvironment failing acme))
              catalogue true 2000)); try reflexivity.
  repeat constructor; discriminate.
Defined.

Lemma batchLoop_null E number_text cannotDestructure ctx tools :
  In JNull tools ->
  forall results s,
  exists s',
    batchLoop E number_text cannotDestructure ctx tools results s
    = (inl (Err "Cannot read properties of null (reading 'name')"), s').
Proof.
  induction tools as [| toolCall rest IH]; intros Hin results s;
    [contradiction |].
  assert (Hnull : toolCall = JNull \/ toolCall <> JNull)
    by (destruct toolCall; (now left) || (right; discriminate)).
  destruct Hnull as [-> | Hb].
  - exists s. reflexivity.
  - destruct Hin as [Heq | Hin]; [congruence |].
    rewrite (batchLoop_cons _ _ _ _ _ _ _ _ Hb). cbv zeta.
    destruct (findTool (field toolCall "name") ctx s) as [n |];
      [destruct (callTool E n _ (Some ctx) s) as [[[m] | result] s1]
      | destruct (template number_text (field toolCall "name"))];
      apply (IH Hin).
Qed.

(** X22: a [null] among the items breaks the whole batch: the handler
    meant to record the failure reads [toolCall.name] and throws again, so
    the route answers 500 and the results of the items before it, whose
    calls were made, are lost. *)
Theorem batchRoute_null_item_aborts
  (E : Env) (number_text : float -> string)
  (cannotDestructure : string -> string -> option json -> string)
  (ctx : AuthenticationContext) (organization : string) (b : json)
  (tools : list json) (s s1 : State) (r : ref) :
  hasOrganization (Some ctx) = Some (ctx, organization) ->
  getOrCreateClient E ctx s = (inr r, s1) ->
  field b "tools" = Some (JArr tools) ->
  In JNull tools ->
  exists s',
    batchRoute E number_text cannotDestructure (Some ctx) (Some b) s
    = (mkResponse 500
         (errorBody "Cannot read properties of null (reading 'name')"), s').
Proof.
  intros Ho Hg Hf Hin.
  destruct (batchLoop_null E number_text cannotDestructure ctx tools Hin
              [] s1) as (s' & Hrun).
  exists s'. unfold batchRoute, withClient. rewrite Ho, Hg.
  destruct (ready_after E _ _ _ _ Hg) as [-> _]. cbn [negb].
  destruct b; try discriminate Hf. rewrite Hf, Hrun. reflexivity.
Qed.

Lemma batchRoute_null_item_aborts_witness :
  exists s',
    batchRoute healthy sample_number_text sample_cannotDestructure (Some acme)
      (Some (JObj [("tools", JArr batch_with_null)])) (initial 0)
    = (mkResponse 500
         (errorBody "Cannot read properties of null (reading 'name')"), s').
Proof.
  apply (batchRoute_null_item_aborts healthy sample_number_text
           sample_cannotDestructure acme "acme"
           (JObj [("tools", JArr batch_with_null)]) batch_with_null
           (initial 0) acme_ready 0); try reflexivity.
  right. now left.
Defined.

(** *** The JSON-RPC route *)

Lemma rpcAnswer_error id code message :
  In code [(-32600)%float; (-32601)%float; (-32602)%float; (-32603)%float] ->
  rpcAnswer id (ok (rpcError id code message)).
Proof.
  intros H. split; [reflexivity |]. right. exists code, message.
  split; [reflexivity | exact H].
Qed.

Lemma rpcAnswer_result id result : rpcAnswer id (ok (rpcResult id result)).
Proof. split; [reflexivity |]. left. now exists result. Qed.

Create HintDb rpc.
#[local] Hint Resolve rpcAnswer_result : rpc.
#[local] Hint Extern 1 (rpcAnswer _ (ok (rpcError _ _ _))) =>
  apply rpcAnswer_error; cbn [In]; tauto : rpc.


Lemma mcpRoute_body E number_text cannotDestructure authContext b s :
  b <> JNull ->
  mcpRoute E number_text cannotDestructure authContext (Some b) s
  = (let (response, s') :=
       if negb (is_text "2.0" (field b "jsonrpc")) then
         (ok (rpcError (field b "id") (-32600)
                "Invalid Request - jsonrpc must be 2.0"), s)
       else if is_text "initialize" (field b "method") then
         initializeCase E (field b "id") s
       else if is_text "tools/list" (field b "method") then
         toolsListCase E authContext (field b "id") s
       else if is_text "tools/call" (field b "method") then
         toolsCallCase E number_text cannotDestructure authContext
           (field b "id") (field b "params") s
       else
         match template number_text (field b "method") with
         | inl _ => (ok (rpcError (field b "id") (-32700) "Parse error"), s)
         | inr text =>
             (ok (rpcError (field b "id") (-32601)
                    ("Method '" ++ text ++ "' not found")), s)
         end in
     (inr response, s')).
Proof. intros Hb. destruct b; try reflexivity. congruence. Qed.





(** The request [{"jsonrpc":"2.0","id":7,"method":{"toString":null}}] is
    answered with [Parse error]. *)
Example parse_error_for_a_method_without_text :
  fst (mcpRoute healthy sample_number_text sample_cannotDestructure (Some acme)
         (Some (JObj [("jsonrpc", JStr "2.0"); ("id", JNum 7);
                      ("method", JObj [("toString", JNull)])]))
         (initial 0))
  = inr (ok (rpcError (Some (JNum 7)) (-32700) "Parse error")).
Proof. reflexivity. Qed.




(** X25: the listing routes never ask the backend again: for a context
    whose instance is cached they answer from the catalogue fetched when
    the instance was created, and nothing at all is sent to the backend.
    The count of [/api/tools] is the length of the list of
    [/api/tools/list]. *)
Theorem listing_routes_serve_cached_catalogue
  (E : Env) (ctx : AuthenticationContext) (organization : string)
  (s : State) (r : ref) :
  hasOrganization (Some ctx) = Some (ctx, organization) ->
  cached s (generateAuthCacheKey ctx) = Some r ->
  exists i,
    nth_error (heap s) r = Some i
    /\ toolsListRoute E (Some ctx) s
       = (ok (JObj [("tools", JArr (map toolDocument (tools i)));
                    ("organization", JStr organization)]),
          touch r s)
    /\ toolsCountRoute E (Some ctx) s
       = (ok (JObj [("toolsCount", number (length (tools i)));
                    ("organization", JStr organization);
                    ("message",
                     JStr "Use /api/tools/list to get full tools list")]),
          touch r s)
    /\ trace (touch r s) = trace s.
Proof.
  intros Ho Hc.
  destruct (hasOrganization_inv _ _ _ Ho) as (_ & _ & Horg).
  pose proof (getOrCreateClient_hit E _ _ _ Horg Hc) as Hhit.
  destruct (ready_after E _ _ _ _ Hhit) as [Hr (i' & _ & Ht)].
  rewrite getTools_touch in Ht.
  destruct (PoolLifecycleFacts.get_of_cached _ _ _ Hc) as (i & Hg & Hi & _).
  assert (Hti : getTools (Some ctx) s = tools i)
    by (unfold getTools; now rewrite Hg).
  exists i. split; [exact Hi |].
  destruct (touch_frame r s) as (_ & _ & _ & Htr).
  unfold toolsListRoute, toolsCountRoute, withClient.
  rewrite Ho, Hhit, Hr. cbn [negb]. rewrite getTools_touch, Hti. auto.
Qed.

Lemma listing_routes_serve_cached_catalogue_witness :
  exists i,
    nth_error (heap acme_ready) 0 = Some i
    /\ toolsListRoute healthy (Some acme) acme_ready
       = (ok (JObj [("tools", JArr (map toolDocument (tools i)));
                    ("organization", JStr "acme")]),
          touch 0 acme_ready)
    /\ toolsCountRoute healthy (Some acme) acme_ready
       = (ok (JObj [("toolsCount", number (length (tools i)));
                    ("organization", JStr "acme");
                    ("message",
                     JStr "Use /api/tools/list to get full tools list")]),
          touch 0 acme_ready)
    /\ trace (touch 0 acme_ready) = trace acme_ready.
Proof.
  apply (listing_routes_serve_cached_catalogue healthy acme "acme" acme_ready 0);
    reflexivity.
Defined.

Lemma hasOrganization_of_truthy ctx :
  truthy_str (azureDevOpsOrg ctx) = true ->
  exists organization,
    hasOrganization (Some ctx) = Some (ctx, organization).
Proof.
  unfold hasOrganization.
  destruct (azureDevOpsOrg ctx) as [[| a o] |]; try discriminate. eauto.
Qed.

(** The three ways through the part [tools/list] and [tools/call] share;
    [ctx] is the context of the request when it has an organisation, and
    else the one of the environment. *)
Lemma rpcWithClient_cases E authContext id rest s :
  let ctx := match hasOrganization authContext with
             | Some (c, _) => c
             | None => environmentContext E
             end in
  (truthy_str (azureDevOpsOrg ctx) = false
   /\ rpcWithClient E authContext id rest s
      = (ok (rpcError id (-32603) missingOrganizationRpc), s))
  \/ (exists message s1,
        getOrCreateClient E ctx s = (inl (Err message), s1)
        /\ rpcWithClient E authContext id rest s
           = (ok (rpcError id (-32603) message), s1))
  \/ (exists r s1,
        truthy_str (azureDevOpsOrg ctx) = true
        /\ getOrCreateClient E ctx s = (inr r, s1)
        /\ rpcWithClient E authContext id rest s
           = match rest ctx s1 with
             | (inl (Err message), s') =>
                 (ok (rpcError id (-32603) message), s')
             | (inr response, s') => (response, s')
             end).
Proof.
  cbv zeta. unfold rpcWithClient.
  destruct (hasOrganization authContext) as [[c o] |] eqn:Ha.
  - rewrite Ha. destruct (hasOrganization_inv _ _ _ Ha) as (_ & _ & Horg).
    right.
    destruct (getOrCreateClient E c s) as [[[m] | r] s1] eqn:Hg.
    + left. eauto.
    + right. exists r, s1. destruct (ready_after E _ _ _ _ Hg) as [-> _].
      auto.
  - destruct (truthy_str (azureDevOpsOrg (environmentContext E))) eqn:Horg.
    + destruct (hasOrganization_of_truthy _ Horg) as (o & ->). right.
      destruct (getOrCreateClient E (environmentContext E) s)
        as [[[m] | r] s1] eqn:Hg.
      * left. eauto.
      * right. exists r, s1. destruct (ready_after E _ _ _ _ Hg) as [-> _].
        auto.
    + left. split; [reflexivity |]. unfold hasOrganization.
      destruct (azureDevOpsOrg (environmentContext E)) as [[| a o] |];
        try discriminate; reflexivity.
Qed.

(** X26: [initialize] warms the cache: once it has created the client of
    the environment's organisation, a [tools/list] from a request without
    an organisation, or with the environment's context, is served from the
    cached instance, without a new connection, and lists the catalogue of
    that instance. *)
Theorem initialize_warms_cache
  (E : Env) (authContext : option AuthenticationContext)
  (id id' : option json) (s s1 : State) (r : ref) :
  getOrCreateClient E (environmentContext E) s = (inr r, s1) ->
  hasOrganization authContext = None
  \/ authContext = Some (environmentContext E) ->
  initializeCase E id s = (ok (rpcResult id initializeResult), s1)
  /\ exists i,
       nth_error (heap s1) r = Some i
       /\ toolsListCase E authContext id' s1
          = (ok (rpcResult id'
                   (JObj [("tools", JArr (map toolDocument (tools i)))])),
             touch r s1)
       /\ trace (touch r s1) = trace s1
       /\ created (touch r s1) = created s1.
Proof.
  intros Hg Hauth.
  pose proof (getOrCreateClient_has_org E _ _ _ _ Hg) as Horg.
  split.
  { unfold initializeCase. now rewrite Horg, Hg. }
  destruct (ready_after E _ _ _ _ Hg) as [_ (i & Hi & Ht)].
  exists i. split; [exact Hi |].
  destruct (touch_frame r s1) as (_ & Hcr & _ & Htr).
  split; [| split; assumption].
  pose proof (getOrCreateClient_caches E _ _ _ _ Hg) as Hc.
  pose proof (getOrCreateClient_hit E _ _ _ Horg Hc) as Hhit.
  destruct (hasOrganization_of_truthy _ Horg) as (o & Ho).
  assert (Hctx : match hasOrganization authContext with
                 | Some (c, _) => c
                 | None => environmentContext E
                 end = environmentContext E).
  { destruct Hauth as [-> | ->]; [reflexivity | now rewrite Ho]. }
  unfold toolsListCase.
  match goal with
  | |- rpcWithClient E authContext id' ?f s1 = _ =>
      destruct (rpcWithClient_cases E authContext id' f s1)
        as [[Hno _] | [(m & s2 & Hfail & _) | (r' & s2 & _ & Hok & ->)]]
  end; rewrite Hctx in *.
  - congruence.
  - congruence.
  - rewrite Hhit in Hok. injection Hok as <- <-.
    now rewrite getTools_touch, Ht.
Qed.

Lemma initialize_warms_cache_witness :
  initializeCase configured (Some (JNum 1)) (initial 0)
  = (ok (rpcResult (Some (JNum 1)) initializeResult),
     snd (getOrCreateClient configured (environmentContext configured)
            (initial 0)))
  /\ exists i,
       nth_error
         (heap (snd (getOrCreateClient configured
                       (environmentContext configured) (initial 0)))) 0
       = Some i
       /\ toolsListCase configured None (Some (JNum 2))
            (snd (getOrCreateClient configured (environmentContext configured)
                    (initial 0)))
          = (ok (rpcResult (Some (JNum 2))
                   (JObj [("tools", JArr (map toolDocument (tools i)))])),
             touch 0 (snd (getOrCreateClient configured
                             (environmentContext configured) (initial 0))))
       /\ trace (touch 0 (snd (getOrCreateClient configured
                                 (environmentContext configured) (initial 0))))
          = trace (snd (getOrCreateClient configured
                          (environmentContext configured) (initial 0)))
       /\ created (touch 0 (snd (getOrCreateClient configured
                                   (environmentContext configured)
                                   (initial 0))))
          = created (snd (getOrCreateClient configured
                            (environmentContext configured) (initial 0))).
Proof.
  apply (initialize_warms_cache configured None (Some (JNum 1))
           (Some (JNum 2)) (initial 0)
           (snd (getOrCreateClient configured (environmentContext configured)
                   (initial 0))) 0).
  - reflexivity.
  - left. reflexivity.
Defined.

(** The events of a call of [getOrCreateClient] that is given by [Hg]. *)
Ltac after_client Hg :=
  match type of Hg with
  | getOrCreateClient ?E ?c ?s = _ =>
      let evs := fresh "evs" in
      let Ht := fresh "Ht" in
      let Hn := fresh "Hn" in
      destruct (getOrCreateClient_no_toolCalls E c s) as (evs & Ht & Hn);
      rewrite Hg in Ht; cbn [snd] in Ht; exists evs
  end.

Lemma findTool_inv name ctx s n :
  findTool name ctx s = Some n ->
  name = Some (JStr n)
  /\ exists t, getTool n (Some ctx) s = Some t.
Proof.
  unfold findTool. destruct name as [[] |]; try discriminate.
  destruct (getTool s0 (Some ctx) s) as [t |] eqn:Hg; [| discriminate].
  intros [= <-]. eauto.
Qed.

Lemma toolsCallCase_trace E number_text cannotDestructure authContext id
  params s :
  let ctx := match hasOrganization authContext with
             | Some (c, _) => c
             | None => environmentContext E
             end in
  let out := toolsCallCase E number_text cannotDestructure authContext id
               params s in
  exists evs,
    trace (snd out) = (trace s ++ evs)%list
    /\ (toolCalls evs = []
        \/ exists p n,
             params = Some p
             /\ field p "name" = Some (JStr n)
             /\ toolCalls evs = [(n, argumentsOrEmpty (field p "arguments"))]
             /\ In n (toolNames (getTools (Some ctx) (snd out)))).
Proof.
  cbv zeta. unfold toolsCallCase.
  match goal with
  | |- context [rpcWithClient E authContext id ?f s] =>
      destruct (rpcWithClient_cases E authContext id f s)
        as [[_ ->] | [(m & s1 & Hg & ->) | (r & s1 & Horg & Hg & ->)]]
  end; cbn [fst snd].
  - exists []. rewrite app_nil_r. auto.
  - after_client Hg. auto.
  - set (ctx := match hasOrganization authContext with
                | Some (c, _) => c
                | None => environmentContext E
                end) in *.
    destruct (getOrCreateClient_no_toolCalls E ctx s) as (evs & Ht & Hn).
    rewrite Hg in Ht. cbn [snd] in Ht.
    destruct (body_cases params) as [[-> | ->] | (p & -> & Hp)];
      [exists evs; auto | exists evs; auto |].
    assert (Hshape : forall (A : Type) (thrown : A) (f : json -> A),
              p <> JNull ->
              match Some p with
              | Some JNull | None => thrown
              | Some p0 => f p0
              end = f p)
      by (intros A thrown f Hnn; destruct p; try reflexivity; congruence).
    rewrite (Hshape _ _
               (fun p0 =>
                  match findTool (field p0 "name") ctx s1 with
                  | Some n =>
                      let (s0, s2) :=
                        callTool E n
                          (Some (argumentsOrEmpty (field p0 "arguments")))
                          (Some ctx) s1 in
                      match s0 with
                      | inl error => (inl error, s2)
                      | inr result =>
                          match getProp result "content" with
                          | inl typeError => (inl (Err typeError), s2)
                          | inr content =>
                              match getProp result "isError" with
                              | inl typeError => (inl (Err typeError), s2)
                              | inr isError =>
                                  (inr
                                     (ok
                                        (rpcResult id
                                           (JObj
                                              [("content",
                                                orDefault content (JArr []));
                                               ("isError",
                                                orDefault isError
                                                  (JBool false))]))),
                                   s2)
                              end
                          end
                      end
                  | None =>
                      match template number_text (field p0 "name") with
                      | inl typeError => (inl (Err typeError), s1)
                      | inr text =>
                          (inr
                             (ok
                                (rpcError id (-32602)
                                   ("Tool '" ++ text ++ "' not found"))), s1)
                      end
                  end) Hp).
    clear Hshape.
    destruct (findTool (field p "name") ctx s1) as [n |] eqn:Hfind;
      [| exists evs; destruct (template number_text (field p "name")); auto].
    destruct (findTool_inv _ _ _ _ Hfind) as (Hname & t & Hgt).
    pose proof (getOrCreateClient_caches E _ _ _ _ Hg) as Hc.
    destruct (callTool_hit E n (Some (argumentsOrEmpty (field p "arguments")))
                ctx s1 r Horg Hc) as (i & Hi & ->).
    rewrite argumentsOrEmpty_twice.
    exists (evs ++ [CallTool (client i) n
                      (argumentsOrEmpty (field p "arguments"))])%list.
    assert (Hstate : forall out : (Error + Response) * State,
              snd out
              = emit (CallTool (client i) n
                        (argumentsOrEmpty (field p "arguments")))
                  (touch r s1) ->
              trace (snd (let (x, s') := out in
                          match x with
                          | inl (Err message) =>
                              (ok (rpcError id (-32603) message), s')
                          | inr response => (response, s')
                          end))
              = (trace s ++ evs
                 ++ [CallTool (client i) n
                       (argumentsOrEmpty (field p "arguments"))])%list
              /\ In n (toolNames
                         (getTools (Some ctx)
                            (snd (let (x, s') := out in
                                  match x with
                                  | inl (Err message) =>
                                      (ok (rpcError id (-32603) message), s')
                                  | inr response => (response, s')
                                  end))))).
    { intros [[[m] | response] s'] Hs; cbn [snd] in Hs |- *; subst s';
        (split; [cbn [emit trace];
                 destruct (touch_frame r s1) as (_ & _ & _ & ->);
                 now rewrite Ht, app_assoc |]);
        change (getTools (Some ctx) (emit ?ev ?st))
          with (getTools (Some ctx) st);
        rewrite getTools_touch; now apply (getTool_named _ _ _ t). }
    match goal with
    | |- trace (snd (let (x, s') := ?c in _)) = _ /\ _ =>
        destruct (Hstate c) as [H1 H2]
    end.
    { destruct (callTool_result E (client i) n
                  (argumentsOrEmpty (field p "arguments")))
        as [e | result]; [reflexivity |].
      destruct (getProp result "content"); [reflexivity |].
      destruct (getProp result "isError"); reflexivity. }
    split; [exact H1 |]. right. exists p, n.
    split; [reflexivity |]. split; [exact Hname |].
    split; [now rewrite toolCalls_app, Hn | exact H2].
Qed.

(** X27: the JSON-RPC route hands the backend at most one tool call, only
    for the method [tools/call], and only for a tool of the catalogue of
    the context it serves (the one of the request when it has an
    organisation, else the one of the environment).  A request for an
    unknown tool, a request whose tool name is not a string, and every
    other method cause no call. *)
Theorem mcpRoute_calls_catalogued_tools_only
  (E : Env) (number_text : float -> string)
  (cannotDestructure : string -> string -> option json -> string)
  (authContext : option AuthenticationContext) (body : option json)
  (s : State) :
  let ctx := match hasOrganization authContext with
             | Some (c, _) => c
             | None => environmentContext E
             end in
  let out := mcpRoute E number_text cannotDestructure authContext body s in
  exists evs,
    trace (snd out) = (trace s ++ evs)%list
    /\ (toolCalls evs = []
        \/ exists b p n,
             body = Some b
             /\ field b "method" = Some (JStr "tools/call")
             /\ field b "params" = Some p
             /\ field p "name" = Some (JStr n)
             /\ toolCalls evs = [(n, argumentsOrEmpty (field p "arguments"))]
             /\ In n (toolNames (getTools (Some ctx) (snd out)))).
Proof.
  cbv zeta.
  destruct (body_cases body) as [[-> | ->] | (b & -> & Hb)];
    [exists []; rewrite app_nil_r; cbn; auto
    | exists []; rewrite app_nil_r; cbn; auto |].
  rewrite (mcpRoute_body _ _ _ _ _ _ Hb).
  assert (Hsnd : forall c : Response * State,
            snd (let (response, s') := c in (@inr string Response response, s'))
            = snd c) by (now intros [? ?]).
  rewrite Hsnd. clear Hsnd.
  destruct (negb (is_text "2.0" (field b "jsonrpc")));
    [exists []; rewrite app_nil_r; cbn; auto |].
  destruct (is_text "initialize" (field b "method")).
  { unfold initializeCase.
    destruct (truthy_str (azureDevOpsOrg (environmentContext E)));
      [| exists []; rewrite app_nil_r; cbn; auto].
    destruct (getOrCreateClient_no_toolCalls E (environmentContext E) s)
      as (evs & Ht & Hn).
    exists evs. split; [| auto].
    destruct (getOrCreateClient E (environmentContext E) s)
      as [[[m] | r] s1]; exact Ht. }
  destruct (is_text "tools/list" (field b "method")).
  { unfold toolsListCase.
    match goal with
    | |- context [rpcWithClient E authContext ?i ?f s] =>
        destruct (rpcWithClient_cases E authContext i f s)
          as [[_ ->] | [(m & s1 & Hg & ->) | (r & s1 & Horg & Hg & ->)]]
    end; cbn [fst snd].
    - exists []. rewrite app_nil_r. auto.
    - after_client Hg. auto.
    - after_client Hg. auto. }
  destruct (is_text "tools/call" (field b "method")) eqn:Hm;
    [| exists []; rewrite app_nil_r;
       destruct (template number_text (field b "method")); cbn; auto].
  destruct (toolsCallCase_trace E number_text cannotDestructure authContext
              (field b "id") (field b "params") s)
    as (evs & Ht & [Hn | (p & n & Hp & Hname & Hcalls & Hin)]);
    exists evs; (split; [exact Ht |]); [now left |].
  right. exists b, p, n. repeat split; auto.
  unfold is_text in Hm. destruct (field b "method") as [[] |]; try discriminate.
  apply String.eqb_eq in Hm. now subst.
Qed.

Lemma callEach_cached E ctx calls :
  truthy_str (azureDevOpsOrg ctx) = true ->
  forall s r i,
    cached s (generateAuthCacheKey ctx) = Some r ->
    nth_error (heap s) r = Some i ->
    exists s',
      callEach E ctx calls s
      = (map (fun c => callTool_result E (client i) (fst c)
                         (argumentsOrEmpty (snd c))) calls, s')
      /\ trace s'
         = (trace s
            ++ map (fun c => CallTool (client i) (fst c)
                               (argumentsOrEmpty (snd c))) calls)%list
      /\ created s' = created s
      /\ clients s' = clients s
      /\ cached s' (generateAuthCacheKey ctx) = Some r.
Proof.
  intros Horg. induction calls as [| [tool a] rest IH]; intros s r i Hc Hi.
  - exists s. cbn [callEach map]. rewrite app_nil_r. auto.
  - cbn [callEach map fst snd].
    destruct (callTool_hit E tool a ctx s r Horg Hc) as (i0 & Hi0 & ->).
    rewrite Hi in Hi0. injection Hi0 as <-.
    destruct (touch_frame r s) as (Hcl & Hcr & _ & Htr).
    destruct (IH (emit (CallTool (client i) tool (argumentsOrEmpty a))
                    (touch r s)) r
                (mkInstance (client i) (transport i) (tools i)
                   (isInitialized i) (clock s)))
      as (s' & -> & Ht & Hn & Hm & Hc').
    + change (cached (emit ?ev ?st) ?k) with (cached st k).
      now rewrite cached_touch.
    + change (heap (emit ?ev ?st)) with (heap st). now apply touch_at.
    + exists s'. cbn [client] in *. split; [reflexivity |].
      cbn [emit trace created clients] in Ht, Hn, Hm.
      rewrite Ht, Hn, Hm, Htr, Hcr, Hcl, <- app_assoc. auto.
Qed.

(** X28: once the instance of a context is cached, any number of tool
    calls for that context, made one after the other, go to the one client
    of that instance, in order and each with its own arguments ([{}] for
    missing or falsy ones): no client is constructed, nothing is connected
    or closed, and a call that throws does not disturb the calls after
    it. *)
Theorem callEach_uses_one_connection
  (E : Env) (ctx : AuthenticationContext)
  (calls : list (string * option json)) (s : State) (r : ref)
  (i : MCPClientInstance) :
  truthy_str (azureDevOpsOrg ctx) = true ->
  cached s (generateAuthCacheKey ctx) = Some r ->
  nth_error (heap s) r = Some i ->
  exists s',
    callEach E ctx calls s
    = (map (fun c => callTool_result E (client i) (fst c)
                       (argumentsOrEmpty (snd c))) calls, s')
    /\ trace s'
       = (trace s
          ++ map (fun c => CallTool (client i) (fst c)
                             (argumentsOrEmpty (snd c))) calls)%list
    /\ connects (trace s') = connects (trace s)
    /\ closes (trace s') = closes (trace s)
    /\ created s' = created s
    /\ cached s' (generateAuthCacheKey ctx) = Some r.
Proof.
  intros Horg Hc Hi.
  destruct (callEach_cached E ctx calls Horg s r i Hc Hi)
    as (s' & Hrun & Ht & Hn & _ & Hc').
  exists s'. rewrite Ht, connects_app, closes_app.
  assert (Hquiet : forall l : list (string * option json),
            connects (map (fun c => CallTool (client i) (fst c)
                                      (argumentsOrEmpty (snd c))) l) = []
            /\ closes (map (fun c => CallTool (client i) (fst c)
                                       (argumentsOrEmpty (snd c))) l) = []).
  { induction l as [| c l [IH1 IH2]]; [split; reflexivity |].
    cbn [map]. rewrite connects_cons, closes_cons, IH1, IH2.
    split; reflexivity. }
  destruct (Hquiet calls) as [-> ->]. rewrite !app_nil_r.
  repeat split; auto.
Qed.

Lemma callEach_uses_one_connection_witness :
  exists s',
    callEach failing acme
      [("core_list_projects", None); ("nope", Some (JBool false))]
      (snd (getOrCreateClient failing acme (initial 0)))
    = ([inl (Err "Request timed out"); inl (Err "Request timed out")], s')
    /\ trace s'
       = (trace (snd (getOrCreateClient failing acme (initial 0)))
          ++ [CallTool 0 "core_list_projects" (JObj []);
              CallTool 0 "nope" (JObj [])])%list
    /\ connects (trace s')
       = connects (trace (snd (getOrCreateClient failing acme (initial 0))))
    /\ closes (trace s')
       = closes (trace (snd (getOrCreateClient failing acme (initial 0))))
    /\ created s'
       = created (snd (getOrCreateClient failing acme (initial 0)))
    /\ cached s' (generateAuthCacheKey acme) = Some 0.
Proof.
  apply (callEach_uses_one_connection failing acme
           [("core_list_projects", None); ("nope", Some (JBool false))]
           (snd (getOrCreateClient failing acme (initial 0))) 0
           (mkInstance 0
              (StdioClientTransport "npx" (stdioArgs failing acme)
                 (stdioEnvironment failing acme))
              catalogue true 2000)); reflexivity.
Defined.

End ServerFacts.

(* ===================================================================== *)
(** ** Facts about the two middlewares *)
(* ===================================================================== *)

Module MiddlewareFacts.
Import Js Auth Pool Middleware Vocabulary Samples ServerSamples PoolFacts.

Lemma declared_inv raw ctx :
  declared raw = Some ctx ->
  azureDevOpsOrg ctx = organization raw
  /\ mcpServerUrl ctx = serverUrl raw
  /\ ((transportType raw = "stdio" /\ mcpTransportType ctx = Some stdio)
      \/ (transportType raw = "http" /\ mcpTransportType ctx = Some http)).
Proof.
  unfold declared.
  destruct (String.eqb_spec (transportType raw) "stdio") as [Hs | _].
  - intros [= <-]. cbn. auto.
  - destruct (String.eqb_spec (transportType raw) "http") as [Hh | _];
      [| discriminate].
    intros [= <-]. cbn. auto.
Qed.

(** X29: the two middlewares and the manager agree.  The organisation of
    the context is the one of the environment, whatever the headers say;
    without it the validating middleware answers 401, and 400 for the http
    transport without a server URL; whenever it lets a request with a
    declared transport type pass, the checks of [getOrCreateClient] and
    [createHttpClient] pass too, up to the syntax of the URL, which only
    the manager checks. *)
Theorem validated_request_passes_manager_checks
  (E : Env) (headers : Headers) (ctx : AuthenticationContext) :
  let raw := extractAuthenticationMiddleware (process_env E) headers in
  declared raw = Some ctx ->
  azureDevOpsOrg ctx = assoc "AZURE_DEVOPS_ORG" (process_env E)
  /\ (truthy_str (azureDevOpsOrg ctx) = false ->
      exists message,
        validateAuthenticationMiddleware (Some raw) = Reject 401 message)
  /\ (truthy_str (azureDevOpsOrg ctx) = true ->
      mcpTransportType ctx = Some http ->
      truthy_str (mcpServerUrl ctx) = false ->
      exists message,
        validateAuthenticationMiddleware (Some raw) = Reject 400 message)
  /\ (validated E ctx = true ->
      validateAuthenticationMiddleware (Some raw) = Next)
  /\ (validateAuthenticationMiddleware (Some raw) = Next ->
      truthy_str (azureDevOpsOrg ctx) = true
      /\ (mcpTransportType ctx = Some http ->
          truthy_str (mcpServerUrl ctx) = true)
      /\ forall s,
           (mcpTransportType ctx = Some http ->
            URL_valid E (str_or (mcpServerUrl ctx) EmptyString) = true) ->
           cached s (generateAuthCacheKey ctx) = None ->
           enters_creation E ctx s = true).
Proof.
  cbv zeta. intros Hd.
  destruct (declared_inv _ _ Hd) as (Ho & Hu & Ht).
  set (raw := extractAuthenticationMiddleware (process_env E) headers) in *.
  split; [now rewrite Ho |].
  unfold validateAuthenticationMiddleware, validated, enters_creation.
  rewrite <- Ho, <- Hu.
  destruct (truthy_str (azureDevOpsOrg ctx)) eqn:Horg; cbn [negb andb].
  2: { repeat split; try discriminate; eauto. }
  destruct Ht as [[-> ->] | [-> ->]]; cbn [String.eqb Ascii.eqb Bool.eqb andb].
  - repeat split; try discriminate; auto.
    intros s _ ->. reflexivity.
  - destruct (mcpServerUrl ctx) as [[| a u] |] eqn:Hurl;
      cbn [truthy_str negb str_or].
    + repeat split; try discriminate; eauto.
    + repeat split; try discriminate; auto.
      intros s Hv ->. now rewrite Hv.
    + repeat split; try discriminate; eauto.
Qed.

Lemma validated_request_passes_manager_checks_witness :
  azureDevOpsOrg acme_stdio = assoc "AZURE_DEVOPS_ORG" (process_env configured)
  /\ validateAuthenticationMiddleware
       (Some (extractAuthenticationMiddleware (process_env configured) []))
     = Next
  /\ enters_creation configured acme_stdio (initial 0) = true.
Proof.
  destruct (validated_request_passes_manager_checks configured [] acme_stdio
              eq_refl) as (H1 & _ & _ & H4 & H5).
  split; [exact H1 |]. split; [exact (H4 eq_refl) |].
  destruct (H5 (H4 eq_refl)) as (_ & _ & H6).
  apply H6; [discriminate | reflexivity].
Defined.

End MiddlewareFacts.
